(** * Resume generator: field validators, section models and form orchestrator

    A shallow embedding of the form core of the resume generator
    (resumeTypes validators, EducationForm, ExperienceForm, ResumeForm and
    githubService.getRepositoryTags) together with the properties of its
    specification.

    JavaScript strings are sequences of UTF-16 code units; they are modelled
    as lists of code units.  Regular expressions are modelled by a small
    backtracking matcher that follows the ECMAScript pattern semantics for
    the constructs the source uses. *)

From Stdlib Require Import Ascii String ZArith NArith Lia DecimalString DecimalN.
From stdpp Require Import gmap list fin_maps strings.

Local Open Scope N_scope.
Local Open Scope list_scope.

(* ===================================================================== *)
(** * Part I: definitions                                                 *)
(* ===================================================================== *)

(** ** JavaScript strings *)

Module JSString.

(** A UTF-16 code unit, and a string of them. *)
Abbreviation char := N (only parsing).
Abbreviation jsstring := (list N) (only parsing).

(** ASCII literal to code units. *)
Fixpoint str (s : string) : jsstring :=
  match s with
  | EmptyString => []
  | String a rest => N_of_ascii a :: str rest
  end.

Definition chr (a : ascii) : char := N_of_ascii a.
Global Arguments chr : simpl never.
Global Arguments N_of_ascii : simpl never.

Definition is_char (a : ascii) (c : char) : bool := c =? chr a.
Definition in_range (lo hi : ascii) (c : char) : bool :=
  (chr lo <=? c) && (c <=? chr hi).

(** [\d]: ASCII digits only. *)
Definition is_digit (c : char) : bool := in_range "0" "9" c.

(** [\w] without the unicode flag: [A-Za-z0-9_]. *)
Definition is_word (c : char) : bool :=
  in_range "a" "z" c || in_range "A" "Z" c || is_digit c || is_char "_" c.

(** WhiteSpace and LineTerminator code points of ECMAScript: the set
    stripped by [String.prototype.trim] and matched by [\s]. *)
Definition is_space (c : char) : bool :=
  (c =? 9) || (c =? 10) || (c =? 11) || (c =? 12) || (c =? 13) || (c =? 32)
  || (c =? 160) || (c =? 5760) || ((8192 <=? c) && (c <=? 8202))
  || (c =? 8232) || (c =? 8233) || (c =? 8239) || (c =? 8287)
  || (c =? 12288) || (c =? 65279).

Fixpoint trimStart (s : jsstring) : jsstring :=
  match s with
  | c :: rest => if is_space c then trimStart rest else s
  | [] => []
  end.

Definition trimEnd (s : jsstring) : jsstring := rev (trimStart (rev s)).

Definition trim (s : jsstring) : jsstring := trimEnd (trimStart s).

(** Truthiness of a string value: only the empty string is falsy. *)
Definition truthy (s : jsstring) : bool :=
  match s with [] => false | _ :: _ => true end.

End JSString.
Export JSString.

(** ** Regular expressions (backtracking semantics) *)

Module RegExp.

Inductive regex : Type :=
| Empty
| Char (p : char → bool)
| Seq (r1 r2 : regex)
| Alt (r1 r2 : regex)
| Star (r : regex)
| Group (i : nat) (r : regex)
| NotAhead (r : regex)
| WordBoundary
| InputStart
| InputEnd.

(** Matcher state: the input already passed (most recent code unit
    first), the input still ahead, and the capture groups set so far. *)
Record mstate : Type := MState {
  consumed : jsstring;
  remaining : jsstring;
  captures : gmap nat jsstring
}.

Definition shorter (y x : mstate) : bool :=
  (length (remaining y) <? length (remaining x))%nat.

Definition word_before (x : mstate) : bool :=
  match consumed x with c :: _ => is_word c | [] => false end.
Definition word_after (x : mstate) : bool :=
  match remaining x with c :: _ => is_word c | [] => false end.

Definition capture (i : nat) (x y : mstate) : mstate :=
  MState (consumed y) (remaining y)
    (<[i := take (length (remaining x) - length (remaining y)) (remaining x)]>
       (captures y)).

(** Greedy repetition: try one more iteration first, then the
    continuation.  An iteration that consumes nothing is rejected, as in
    the RepeatMatcher of the language definition, so [n] iterations need
    at least [n] code units and [length (remaining x)] bounds the depth. *)
Fixpoint star_loop (body : mstate → (mstate → option mstate) → option mstate)
    (k : mstate → option mstate) (n : nat) (x : mstate) : option mstate :=
  match n with
  | O => k x
  | S n' =>
      match body x (λ y, if shorter y x then star_loop body k n' y else None) with
      | Some z => Some z
      | None => k x
      end
  end.

Fixpoint run (r : regex) (x : mstate) (k : mstate → option mstate)
    : option mstate :=
  match r with
  | Empty => k x
  | Char p =>
      match remaining x with
      | c :: rest =>
          if p c then k (MState (c :: consumed x) rest (captures x)) else None
      | [] => None
      end
  | Seq r1 r2 => run r1 x (λ y, run r2 y k)
  | Alt r1 r2 =>
      match run r1 x k with
      | Some z => Some z
      | None => run r2 x k
      end
  | Star r1 => star_loop (run r1) k (length (remaining x)) x
  | Group i r1 => run r1 x (λ y, k (capture i x y))
  | NotAhead r1 =>
      match run r1 x Some with
      | Some _ => None
      | None => k x
      end
  | WordBoundary => if xorb (word_before x) (word_after x) then k x else None
  | InputStart => match consumed x with [] => k x | _ :: _ => None end
  | InputEnd => match remaining x with [] => k x | _ :: _ => None end
  end.

(** One match attempt at the current position. *)
Definition exec_at (r : regex) (pre post : jsstring) : option mstate :=
  run r (MState pre post ∅) Some.

(** Leftmost match at or after the current position (non-global,
    non-sticky [exec]). *)
Fixpoint search (r : regex) (pre post : jsstring) : option mstate :=
  match exec_at r pre post with
  | Some z => Some z
  | None =>
      match post with
      | [] => None
      | c :: rest => search r (c :: pre) rest
      end
  end.

(** [re.test(s)] *)
Definition test (r : regex) (s : jsstring) : bool :=
  match search r [] s with Some _ => true | None => false end.

(** [s.match(re)] for a regex without the global flag: the capture
    groups of the leftmost match, or [None] for [null]. *)
Definition match_groups (r : regex) (s : jsstring) : option (gmap nat jsstring) :=
  captures <$> search r [] s.

(** [s.replace(re, '')] with the global flag.  Matches are searched
    left to right; a match is dropped and the search resumes after it;
    an empty match keeps the next code unit and resumes one further. *)
Fixpoint remove_all_from (fuel : nat) (r : regex) (pre post : jsstring)
    : jsstring :=
  match fuel with
  | O => post
  | S fuel' =>
      match exec_at r pre post with
      | Some z =>
          if (length (remaining z) <? length post)%nat
          then remove_all_from fuel' r (consumed z) (remaining z)
          else match post with
               | [] => []
               | c :: rest => c :: remove_all_from fuel' r (c :: pre) rest
               end
      | None =>
          match post with
          | [] => []
          | c :: rest => c :: remove_all_from fuel' r (c :: pre) rest
          end
      end
  end.

Definition remove_all (r : regex) (s : jsstring) : jsstring :=
  remove_all_from (S (length s)) r [] s.

(** Derived forms. *)
Definition Plus (r : regex) : regex := Seq r (Star r).
Definition Opt (r : regex) : regex := Alt r Empty.
Fixpoint Lit (s : jsstring) : regex :=
  match s with
  | [] => Empty
  | c :: rest => Seq (Char (N.eqb c)) (Lit rest)
  end.

(** A letter under the ignore-case flag (no unicode flag): a code unit
    matches when its canonical form, the upper-case letter, is the same.
    A code unit outside ASCII never canonicalises to an ASCII letter. *)
Definition canonicalize (c : char) : char :=
  if in_range "a" "z" c then c - 32 else c.
Definition CharI (a : ascii) : regex :=
  Char (λ c, canonicalize c =? canonicalize (chr a)).
Fixpoint LitI (s : string) : regex :=
  match s with
  | EmptyString => Empty
  | String a rest => Seq (CharI a) (LitI rest)
  end.

(** Declarative reading of a pattern: [matches r x y] when [r] can take
    the matcher from state [x] to state [y]. *)
Inductive iterate (R : mstate → mstate → Prop) : mstate → mstate → Prop :=
| iterate_done x : iterate R x x
| iterate_step x y z :
    R x y → shorter y x = true → iterate R y z → iterate R x z.

Fixpoint matches (r : regex) (x y : mstate) : Prop :=
  match r with
  | Empty => y = x
  | Char p =>
      ∃ c rest, remaining x = c :: rest ∧ p c = true ∧
                y = MState (c :: consumed x) rest (captures x)
  | Seq r1 r2 => ∃ m, matches r1 x m ∧ matches r2 m y
  | Alt r1 r2 => matches r1 x y ∨ matches r2 x y
  | Star r1 => iterate (matches r1) x y
  | Group i r1 => ∃ m, matches r1 x m ∧ y = capture i x m
  | NotAhead r1 => y = x ∧ ∀ m, ¬ matches r1 x m
  | WordBoundary => y = x ∧ xorb (word_before x) (word_after x) = true
  | InputStart => y = x ∧ consumed x = []
  | InputEnd => y = x ∧ remaining x = []
  end.

(** [y] is reached from [x] by reading the word [w]. *)
Definition reads (x : mstate) (w : jsstring) (y : mstate) : Prop :=
  remaining x = w ++ remaining y ∧ consumed y = rev w ++ consumed x.

End RegExp.

(** ** Number values

    The non-negative Number values that [parseFloat] can return on an
    unsigned decimal string.  A finite value is kept as its integer
    multiple of [2^-1074], the spacing of the smallest binary64 values, of
    which every finite binary64 value is a multiple. *)

Module Number.
Local Open Scope Z_scope.

Inductive number : Type :=
| NaN
| Finite (units : Z)
| PosInf.

(** Nearest integer to [a / b], ties to the even one. *)
Definition round_half_even (a b : Z) : Z :=
  let q := a / b in
  let r := a mod b in
  if 2 * r <? b then q
  else if b <? 2 * r then q + 1
  else if Z.even q then q else q + 1.

(** Binary exponent of the spacing (relative to [2^-1074]) of the
    binary64 values around [a / b]: 53 significant bits are kept. *)
Definition spacing (a b : Z) : Z := Z.max (Z.log2 (a / b) - 52) 0.

(** The Number value for the exact rational [n / d] (round to nearest,
    ties to even; [2^1024] and above become [+Infinity]).  [rounded a b]
    rounds [a / b] to 53 significant bits; [to_number] applies it to the
    value counted in units of [2^-1074]. *)
Definition rounded (a b : Z) : Z :=
  round_half_even a (b * 2 ^ spacing a b) * 2 ^ spacing a b.

Definition to_number (n d : Z) : number :=
  let v := rounded (n * 2 ^ 1074) d in
  if 2 ^ 2098 <=? v then PosInf else Finite v.

(** The [>] operator on these values. *)
Definition gt (x y : number) : bool :=
  match x, y with
  | NaN, _ | _, NaN => false
  | PosInf, PosInf => false
  | PosInf, Finite _ => true
  | Finite _, PosInf => false
  | Finite a, Finite b => b <? a
  end.

Definition digit_value (c : char) : Z := Z.of_N c - 48.

(** Value of a run of decimal digits. *)
Definition digits_value (s : jsstring) : Z :=
  fold_left (λ acc c, 10 * acc + digit_value c) s 0.

Fixpoint span_digits (s : jsstring) : jsstring * jsstring :=
  match s with
  | c :: rest =>
      if is_digit c
      then let '(ds, tl) := span_digits rest in (c :: ds, tl)
      else ([], s)
  | [] => ([], [])
  end.

(** Integer and fraction digits of an unsigned decimal string: one or
    more digits, optionally followed by a point and further digits. *)
Definition decimal_parts (s : jsstring) : option (jsstring * jsstring) :=
  match span_digits s with
  | ([], _) => None
  | (ip, []) => Some (ip, [])
  | (ip, c :: rest) =>
      if is_char "." c
      then match span_digits rest with
           | (fp, []) => Some (ip, fp)
           | _ => None
           end
      else None
  end.

(** Exact value of an unsigned decimal string, as a fraction. *)
Definition decimal_fraction (s : jsstring) : option (Z * Z) :=
  match decimal_parts s with
  | Some (ip, fp) => Some (digits_value (ip ++ fp), 10 ^ Z.of_nat (length fp))
  | None => None
  end.

(** [parseFloat] on the unsigned decimal strings, the only arguments the
    form passes to it (both are capture groups of the GPA pattern).
    [NaN] stands in for every other argument.  Every digit counts: the
    value is rounded once, from the exact decimal, as the engines do (the
    language definition leaves digits after the twentieth to the
    implementation). *)
Definition parseFloat (s : jsstring) : number :=
  match decimal_fraction s with
  | Some (n, d) => to_number n d
  | None => NaN
  end.

(** The code units a decimal string is made of. *)
Definition numeric (c : char) : bool := is_digit c || is_char "." c.

(** Exact comparison of two fractions with positive denominators. *)
Definition frac_le (x y : Z * Z) : Prop := x.1 * y.2 <= y.1 * x.2.
Definition frac_lt (x y : Z * Z) : Prop := x.1 * y.2 < y.1 * x.2.

End Number.

(** ** resumeTypes: validation and sanitization *)

Module ResumeTypes.
Import RegExp.

Fixpoint Repeat (n : nat) (r : regex) : regex :=
  match n with
  | O => Empty
  | S n' => Seq r (Repeat n' r)
  end.

Definition not_char (a : ascii) (c : char) : bool := negb (is_char a c).

(** [/^\d{4}-(0[1-9]|1[0-2])$/] *)
Definition dateRegex : regex :=
  Seq InputStart
    (Seq (Repeat 4 (Char is_digit))
      (Seq (Char (is_char "-"))
        (Seq (Group 1 (Alt (Seq (Char (is_char "0")) (Char (in_range "1" "9")))
                           (Seq (Char (is_char "1")) (Char (in_range "0" "2")))))
          InputEnd))).

Definition validateDate (date : jsstring) : bool :=
  if decide (date = str "Present") then true
  else test dateRegex date.

(** [/<script\b[^<]* (?: (?!<\/script>) <[^<]* )* <\/script>/gi]
    (spaces added between the parts of the pattern). *)
Definition scriptRegex : regex :=
  Seq (LitI "<script")
    (Seq WordBoundary
      (Seq (Star (Char (not_char "<")))
        (Seq (Star (Seq (NotAhead (LitI "</script>"))
                     (Seq (Char (is_char "<")) (Star (Char (not_char "<"))))))
          (LitI "</script>")))).

(** [/<[^>]+>/g] *)
Definition tagRegex : regex :=
  Seq (Char (is_char "<"))
    (Seq (Plus (Char (not_char ">"))) (Char (is_char ">"))).

Definition sanitizeString (input : jsstring) : jsstring :=
  if negb (truthy input) then []
  else trim (remove_all tagRegex (remove_all scriptRegex input)).

Definition sanitizeDescription (input : jsstring) : jsstring :=
  if negb (truthy input) then []
  else trim (remove_all scriptRegex input).

(** A complete markup tag inside [s]: ['<'], one or more code units
    other than ['>'], then ['>']. *)
Definition has_tag (s : jsstring) : Prop :=
  ∃ before body after,
    s = before ++ chr "<" :: body ++ chr ">" :: after ∧
    body ≠ [] ∧ Forall (λ c, c ≠ chr ">") body.

(** The date grammar in the words of the specification: four digits, a
    hyphen, and a two-digit month whose value lies in 1..12. *)
Definition year_month (s : jsstring) : Prop :=
  ∃ y1 y2 y3 y4 m1 m2,
    s = [y1; y2; y3; y4; chr "-"; m1; m2] ∧
    is_digit y1 = true ∧ is_digit y2 = true ∧
    is_digit y3 = true ∧ is_digit y4 = true ∧
    is_digit m1 = true ∧ is_digit m2 = true ∧
    (1 <= 10 * Number.digit_value m1 + Number.digit_value m2 <= 12)%Z.

(** [/^[^\s@]+@[^\s@]+\.[^\s@]+$/] *)
Definition email_char (c : char) : bool := negb (is_space c || is_char "@" c).

Definition emailRegex : regex :=
  Seq InputStart
    (Seq (Plus (Char email_char))
      (Seq (Char (is_char "@"))
        (Seq (Plus (Char email_char))
          (Seq (Char (is_char "."))
            (Seq (Plus (Char email_char)) InputEnd))))).

Definition validateEmail (email : jsstring) : bool := test emailRegex email.

(** [/^[\d\s\-\+\(\)]+$/] *)
Definition phone_char (c : char) : bool :=
  is_digit c || is_space c || is_char "-" c || is_char "+" c
  || is_char "(" c || is_char ")" c.

Definition phoneRegex : regex :=
  Seq InputStart (Seq (Plus (Char phone_char)) InputEnd).

Definition validatePhone (phone : jsstring) : bool :=
  (10 <=? length phone)%nat && test phoneRegex phone.

(** What [validateImageFile] reads of a [File]. *)
Record File : Type := mkFile { file_type : jsstring; file_size : N }.

Record validation : Type := mkValidation {
  valid : bool;
  error : option jsstring
}.

Definition maxSize : N := 5 * 1024 * 1024.

Definition allowedTypes : list jsstring :=
  [str "image/jpeg"; str "image/jpg"; str "image/png"; str "image/webp"].

(** [None] stands for a missing file ([null] or [undefined]). *)
Definition validateImageFile (file : option File) : validation :=
  match file with
  | None => mkValidation false (Some (str "No file provided"))
  | Some f =>
      if negb (bool_decide (file_type f ∈ allowedTypes))
      then mkValidation false
             (Some (str "Only JPEG, PNG, and WebP images are allowed"))
      else if maxSize <? file_size f
      then mkValidation false (Some (str "Image size must be less than 5MB"))
      else mkValidation true None
  end.

(** The shape the email pattern accepts, spelled out. *)
Definition email_shape (s : jsstring) : Prop :=
  ∃ name domain tld,
    s = name ++ chr "@" :: domain ++ chr "." :: tld ∧
    name ≠ [] ∧ domain ≠ [] ∧ tld ≠ [] ∧
    Forall (λ c, email_char c = true) name ∧
    Forall (λ c, email_char c = true) domain ∧
    Forall (λ c, email_char c = true) tld.

(** No ['<'] of [s] is followed by the letter s, in either case: the
    script pattern can start nowhere in [s]. *)
Fixpoint no_script_opening (s : jsstring) : bool :=
  match s with
  | [] => true
  | c :: rest =>
      negb (is_char "<" c
            && match rest with
               | d :: _ => is_char "s" d || is_char "S" d
               | [] => false
               end)
      && no_script_opening rest
  end.

(** A sanitized value: the strict sanitizer leaves it as it is. *)
Definition clean (s : jsstring) : Prop := sanitizeString s = s.

End ResumeTypes.

(** ** githubService: repository tags *)

Module GithubService.

Inductive tag_type : Type := topic | language | generated.

Record tag : Type := Tag { name : jsstring; type : tag_type }.

(** The enhanced repository object; the three tag sources may be
    missing (the source reads them with [?.]). *)
Record repo : Type := Repo {
  repo_id : jsstring;
  repo_name : jsstring;
  topics : option (list jsstring);
  languages : option (list jsstring);
  generatedTags : option (list jsstring)
}.

Section Tags.
(** [String.prototype.toLowerCase]; nothing below depends on how it
    maps code units. *)
Variable toLowerCase : jsstring → jsstring.

Definition normalized (name : jsstring) : jsstring :=
  trim (toLowerCase name).

(** The closure state of [getRepositoryTags]: the [tags] array and the
    [seen] set. *)
Record acc : Type := Acc { tags : list tag; seen : gset jsstring }.

Definition addTag (ty : tag_type) (a : acc) (nm : jsstring) : acc :=
  if negb (bool_decide (normalized nm ∈ seen a)) && truthy nm
  then Acc (tags a ++ [Tag nm ty]) ({[normalized nm]} ∪ seen a)
  else a.

(** [xs?.forEach(f)] *)
Definition forEach (xs : option (list jsstring)) (f : acc → jsstring → acc)
    (a : acc) : acc :=
  match xs with
  | Some l => fold_left f l a
  | None => a
  end.

Definition getRepositoryTags (r : repo) : list tag :=
  let a := Acc [] ∅ in
  let a := forEach (topics r) (addTag topic) a in
  let a := forEach (languages r) (addTag language) a in
  let a := forEach (generatedTags r) (addTag generated) a in
  tags a.

(** One step of the loops, on a candidate that carries its label. *)
Definition add_candidate (a : acc) (t : tag) : acc :=
  addTag (type t) a (name t).

(** The candidate tags in the order the source visits them. *)
Definition labelled (ty : tag_type) (xs : option (list jsstring)) : list tag :=
  match xs with
  | Some l => (λ nm, Tag nm ty) <$> l
  | None => []
  end.

Definition candidates (r : repo) : list tag :=
  labelled topic (topics r) ++ labelled language (languages r)
    ++ labelled generated (generatedTags r).

(** Keep the first candidate of every normalized name, skipping the
    candidates with an empty name. *)
Fixpoint first_occurrences (earlier : list jsstring) (l : list tag) : list tag :=
  match l with
  | [] => []
  | t :: rest =>
      if bool_decide (name t ≠ []) && bool_decide (normalized (name t) ∉ earlier)
      then t :: first_occurrences (normalized (name t) :: earlier) rest
      else first_occurrences earlier rest
  end.

End Tags.

End GithubService.

(** ** EducationForm *)

Module EducationForm.
Import RegExp ResumeTypes.

Record Education : Type := mkEducation {
  id : jsstring;
  institution : jsstring;
  degree : jsstring;
  field : jsstring;
  startDate : jsstring;
  endDate : jsstring;
  gpa : jsstring;
  achievements : list jsstring
}.

(** The field names the form passes to [updateEducation]. *)
Inductive field_name : Type :=
| Institution | Degree | Field | StartDate | EndDate | Gpa.

Global Instance field_name_eq_dec : EqDecision field_name.
Proof. solve_decision. Defined.

Definition field_key (f : field_name) : jsstring :=
  match f with
  | Institution => str "institution"
  | Degree => str "degree"
  | Field => str "field"
  | StartDate => str "startDate"
  | EndDate => str "endDate"
  | Gpa => str "gpa"
  end.

Definition get_field (f : field_name) (e : Education) : jsstring :=
  match f with
  | Institution => institution e
  | Degree => degree e
  | Field => field e
  | StartDate => startDate e
  | EndDate => endDate e
  | Gpa => gpa e
  end.

(** [{ ...edu, [field]: v }] *)
Definition set_field (f : field_name) (v : jsstring) (e : Education) : Education :=
  match f with
  | Institution =>
      mkEducation (id e) v (degree e) (field e) (startDate e) (endDate e) (gpa e) (achievements e)
  | Degree =>
      mkEducation (id e) (institution e) v (field e) (startDate e) (endDate e) (gpa e) (achievements e)
  | Field =>
      mkEducation (id e) (institution e) (degree e) v (startDate e) (endDate e) (gpa e) (achievements e)
  | StartDate =>
      mkEducation (id e) (institution e) (degree e) (field e) v (endDate e) (gpa e) (achievements e)
  | EndDate =>
      mkEducation (id e) (institution e) (degree e) (field e) (startDate e) v (gpa e) (achievements e)
  | Gpa =>
      mkEducation (id e) (institution e) (degree e) (field e) (startDate e) (endDate e) v (achievements e)
  end.

(** Decimal digits of a clock reading, as in a template literal. *)
Definition number_to_string (n : N) : jsstring :=
  str (NilEmpty.string_of_uint (N.to_uint n)).

(** Component state besides the [data] property. *)
Record state : Type := mkState {
  editingId : option jsstring;
  validationErrors : gmap jsstring jsstring
}.

Definition newEdu (now : N) : Education :=
  mkEducation (str "edu" ++ number_to_string now) [] [] [] [] [] [] [].

(** [addEducation]; [now] is the value returned by [Date.now()].  The
    result is the list handed to [onChange] and the new component state. *)
Definition addEducation (now : N) (data : list Education) (st : state)
    : list Education * state :=
  (data ++ [newEdu now], mkState (Some (id (newEdu now))) (validationErrors st)).

(** A run of [addEducation] calls, one for every clock reading of
    [readings], each on the list the previous one handed to [onChange]. *)
Fixpoint addEducations (readings : list N) (data : list Education) (st : state)
    : list Education * state :=
  match readings with
  | [] => (data, st)
  | now :: later =>
      let '(data', st') := addEducation now data st in
      addEducations later data' st'
  end.

(** [/^ (\d+\.?\d* ) \s* \/ \s* (\d+\.?\d* ) $/]
    (spaces added between the parts of the pattern). *)
Definition gpaNumber : regex :=
  Seq (Plus (Char is_digit)) (Seq (Opt (Char (is_char "."))) (Star (Char is_digit))).
Definition gpaRegex : regex :=
  Seq InputStart
    (Seq (Group 1 gpaNumber)
      (Seq (Star (Char is_space))
        (Seq (Char (is_char "/"))
          (Seq (Star (Char is_space))
            (Seq (Group 2 gpaNumber) InputEnd))))).

Definition error_key (id : jsstring) (f : field_name) : jsstring :=
  id ++ str "-" ++ field_key f.

(** [validateField]: the new error map and the returned flag. *)
Definition validateField (validationErrors : gmap jsstring jsstring)
    (id : jsstring) (f : field_name) (value : jsstring)
    : gmap jsstring jsstring * bool :=
  let errors := validationErrors in
  let key := error_key id f in
  let errors :=
    if bool_decide (f = StartDate) || bool_decide (f = EndDate) then
      if truthy value && negb (validateDate value)
      then <[key := str "Invalid date format (use YYYY-MM or Present)"]> errors
      else delete key errors
    else errors in
  let errors :=
    if bool_decide (f = Gpa) then
      if truthy value then
        match match_groups gpaRegex value with
        | None => <[key := str "Format: 3.8/4.0"]> errors
        | Some gpaMatch =>
            let earned := default [] (gpaMatch !! 1%nat) in
            let total := default [] (gpaMatch !! 2%nat) in
            if Number.gt (Number.parseFloat earned) (Number.parseFloat total)
            then <[key := str "GPA cannot exceed maximum"]> errors
            else delete key errors
        end
      else delete key errors
    else errors in
  (errors, bool_decide (errors = ∅)).

Definition updateEducation (id0 : jsstring) (f : field_name) (value : jsstring)
    (data : list Education) (st : state) : list Education * state :=
  ((λ edu, if decide (id edu = id0)
           then set_field f (sanitizeString value) edu else edu) <$> data,
   mkState (editingId st) (validateField (validationErrors st) id0 f value).1).

Definition deleteEducation (id0 : jsstring) (data : list Education)
    : list Education :=
  filter (λ edu, id edu ≠ id0) data.

(** The GPA check of [validateField] in isolation: no error is left
    under the field's key. *)
Definition gpa_passes (validationErrors : gmap jsstring jsstring)
    (id : jsstring) (value : jsstring) : bool :=
  bool_decide ((validateField validationErrors id Gpa value).1
                 !! error_key id Gpa = None).

(** The shape the GPA pattern accepts, spelled out: a decimal number,
    optional white space, a slash, optional white space, a decimal
    number. *)
Definition gpa_shape (value earned total : jsstring) : Prop :=
  ∃ ws1 ws2,
    value = earned ++ ws1 ++ chr "/" :: ws2 ++ total ∧
    Forall (λ c, is_space c = true) ws1 ∧
    Forall (λ c, is_space c = true) ws2 ∧
    is_Some (Number.decimal_fraction earned) ∧
    is_Some (Number.decimal_fraction total).

Definition set_achievements (l : list jsstring) (e : Education) : Education :=
  mkEducation (id e) (institution e) (degree e) (field e) (startDate e)
    (endDate e) (gpa e) l.

Definition addAchievement (id0 : jsstring) (data : list Education)
    : list Education :=
  (λ edu, if decide (id edu = id0)
          then set_achievements (achievements edu ++ [[]]) edu else edu) <$> data.

Definition updateAchievement (eduId : jsstring) (index : nat) (value : jsstring)
    (data : list Education) : list Education :=
  (λ edu, if decide (id edu = eduId)
          then set_achievements
                 (imap (λ i a, if decide (i = index) then sanitizeString value else a)
                    (achievements edu)) edu
          else edu) <$> data.

(** [xs.filter((_, i) => keep(i))], the elements counted from [i]. *)
Fixpoint filter_index {A : Type} (keep : nat → bool) (i : nat) (xs : list A)
    : list A :=
  match xs with
  | [] => []
  | x :: rest =>
      if keep i then x :: filter_index keep (S i) rest
      else filter_index keep (S i) rest
  end.

Definition deleteAchievement (eduId : jsstring) (index : nat)
    (data : list Education) : list Education :=
  (λ edu, if decide (id edu = eduId)
          then set_achievements
                 (filter_index (λ i, negb (i =? index)%nat) 0 (achievements edu)) edu
          else edu) <$> data.

(** The operations the education form offers. *)
Inductive operation : Type :=
| AddEducation (now : N)
| UpdateEducation (id0 : jsstring) (f : field_name) (value : jsstring)
| DeleteEducation (id0 : jsstring)
| AddAchievement (id0 : jsstring)
| UpdateAchievement (id0 : jsstring) (index : nat) (value : jsstring)
| DeleteAchievement (id0 : jsstring) (index : nat).

Definition perform (op : operation) (data : list Education) (st : state)
    : list Education * state :=
  match op with
  | AddEducation now => addEducation now data st
  | UpdateEducation id0 f value => updateEducation id0 f value data st
  | DeleteEducation id0 => (deleteEducation id0 data, st)
  | AddAchievement id0 => (addAchievement id0 data, st)
  | UpdateAchievement id0 index value => (updateAchievement id0 index value data, st)
  | DeleteAchievement id0 index => (deleteAchievement id0 index data, st)
  end.

Fixpoint perform_all (ops : list operation) (data : list Education) (st : state)
    : list Education * state :=
  match ops with
  | [] => (data, st)
  | op :: later =>
      let '(data', st') := perform op data st in
      perform_all later data' st'
  end.

(** Every text of the entry is a sanitized value. *)
Definition clean_education (e : Education) : Prop :=
  Forall clean [institution e; degree e; field e; startDate e; endDate e; gpa e]
  ∧ Forall clean (achievements e).

End EducationForm.

(** ** ExperienceForm *)

Module ExperienceForm.
Import ResumeTypes.

Record Experience : Type := mkExperience {
  id : jsstring;
  type : jsstring;
  title : jsstring;
  organization : jsstring;
  location : jsstring;
  startDate : jsstring;
  endDate : jsstring;
  description : jsstring;
  technologies : list jsstring;
  repoId : option jsstring;
  repoData : option GithubService.repo
}.

(** The field names the form passes to [updateExperience]. *)
Inductive field_name : Type :=
| Title | Organization | Location | StartDate | EndDate | Description.

Global Instance field_name_eq_dec : EqDecision field_name.
Proof. solve_decision. Defined.

Definition field_key (f : field_name) : jsstring :=
  match f with
  | Title => str "title"
  | Organization => str "organization"
  | Location => str "location"
  | StartDate => str "startDate"
  | EndDate => str "endDate"
  | Description => str "description"
  end.

Definition get_field (f : field_name) (e : Experience) : jsstring :=
  match f with
  | Title => title e
  | Organization => organization e
  | Location => location e
  | StartDate => startDate e
  | EndDate => endDate e
  | Description => description e
  end.

Definition set_field (f : field_name) (v : jsstring) (e : Experience) : Experience :=
  match f with
  | Title =>
      mkExperience (id e) (type e) v (organization e) (location e) (startDate e)
        (endDate e) (description e) (technologies e) (repoId e) (repoData e)
  | Organization =>
      mkExperience (id e) (type e) (title e) v (location e) (startDate e)
        (endDate e) (description e) (technologies e) (repoId e) (repoData e)
  | Location =>
      mkExperience (id e) (type e) (title e) (organization e) v (startDate e)
        (endDate e) (description e) (technologies e) (repoId e) (repoData e)
  | StartDate =>
      mkExperience (id e) (type e) (title e) (organization e) (location e) v
        (endDate e) (description e) (technologies e) (repoId e) (repoData e)
  | EndDate =>
      mkExperience (id e) (type e) (title e) (organization e) (location e)
        (startDate e) v (description e) (technologies e) (repoId e) (repoData e)
  | Description =>
      mkExperience (id e) (type e) (title e) (organization e) (location e)
        (startDate e) (endDate e) v (technologies e) (repoId e) (repoData e)
  end.

(** Component state: the fetched repositories and two display flags.
    The component keeps no field-level error map. *)
Record state : Type := mkState {
  repos : list GithubService.repo;
  loadingRepos : bool;
  showRepoSelector : bool
}.

Definition newExp (ty : jsstring) (now : N) : Experience :=
  mkExperience (str "exp" ++ EducationForm.number_to_string now) ty
    [] [] [] [] [] [] [] None None.

Definition addExperience (ty : jsstring) (now : N) (experiences : list Experience)
    : list Experience :=
  experiences ++ [newExp ty now].

Definition updateExperience (id0 : jsstring) (f : field_name) (value : jsstring)
    (experiences : list Experience) : list Experience :=
  (λ exp, if decide (id exp = id0)
          then set_field f (if decide (f = Description)
                            then sanitizeDescription value
                            else sanitizeString value) exp
          else exp) <$> experiences.

Definition deleteExperience (id0 : jsstring) (experiences : list Experience)
    : list Experience :=
  filter (λ exp, id exp ≠ id0) experiences.

(** [!exp.repoId] *)
Definition unlinked (exp : Experience) : bool :=
  match repoId exp with
  | None => true
  | Some r => negb (truthy r)
  end.

Definition set_repo (r : option jsstring) (d : option GithubService.repo)
    (e : Experience) : Experience :=
  mkExperience (id e) (type e) (title e) (organization e) (location e)
    (startDate e) (endDate e) (description e) (technologies e) r d.

(** [repos] is the component's list of fetched repositories. *)
Definition linkRepoToExperience (repos : list GithubService.repo)
    (expId repoId : jsstring) (experiences : list Experience) : list Experience :=
  let repo := find (λ r, bool_decide (GithubService.repo_id r = repoId)) repos in
  (λ exp, if decide (id exp = expId) then set_repo (Some repoId) repo exp else exp)
    <$> experiences.

Definition unlinkRepo (expId : jsstring) (experiences : list Experience)
    : list Experience :=
  (λ exp, if decide (id exp = expId) then set_repo None None exp else exp)
    <$> experiences.

Definition toggleRepoSelection (repoId : jsstring) (selectedRepoIds : list jsstring)
    : list jsstring :=
  if bool_decide (repoId ∈ selectedRepoIds)
  then filter (λ id, id ≠ repoId) selectedRepoIds
  else selectedRepoIds ++ [repoId].

Record experience_type : Type := mkType {
  type_value : jsstring;
  type_label : jsstring;
  type_icon : jsstring
}.

Definition EXPERIENCE_TYPES : list experience_type :=
  [ mkType (str "work") (str "Work Experience") [55357; 56508];
    mkType (str "project") (str "Project") [55357; 56960];
    mkType (str "volunteer") (str "Volunteer") [55358; 56605];
    mkType (str "honor") (str "Honor/Award") [55356; 57286] ].

Record experience_group : Type := mkGroup {
  group_type : experience_type;
  group_items : list Experience
}.

Definition groupedExperiences (experiences : list Experience)
    : list experience_group :=
  (λ ty, mkGroup ty (filter (λ exp, type exp = type_value ty) experiences))
    <$> EXPERIENCE_TYPES.

End ExperienceForm.

(** ** ResumeForm: persistence, whole-record validation, navigation *)

Module ResumeForm.
Import ExperienceForm.

Record PersonalInfo : Type := mkPersonalInfo {
  fullName : jsstring;
  email : jsstring;
  phone : jsstring;
  location : jsstring;
  linkedin : jsstring;
  github : jsstring;
  website : jsstring;
  profileImage : jsstring;
  showContactIcons : bool
}.

Record ResumeData : Type := mkResumeData {
  personalInfo : PersonalInfo;
  education : list EducationForm.Education;
  experiences : list Experience;
  selectedRepoIds : list jsstring
}.

Record section : Type := mkSection {
  id : jsstring;
  label : jsstring;
  icon : jsstring
}.

Definition SECTIONS : list section :=
  [ mkSection (str "personal") (str "Personal Info") [55357; 56420];
    mkSection (str "education") (str "Education") [55356; 57235];
    mkSection (str "experience") (str "Experience & Projects") [55357; 56508] ].

Definition section_ids : list jsstring := id <$> SECTIONS.

Definition STORAGE_KEY : jsstring := str "resumeFormData".

(** The two storage tiers of the browser. *)
Record storage : Type := mkStorage {
  sessionStorage : gmap jsstring jsstring;
  localStorage : gmap jsstring jsstring
}.

(** How a block of statements ends. *)
Inductive completion (V : Type) : Type :=
| Returned (v : V)
| Thrown
| Normal.
Arguments Returned {V} v.
Arguments Thrown {V}.
Arguments Normal {V}.

Section Persistence.
Context {V : Type}.
(** [JSON.parse]: [None] when it throws a syntax error. *)
Variable JSON_parse : jsstring → option V.
(** The built-in template, [mockResumeData.json]. *)
Variable mockResumeData : V.

(** [const data = tier.getItem(STORAGE_KEY); if (data) return JSON.parse(data);] *)
Definition read_tier (tier : gmap jsstring jsstring) : completion V :=
  match tier !! STORAGE_KEY with
  | Some data =>
      if truthy data
      then match JSON_parse data with
           | Some v => Returned v
           | None => Thrown
           end
      else Normal
  | None => Normal
  end.

(** The body of the [try] block. *)
Definition load_try (st : storage) : completion V :=
  match read_tier (sessionStorage st) with
  | Normal => read_tier (localStorage st)
  | c => c
  end.

Definition loadSavedFormData (st : storage) : V :=
  match load_try st with
  | Returned v => v
  | Thrown => mockResumeData
  | Normal => mockResumeData
  end.

(** The load contract in the words of the specification: a tier
    yields a record when its value is present and parses; session
    first, then durable, then the template. *)
Definition tier_record (tier : gmap jsstring jsstring) : option V :=
  match tier !! STORAGE_KEY with
  | Some data => JSON_parse data
  | None => None
  end.

Definition load_by_tiers (st : storage) : V :=
  match tier_record (sessionStorage st) with
  | Some v => v
  | None =>
      match tier_record (localStorage st) with
      | Some v => v
      | None => mockResumeData
      end
  end.
End Persistence.

Section Saving.
Context {V : Type}.
(** [JSON.stringify] on form records. *)
Variable JSON_stringify : V → jsstring.

(** The auto-save effect: [sessionStorage.setItem(STORAGE_KEY,
    JSON.stringify(formData))] inside [try]; [accepted] tells whether the
    session store takes the write.  When it does not, [setItem] throws
    and the effect only logs. *)
Definition save (accepted : bool) (formData : V) (st : storage) : storage :=
  if accepted
  then mkStorage (<[STORAGE_KEY := JSON_stringify formData]> (sessionStorage st))
         (localStorage st)
  else st.
End Saving.

(** JSON values, as far as the examples below need them. *)
#[local] Unset Elimination Schemes.
Inductive json : Type :=
| JNull
| JObject (members : list (jsstring * json)).
#[local] Set Elimination Schemes.

(** A parser for examples: it accepts the one text [text], as the value
    [v], and reports a syntax error on every other text. *)
Definition parse_only {V : Type} (text : jsstring) (v : V) : jsstring → option V :=
  λ s, if decide (s = text) then Some v else None.

(** A template for examples. *)
Definition sample_template : json :=
  JObject [(str "personalInfo", JObject []); (str "education", JNull)].

(** Orchestrator state; [submitted] stands for the calls made to the
    [onSubmit] property, oldest first. *)
Record state : Type := mkState {
  currentSection : jsstring;
  formData : ResumeData;
  errors : gmap jsstring jsstring;
  submitted : list ResumeData
}.

Definition initial (saved : ResumeData) : state :=
  mkState (str "personal") saved ∅ [].

(** [!s || !s.trim()] *)
Definition blank (s : jsstring) : bool :=
  negb (truthy s) || negb (truthy (trim s)).

Definition incomplete_education (edu : EducationForm.Education) : bool :=
  negb (truthy (EducationForm.institution edu))
  || negb (truthy (EducationForm.degree edu))
  || negb (truthy (EducationForm.field edu))
  || negb (truthy (EducationForm.startDate edu))
  || negb (truthy (EducationForm.endDate edu)).

Definition incomplete_experience (exp : Experience) : bool :=
  negb (truthy (title exp)) || negb (truthy (organization exp))
  || negb (truthy (startDate exp)) || negb (truthy (endDate exp)).

Definition validateFormData (data : ResumeData) : gmap jsstring jsstring :=
  let errors : gmap jsstring jsstring := ∅ in
  let errors :=
    if blank (fullName (personalInfo data))
    then <[str "fullName" := str "Full name is required"]> errors
    else errors in
  let errors :=
    if blank (email (personalInfo data))
    then <[str "email" := str "Email is required"]> errors
    else errors in
  let incompleteEducation := existsb incomplete_education (education data) in
  let errors :=
    if (0 <? length (education data))%nat && incompleteEducation
    then <[str "education" :=
             str "Please complete all education entries or remove incomplete ones"]> errors
    else errors in
  let incompleteExperiences :=
    existsb incomplete_experience (base.filter (λ exp, unlinked exp = true) (experiences data)) in
  let errors :=
    if incompleteExperiences
    then <[str "experiences" :=
             str "Please complete all experience entries (title, organization, dates) or remove incomplete ones"]> errors
    else errors in
  let errors :=
    if (length (selectedRepoIds data) =? 0)%nat
       && (length (base.filter (λ exp, unlinked exp = true) (experiences data)) =? 0)%nat
    then <[str "content" :=
             str "Please select at least one GitHub repository or add a manual experience entry"]> errors
    else errors in
  errors.

Definition handleSubmit (st : state) : state :=
  let validationErrors := validateFormData (formData st) in
  if (0 <? size validationErrors)%nat
  then mkState (currentSection st) (formData st) validationErrors (submitted st)
  else mkState (currentSection st) (formData st) ∅ (submitted st ++ [formData st]).

(** [updateExperiences], the callback handed to the experience form. *)
Definition updateExperiences (updated : list Experience) (st : state) : state :=
  mkState (currentSection st)
    (mkResumeData (personalInfo (formData st)) (education (formData st))
       updated (selectedRepoIds (formData st)))
    (errors st) (submitted st).

(** [Array.prototype.findIndex] *)
Fixpoint findIndex_from {A : Type} (p : A → bool) (i : Z) (l : list A) : Z :=
  match l with
  | [] => (-1)%Z
  | x :: rest => if p x then i else findIndex_from p (i + 1)%Z rest
  end.

Definition getCurrentSectionIndex (st : state) : Z :=
  findIndex_from (λ s, bool_decide (id s = currentSection st)) 0%Z SECTIONS.

Definition setCurrentSection (sid : jsstring) (st : state) : state :=
  mkState sid (formData st) (errors st) (submitted st).

(** [SECTIONS[i].id]; reading [id] of a missing element would throw. *)
Definition section_id_at (i : Z) : option jsstring :=
  if (i <? 0)%Z then None else id <$> SECTIONS !! Z.to_nat i.

Definition goToNextSection (st : state) : option state :=
  let currentIndex := getCurrentSectionIndex st in
  if (currentIndex <? Z.of_nat (length SECTIONS) - 1)%Z
  then (λ sid, setCurrentSection sid st) <$> section_id_at (currentIndex + 1)
  else Some st.

Definition goToPrevSection (st : state) : option state :=
  let currentIndex := getCurrentSectionIndex st in
  if (0 <? currentIndex)%Z
  then (λ sid, setCurrentSection sid st) <$> section_id_at (currentIndex - 1)
  else Some st.

(** The navigation controls: the two buttons and the tab strip, which
    renders one tab for every element of [SECTIONS]. *)
Inductive control : Type :=
| next
| previous
| jump (tab : nat).

Definition press (c : control) (st : state) : option state :=
  match c with
  | next => goToNextSection st
  | previous => goToPrevSection st
  | jump tab =>
      match SECTIONS !! tab with
      | Some s => Some (setCurrentSection (id s) st)
      | None => Some st
      end
  end.

Fixpoint press_all (cs : list control) (st : state) : option state :=
  match cs with
  | [] => Some st
  | c :: rest =>
      match press c st with
      | Some st' => press_all rest st'
      | None => None
      end
  end.

(** The text properties of the personal section. *)
Inductive text_field : Type :=
| FullName | Email | Phone | PersonalLocation | Linkedin | Github | Website
| ProfileImage.

(** A call of the [onChange] property of the personal section:
    [onChange(field, value)] with a text, or with the flag of the
    contact icons. *)
Inductive personal_update : Type :=
| SetText (f : text_field) (v : jsstring)
| SetShowContactIcons (b : bool).

Definition get_text (f : text_field) (p : PersonalInfo) : jsstring :=
  match f with
  | FullName => fullName p
  | Email => email p
  | Phone => phone p
  | PersonalLocation => location p
  | Linkedin => linkedin p
  | Github => github p
  | Website => website p
  | ProfileImage => profileImage p
  end.

(** [{ ...prev.personalInfo, [field]: value }] *)
Definition set_personal (u : personal_update) (p : PersonalInfo) : PersonalInfo :=
  match u with
  | SetText FullName v =>
      mkPersonalInfo v (email p) (phone p) (location p) (linkedin p) (github p)
        (website p) (profileImage p) (showContactIcons p)
  | SetText Email v =>
      mkPersonalInfo (fullName p) v (phone p) (location p) (linkedin p) (github p)
        (website p) (profileImage p) (showContactIcons p)
  | SetText Phone v =>
      mkPersonalInfo (fullName p) (email p) v (location p) (linkedin p) (github p)
        (website p) (profileImage p) (showContactIcons p)
  | SetText PersonalLocation v =>
      mkPersonalInfo (fullName p) (email p) (phone p) v (linkedin p) (github p)
        (website p) (profileImage p) (showContactIcons p)
  | SetText Linkedin v =>
      mkPersonalInfo (fullName p) (email p) (phone p) (location p) v (github p)
        (website p) (profileImage p) (showContactIcons p)
  | SetText Github v =>
      mkPersonalInfo (fullName p) (email p) (phone p) (location p) (linkedin p) v
        (website p) (profileImage p) (showContactIcons p)
  | SetText Website v =>
      mkPersonalInfo (fullName p) (email p) (phone p) (location p) (linkedin p)
        (github p) v (profileImage p) (showContactIcons p)
  | SetText ProfileImage v =>
      mkPersonalInfo (fullName p) (email p) (phone p) (location p) (linkedin p)
        (github p) (website p) v (showContactIcons p)
  | SetShowContactIcons b =>
      mkPersonalInfo (fullName p) (email p) (phone p) (location p) (linkedin p)
        (github p) (website p) (profileImage p) b
  end.

Definition updatePersonalInfo (u : personal_update) (st : state) : state :=
  mkState (currentSection st)
    (mkResumeData (set_personal u (personalInfo (formData st)))
       (education (formData st)) (experiences (formData st))
       (selectedRepoIds (formData st)))
    (errors st) (submitted st).

Definition updateEducation (updated : list EducationForm.Education) (st : state)
    : state :=
  mkState (currentSection st)
    (mkResumeData (personalInfo (formData st)) updated
       (experiences (formData st)) (selectedRepoIds (formData st)))
    (errors st) (submitted st).

Definition updateSelectedRepos (repoIds : list jsstring) (st : state) : state :=
  mkState (currentSection st)
    (mkResumeData (personalInfo (formData st)) (education (formData st))
       (experiences (formData st)) repoIds)
    (errors st) (submitted st).

(** The record passes every check of [validateFormData], in the words of
    the checks. *)
Definition submittable (d : ResumeData) : Prop :=
  trim (fullName (personalInfo d)) ≠ [] ∧
  trim (email (personalInfo d)) ≠ [] ∧
  Forall (λ edu, EducationForm.institution edu ≠ [] ∧ EducationForm.degree edu ≠ []
                 ∧ EducationForm.field edu ≠ [] ∧ EducationForm.startDate edu ≠ []
                 ∧ EducationForm.endDate edu ≠ []) (education d) ∧
  Forall (λ exp, unlinked exp = true →
                 title exp ≠ [] ∧ organization exp ≠ []
                 ∧ startDate exp ≠ [] ∧ endDate exp ≠ []) (experiences d) ∧
  (selectedRepoIds d ≠ [] ∨ Exists (λ exp, unlinked exp = true) (experiences d)).

End ResumeForm.

(** ** PersonalInfoForm *)

Module PersonalInfoForm.

(** Component state besides the [data] property. *)
Record state : Type := mkState {
  imagePreview : option jsstring;
  imageError : jsstring
}.

(** [handleChange]: the call it makes to [onChange]. *)
Definition handleChange (f : ResumeForm.text_field) (value : jsstring)
    : ResumeForm.personal_update :=
  ResumeForm.SetText f (ResumeTypes.sanitizeString value).

(** [handleImageUpload]: [file] is [e.target.files[0]], [converted] the
    outcome of [imageToBase64] ([None] when the promise is rejected).  The
    result is the new component state and the calls made to [onChange]. *)
Definition handleImageUpload (file : option ResumeTypes.File)
    (converted : option jsstring) (st : state)
    : state * list ResumeForm.personal_update :=
  match file with
  | None => (st, [])
  | Some f =>
      let validation := ResumeTypes.validateImageFile (Some f) in
      if negb (ResumeTypes.valid validation)
      then (mkState (imagePreview st) (default [] (ResumeTypes.error validation)), [])
      else match converted with
           | Some base64 =>
               (mkState (Some base64) [],
                [ResumeForm.SetText ResumeForm.ProfileImage base64])
           | None => (mkState (imagePreview st) (str "Failed to process image"), [])
           end
  end.

End PersonalInfoForm.

(** ** RepoSelector and SkillSelector *)

Module RepoSelector.

Definition handleToggleRepo (repoId : jsstring) (selectedRepos : list jsstring)
    : list jsstring :=
  if bool_decide (repoId ∈ selectedRepos)
  then filter (λ id, id ≠ repoId) selectedRepos
  else selectedRepos ++ [repoId].

End RepoSelector.

Module SkillSelector.

Definition handleToggle (skill : jsstring) (selectedSkills : list jsstring)
    : list jsstring :=
  if bool_decide (skill ∈ selectedSkills)
  then filter (λ s, s ≠ skill) selectedSkills
  else selectedSkills ++ [skill].

End SkillSelector.

(** ** ThemeContext *)

Module ThemeContext.

(** The initial value of [isDark], read from the durable store. *)
Definition initial_isDark (localStorage : gmap jsstring jsstring) : bool :=
  match localStorage !! str "theme" with
  | Some saved => if truthy saved then bool_decide (saved = str "dark") else true
  | None => true
  end.

(** The effect that stores the theme whenever [isDark] changes, on a
    store that takes the write. *)
Definition store_theme (isDark : bool) (localStorage : gmap jsstring jsstring)
    : gmap jsstring jsstring :=
  <[str "theme" := if isDark then str "dark" else str "light"]> localStorage.

Definition toggleTheme (isDark : bool) : bool := negb isDark.

End ThemeContext.

(** ** resumeService: preparing the submission *)

Module ResumeService.

(** A processed repository as [prepareResumeData] reads it: the fields
    of the enhanced repository and those forwarded as they are. *)
Record repository : Type := mkRepository {
  enhanced : GithubService.repo;
  description : option jsstring;
  private : bool;
  readmeContent : option jsstring;
  html_url : jsstring;
  stargazers_count : N;
  forks_count : N
}.

Record PreparedEducation : Type := mkPreparedEducation {
  institution : jsstring;
  degree : jsstring;
  field : jsstring;
  startDate : jsstring;
  endDate : jsstring;
  gpa : jsstring;
  achievements : list jsstring
}.

Record PreparedExperience : Type := mkPreparedExperience {
  type : jsstring;
  title : jsstring;
  organization : jsstring;
  location : jsstring;
  exp_startDate : jsstring;
  exp_endDate : jsstring;
  exp_description : jsstring;
  technologies : list jsstring;
  repoId : option jsstring
}.

Record PreparedRepo : Type := mkPreparedRepo {
  id : jsstring;
  name : jsstring;
  repo_description : option jsstring;
  repo_private : bool;
  topics : list jsstring;
  languages : list jsstring;
  repo_readmeContent : jsstring;
  generatedTags : list jsstring;
  url : jsstring;
  stars : N;
  forks : N
}.

Record Metadata : Type := mkMetadata {
  generatedAt : jsstring;
  version : jsstring
}.

Record Prepared : Type := mkPrepared {
  personalInfo : ResumeForm.PersonalInfo;
  education : list PreparedEducation;
  experiences : list PreparedExperience;
  githubRepos : list PreparedRepo;
  metadata : Metadata
}.

Definition prepare_education (edu : EducationForm.Education) : PreparedEducation :=
  mkPreparedEducation (EducationForm.institution edu) (EducationForm.degree edu)
    (EducationForm.field edu) (EducationForm.startDate edu)
    (EducationForm.endDate edu) (EducationForm.gpa edu)
    (filter (λ a, trim a ≠ []) (EducationForm.achievements edu)).

Definition prepare_experience (exp : ExperienceForm.Experience)
    : PreparedExperience :=
  mkPreparedExperience (ExperienceForm.type exp) (ExperienceForm.title exp)
    (ExperienceForm.organization exp) (ExperienceForm.location exp)
    (ExperienceForm.startDate exp) (ExperienceForm.endDate exp)
    (ExperienceForm.description exp) (ExperienceForm.technologies exp)
    (ExperienceForm.repoId exp).

(** [x || ''] on a text that may be missing. *)
Definition text_or_empty (x : option jsstring) : jsstring := default [] x.

Definition prepare_repo (repo : repository) : PreparedRepo :=
  mkPreparedRepo (GithubService.repo_id (enhanced repo))
    (GithubService.repo_name (enhanced repo))
    (description repo) (private repo)
    (default [] (GithubService.topics (enhanced repo)))
    (default [] (GithubService.languages (enhanced repo)))
    (text_or_empty (readmeContent repo))
    (default [] (GithubService.generatedTags (enhanced repo)))
    (html_url repo) (stargazers_count repo) (forks_count repo).

(** [now] is the text of [new Date().toISOString()]. *)
Definition prepareResumeData (now : jsstring) (formData : ResumeForm.ResumeData)
    (allRepos : list repository) : Prepared :=
  let selectedRepos :=
    filter (λ repo, GithubService.repo_id (enhanced repo)
                      ∈ ResumeForm.selectedRepoIds formData) allRepos in
  mkPrepared
    (ResumeForm.mkPersonalInfo
       (ResumeForm.fullName (ResumeForm.personalInfo formData))
       (ResumeForm.email (ResumeForm.personalInfo formData))
       (ResumeForm.phone (ResumeForm.personalInfo formData))
       (ResumeForm.location (ResumeForm.personalInfo formData))
       (ResumeForm.linkedin (ResumeForm.personalInfo formData))
       (ResumeForm.github (ResumeForm.personalInfo formData))
       (ResumeForm.website (ResumeForm.personalInfo formData))
       (ResumeForm.profileImage (ResumeForm.personalInfo formData))
       (ResumeForm.showContactIcons (ResumeForm.personalInfo formData)))
    (prepare_education <$> ResumeForm.education formData)
    (prepare_experience <$> ResumeForm.experiences formData)
    (prepare_repo <$> selectedRepos)
    (mkMetadata now (str "1.0")).

Section Drafts.
Context {V : Type}.
Variable JSON_parse : jsstring → option V.
Variable JSON_stringify : V → jsstring.

(** [saveDraft] with [USE_MOCK_DATA] set, as the configuration has it:
    [localStorage.setItem('resumeDraft', JSON.stringify(resumeData))].
    [accepted] tells whether the durable store takes the write; when it
    does not, the promise is rejected ([None]). *)
Definition saveDraft (accepted : bool) (resumeData : V) (st : ResumeForm.storage)
    : option ResumeForm.storage :=
  if accepted
  then Some (ResumeForm.mkStorage (ResumeForm.sessionStorage st)
               (<[str "resumeDraft" := JSON_stringify resumeData]>
                  (ResumeForm.localStorage st)))
  else None.

(** [loadDraft] with [USE_MOCK_DATA] set: [draft ? JSON.parse(draft) : null].
    [None] stands for a rejected promise (the draft does not parse),
    [Some None] for [null]. *)
Definition loadDraft (st : ResumeForm.storage) : option (option V) :=
  match ResumeForm.localStorage st !! str "resumeDraft" with
  | Some draft => if truthy draft then Some <$> JSON_parse draft else Some None
  | None => Some None
  end.
End Drafts.

End ResumeService.

(** ** Sample records *)

Module Samples.

Definition education : EducationForm.Education :=
  EducationForm.mkEducation (str "edu1") (str "Stanford University")
    (str "Bachelor of Science") (str "Computer Science")
    (str "2018-09") (str "2022-06") (str "3.8/4.0") [].

Definition experience : ExperienceForm.Experience :=
  ExperienceForm.mkExperience (str "exp1") (str "work") (str "Engineer")
    (str "Acme") [] (str "2022-07") (str "Present") [] [] None None.

Definition nobody : ResumeForm.PersonalInfo :=
  ResumeForm.mkPersonalInfo (str "  ") (str "ada@example.org") [] [] [] [] [] [] false.

(** A record whose only defect is the blank full name. *)
Definition unnamed : ResumeForm.state :=
  ResumeForm.mkState (str "experience")
    (ResumeForm.mkResumeData nobody [education] [experience] [])
    ∅ [].

(** A record with no repository selected and no experience entry. *)
Definition contentless : ResumeForm.state :=
  ResumeForm.mkState (str "experience")
    (ResumeForm.mkResumeData nobody [education] [] [])
    ∅ [].

End Samples.

(** ** Section models behind one interface *)

Module SectionModel.

(** What the specification calls a Section Model: a list of entries
    addressed by id, an [update] operation and the field-keyed error
    map the model keeps. *)
Class model (Entry Field State : Type) : Type := {
  field_key : Field → jsstring;
  entry_id : Entry → jsstring;
  read : Field → Entry → jsstring;
  is_date : Field → bool;
  update : jsstring → Field → jsstring → list Entry → State → list Entry * State;
  field_errors : State → gmap jsstring jsstring
}.

Global Instance education_model :
  model EducationForm.Education EducationForm.field_name EducationForm.state := {
  field_key := EducationForm.field_key;
  entry_id := EducationForm.id;
  read := EducationForm.get_field;
  is_date f := bool_decide (f = EducationForm.StartDate)
               || bool_decide (f = EducationForm.EndDate);
  update := EducationForm.updateEducation;
  field_errors := EducationForm.validationErrors
}.

(** The experience form holds no error map of its own. *)
Global Instance experience_model :
  model ExperienceForm.Experience ExperienceForm.field_name ExperienceForm.state := {
  field_key := ExperienceForm.field_key;
  entry_id := ExperienceForm.id;
  read := ExperienceForm.get_field;
  is_date f := bool_decide (f = ExperienceForm.StartDate)
               || bool_decide (f = ExperienceForm.EndDate);
  update id0 f v data st := (ExperienceForm.updateExperience id0 f v data, st);
  field_errors _ := ∅
}.

(** The update contract as the specification words it for every
    section model: a date value outside the date grammar is recorded
    under the field's key. *)
Definition records_invalid_dates `{model Entry Field State} : Prop :=
  ∀ id0 (f : Field) value data (st : State),
    is_date f = true → value ≠ [] → ResumeTypes.validateDate value = false →
    is_Some (field_errors (update id0 f value data st).2 !! (id0 ++ str "-" ++ field_key f)).

End SectionModel.

(* ===================================================================== *)
(** * Part II: properties                                                 *)
(* ===================================================================== *)

(** Replace every literal code unit by its number. *)
Ltac char_codes :=
  unfold chr in *;
  repeat match goal with
         | |- context [N_of_ascii ?a] =>
             let v := eval vm_compute in (N_of_ascii a) in
             change (N_of_ascii a) with v
         | H : context [N_of_ascii ?a] |- _ =>
             let v := eval vm_compute in (N_of_ascii a) in
             change (N_of_ascii a) with v in H
         end.

Section RegExpFacts.
Import RegExp.

Lemma matches_reads r : ∀ x y, matches r x y → ∃ w, reads x w y.
Proof.
  induction r; simpl; intros x y H.
  - subst. exists []. by split.
  - destruct H as (c & rest & Hr & _ & ->). exists [c]. split; simpl; done.
  - destruct H as (m & H1 & H2).
    destruct (IHr1 _ _ H1) as (w1 & Ha & Hb).
    destruct (IHr2 _ _ H2) as (w2 & Hc & Hd).
    exists (w1 ++ w2). split.
    + by rewrite Ha, Hc, app_assoc.
    + by rewrite Hd, Hb, rev_app_distr, app_assoc.
  - destruct H as [H|H]; eauto.
  - induction H as [x|x y z Hxy _ _ (w2 & Hc & Hd)].
    + exists []. by split.
    + destruct (IHr _ _ Hxy) as (w1 & Ha & Hb).
      exists (w1 ++ w2). split.
      * by rewrite Ha, Hc, app_assoc.
      * by rewrite Hd, Hb, rev_app_distr, app_assoc.
  - destruct H as (m & H1 & ->).
    destruct (IHr _ _ H1) as (w & Ha & Hb). exists w. by split.
  - destruct H as [-> _]. exists []. by split.
  - destruct H as [-> _]. exists []. by split.
  - destruct H as [-> _]. exists []. by split.
  - destruct H as [-> _]. exists []. by split.
Qed.

Lemma star_loop_spec (body : mstate → (mstate → option mstate) → option mstate)
    (R : mstate → mstate → Prop) :
  (∀ x k z, body x k = Some z → ∃ y, R x y ∧ k y = Some z) →
  (∀ x k, body x k = None → ∀ y, R x y → k y = None) →
  ∀ k n x, (length (remaining x) ≤ n)%nat →
    (∀ z, star_loop body k n x = Some z → ∃ y, iterate R x y ∧ k y = Some z) ∧
    (star_loop body k n x = None → ∀ y, iterate R x y → k y = None).
Proof.
  intros Hs Hc k n. induction n as [|n IH]; intros x Hlen; simpl.
  - split.
    + intros z Hz. exists x. split; [constructor | done].
    + intros Hk y Hy. destruct Hy as [x|x y z _ Hsh _]; [done|].
      unfold shorter in Hsh. apply Nat.ltb_lt in Hsh. lia.
  - destruct (body x _) as [z'|] eqn:Hb.
    + split; [|done]. intros z [= <-].
      destruct (Hs _ _ _ Hb) as (y & Hxy & Hk).
      destruct (shorter y x) eqn:Hsh; [|done].
      assert (length (remaining y) ≤ n)%nat as Hy
        by (unfold shorter in Hsh; apply Nat.ltb_lt in Hsh; lia).
      destruct (IH y Hy) as [IHs _].
      destruct (IHs _ Hk) as (y' & Hit & Hk').
      exists y'. split; [by eapply iterate_step | done].
    + split.
      * intros z Hz. exists x. split; [constructor | done].
      * intros Hk y Hy. destruct Hy as [x|x y z Hxy Hsh Hit]; [done|].
        pose proof (Hc _ _ Hb _ Hxy) as Hn. simpl in Hn. rewrite Hsh in Hn.
        assert (length (remaining y) ≤ n)%nat as Hy
          by (unfold shorter in Hsh; apply Nat.ltb_lt in Hsh; lia).
        destruct (IH y Hy) as [_ IHc]. by apply IHc.
Qed.

(** The matcher returns what the continuation returns at the first
    reachable state (in backtracking order) it accepts, and fails only
    when the continuation rejects every reachable state. *)
Lemma run_spec r :
  ∀ x k,
    (∀ z, run r x k = Some z → ∃ y, matches r x y ∧ k y = Some z) ∧
    (run r x k = None → ∀ y, matches r x y → k y = None).
Proof.
  induction r; intros x k; simpl.
  - split; [eauto | by intros ? ? ->].
  - destruct (remaining x) as [|c rest] eqn:Hr.
    + split; [done|]. by intros _ y (c & rest & ? & _).
    + destruct (p c) eqn:Hp.
      * split; [intros z Hz; eexists; split; [|exact Hz]; eauto |].
        intros Hk y (c' & rest' & [= <- <-] & _ & ->). done.
      * split; [done|]. intros _ y (c' & rest' & [= <- <-] & Hp' & _).
        congruence.
  - split.
    + intros z Hz. destruct (IHr1 x (λ y, run r2 y k)) as [Hs _].
      destruct (Hs _ Hz) as (m & Hm & Hz').
      destruct (IHr2 m k) as [Hs2 _].
      destruct (Hs2 _ Hz') as (y & Hy & Hk). eauto.
    + intros Hn y (m & H1 & H2).
      destruct (IHr1 x (λ y, run r2 y k)) as [_ Hc].
      pose proof (Hc Hn _ H1) as Hn'. simpl in Hn'.
      destruct (IHr2 m k) as [_ Hc2]. by apply Hc2.
  - destruct (run r1 x k) as [z'|] eqn:H1.
    + split; [|done]. intros z [= <-].
      destruct (IHr1 x k) as [Hs _]. destruct (Hs _ H1) as (y & ? & ?). eauto.
    + split.
      * intros z Hz. destruct (IHr2 x k) as [Hs _].
        destruct (Hs _ Hz) as (y & ? & ?). eauto.
      * intros Hn y [Hy|Hy].
        -- destruct (IHr1 x k) as [_ Hc]. by apply Hc.
        -- destruct (IHr2 x k) as [_ Hc]. by apply Hc.
  - apply (star_loop_spec (run r) (matches r)); [| |done].
    + intros x' k' z. apply IHr.
    + intros x' k'. apply IHr.
  - split.
    + intros z Hz. destruct (IHr x (λ y, k (capture i x y))) as [Hs _].
      destruct (Hs _ Hz) as (m & ? & ?). eauto.
    + intros Hn y (m & Hm & ->).
      destruct (IHr x (λ y, k (capture i x y))) as [_ Hc].
      by apply (Hc Hn _ Hm).
  - destruct (run r x Some) as [z'|] eqn:H1.
    + split; [done|]. intros _ y [-> Hno].
      destruct (IHr x Some) as [Hs _].
      destruct (Hs _ H1) as (m & Hm & _). by destruct (Hno m).
    + split.
      * intros z Hz. exists x. split; [|done]. split; [done|].
        intros m Hm. destruct (IHr x Some) as [_ Hc].
        by pose proof (Hc H1 _ Hm).
      * by intros Hk y [-> _].
  - destruct (xorb _ _) eqn:Hx.
    + split; [eauto | by intros ? ? [-> _]].
    + split; [done|]. intros _ y [_ ?]. congruence.
  - destruct (consumed x) eqn:Hx.
    + split; [eauto | by intros ? ? [-> _]].
    + split; [done | by intros _ y [_ ?]].
  - destruct (remaining x) eqn:Hx.
    + split; [eauto | by intros ? ? [-> _]].
    + split; [done | by intros _ y [_ ?]].
Qed.

Lemma exec_at_Some r pre post z :
  exec_at r pre post = Some z → matches r (MState pre post ∅) z.
Proof.
  intros H. destruct (run_spec r (MState pre post ∅) Some) as [Hs _].
  destruct (Hs _ H) as (y & Hy & [= ->]). done.
Qed.

Lemma exec_at_None r pre post :
  exec_at r pre post = None → ∀ y, ¬ matches r (MState pre post ∅) y.
Proof.
  intros H y Hy. destruct (run_spec r (MState pre post ∅) Some) as [_ Hc].
  by pose proof (Hc H _ Hy).
Qed.

Lemma exec_at_is_Some r pre post y :
  matches r (MState pre post ∅) y → is_Some (exec_at r pre post).
Proof.
  intros Hy. destruct (exec_at r pre post) eqn:H; [eauto|].
  by destruct (exec_at_None _ _ _ H y).
Qed.

End RegExpFacts.

(** ** Strings *)

Section StringFacts.

Lemma trimStart_spaces s :
  trimStart s = [] ↔ Forall (λ c, is_space c = true) s.
Proof.
  induction s as [|c s IH]; simpl; [done|].
  destruct (is_space c) eqn:Hc.
  - rewrite IH. split; [by constructor | by inversion 1].
  - split; [done | inversion 1; congruence].
Qed.

Lemma trimStart_suffix s : ∃ a, s = a ++ trimStart s.
Proof.
  induction s as [|c s [a IH]]; simpl; [by exists []|].
  destruct (is_space c).
  - exists (c :: a). simpl. by f_equal.
  - by exists [].
Qed.

Lemma trimStart_head s c rest : trimStart s = c :: rest → is_space c = false.
Proof.
  induction s as [|d s IH]; simpl; [done|].
  destruct (is_space d) eqn:Hd; [done | by intros [= -> _]].
Qed.

Lemma trimStart_fixed c rest :
  is_space c = false → trimStart (c :: rest) = c :: rest.
Proof. intros H. simpl. by rewrite H. Qed.

Lemma trimStart_idem s : trimStart (trimStart s) = trimStart s.
Proof.
  destruct (trimStart s) as [|c rest] eqn:H; [done|].
  apply trimStart_fixed. by eapply trimStart_head.
Qed.

Lemma trimEnd_prefix s : ∃ b, s = trimEnd s ++ b.
Proof.
  unfold trimEnd. destruct (trimStart_suffix (rev s)) as [a Ha].
  exists (rev a). rewrite <- rev_app_distr, <- Ha. by rewrite rev_involutive.
Qed.

Lemma trimEnd_idem s : trimEnd (trimEnd s) = trimEnd s.
Proof. unfold trimEnd. by rewrite rev_involutive, trimStart_idem. Qed.

Lemma trim_substring s : ∃ a b, s = a ++ trim s ++ b.
Proof.
  unfold trim. destruct (trimStart_suffix s) as [a Ha].
  destruct (trimEnd_prefix (trimStart s)) as [b Hb].
  exists a, b. by rewrite <- Hb.
Qed.

Lemma trim_idem s : trim (trim s) = trim s.
Proof.
  unfold trim.
  assert (trimStart (trimEnd (trimStart s)) = trimEnd (trimStart s)) as ->;
    [|apply trimEnd_idem].
  destruct (trimStart s) as [|c rest] eqn:Hs; [done|].
  destruct (trimEnd_prefix (c :: rest)) as [b Hb].
  destruct (trimEnd (c :: rest)) as [|c' rest'] eqn:He; [done|].
  injection Hb as <- _. apply trimStart_fixed. by eapply trimStart_head.
Qed.

Lemma trim_empty s : trim s = [] ↔ Forall (λ c, is_space c = true) s.
Proof.
  unfold trim, trimEnd. split.
  - intros H. apply trimStart_spaces.
    destruct (trimStart s) as [|c rest] eqn:Hs; [done|]. exfalso.
    apply (f_equal (@rev _)) in H. rewrite rev_involutive in H.
    change (rev (@nil char)) with (@nil char) in H.
    apply trimStart_spaces in H. apply Forall_rev in H.
    rewrite rev_involutive in H. inversion H as [|? ? Hc _]; subst.
    apply trimStart_head in Hs. congruence.
  - intros H. apply trimStart_spaces in H. by rewrite H.
Qed.

Lemma str_app a b : str (a ++ b)%string = str a ++ str b.
Proof. induction a as [|c a IH]; simpl; [done | by rewrite IH]. Qed.

End StringFacts.

(** ** Searching and removing matches *)

Section SearchFacts.
Import RegExp.

Lemma search_Some r : ∀ post pre z,
  search r pre post = Some z →
  ∃ w post', post = w ++ post' ∧ matches r (MState (rev w ++ pre) post' ∅) z.
Proof.
  induction post as [|c rest IH]; intros pre z; simpl.
  - destruct (exec_at r pre []) eqn:He; [|done]. intros [= ->].
    exists [], []. split; [done|]. by apply exec_at_Some.
  - destruct (exec_at r pre (c :: rest)) eqn:He.
    + intros [= ->]. exists [], (c :: rest). split; [done|]. by apply exec_at_Some.
    + intros H. destruct (IH _ _ H) as (w & post' & -> & Hm).
      exists (c :: w), post'. split; [done|]. simpl. by rewrite <- app_assoc.
Qed.

Lemma search_None r : ∀ post pre,
  search r pre post = None →
  ∀ w post' z, post = w ++ post' → ¬ matches r (MState (rev w ++ pre) post' ∅) z.
Proof.
  induction post as [|c rest IH]; intros pre; simpl.
  - destruct (exec_at r pre []) eqn:He; [done|]. intros _ w post' z Hw.
    symmetry in Hw. apply app_eq_nil in Hw as [-> ->]. by apply exec_at_None.
  - destruct (exec_at r pre (c :: rest)) eqn:He; [done|].
    intros H w post' z Hw. destruct w as [|c' w]; simpl in *.
    + subst. by apply exec_at_None.
    + injection Hw as <- ->. rewrite <- app_assoc. simpl. by eapply IH.
Qed.

(** A pattern anchored at the start of the input matches at offset 0 or
    not at all. *)
Lemma search_anchored r s :
  is_Some (search (Seq InputStart r) [] s) ↔
  ∃ z, matches r (MState [] s ∅) z.
Proof.
  split.
  - intros [z Hz]. apply search_Some in Hz as (w & post' & -> & Hm).
    simpl in Hm. destruct Hm as (m & [-> Hnil] & Hm). simpl in Hnil.
    rewrite app_nil_r in Hnil.
    assert (w = []) as -> by (by destruct w using rev_ind;
      [|rewrite rev_app_distr in Hnil]).
    eauto.
  - intros [z Hz]. destruct (search _ _ _) eqn:Hs; [eauto|].
    exfalso. eapply (search_None _ _ _ Hs [] s z); [done|].
    simpl. exists (MState [] s ∅). split; [by split | done].
Qed.

Lemma search_anchored_Some r s z :
  search (Seq InputStart r) [] s = Some z → matches r (MState [] s ∅) z.
Proof.
  intros Hz. apply search_Some in Hz as (w & post' & -> & Hm).
  simpl in Hm. destruct Hm as (m & [-> Hnil] & Hm). simpl in Hnil.
  rewrite app_nil_r in Hnil.
  assert (w = []) as -> by (by destruct w using rev_ind;
    [|rewrite rev_app_distr in Hnil]).
  done.
Qed.

(** Runs of one character class. *)
Lemma iterate_char_reads p x y :
  iterate (matches (Char p)) x y →
  ∃ w, Forall (λ c, p c = true) w ∧ reads x w y ∧ captures y = captures x.
Proof.
  induction 1 as [x|x y z Hxy _ _ (w & Hw & [Ha Hb] & Hc)].
  - exists []. by repeat split.
  - destruct Hxy as (c & rest & Hr & Hp & ->). simpl in *.
    exists (c :: w). repeat split; simpl.
    + by constructor.
    + by rewrite Hr, Ha.
    + by rewrite Hb, <- app_assoc.
    + done.
Qed.

Lemma iterate_char_intro p w : ∀ pre rest caps,
  Forall (λ c, p c = true) w →
  iterate (matches (Char p)) (MState pre (w ++ rest) caps)
    (MState (rev w ++ pre) rest caps).
Proof.
  induction w as [|c w IH]; intros pre rest caps Hw; simpl.
  - constructor.
  - inversion Hw as [|? ? Hc Hw']; subst.
    eapply iterate_step with (y := MState (c :: pre) (w ++ rest) caps).
    + simpl. eauto 6.
    + unfold shorter. simpl. apply Nat.ltb_lt. lia.
    + rewrite <- app_assoc. simpl. by apply IH.
Qed.

(** Whatever the pattern, a global removal only deletes code units. *)
Lemma remove_all_from_sublist r : ∀ n pre post,
  sublist (remove_all_from n r pre post) post.
Proof.
  induction n as [|n IH]; intros pre post; simpl; [done|].
  assert (sublist match post with
                  | [] => []
                  | c :: rest => c :: remove_all_from n r (c :: pre) rest
                  end post) as Hkeep.
  { destruct post; [done|]. by apply sublist_skip. }
  destruct (exec_at r pre post) as [z|] eqn:He; [|done].
  destruct (_ <? _)%nat; [|done].
  apply exec_at_Some, matches_reads in He as (w & Hw & _). simpl in Hw.
  rewrite Hw. apply sublist_inserts_l, IH.
Qed.

(** Where the pattern matches nowhere, removal changes nothing. *)
Lemma remove_all_from_id r (free : jsstring → Prop) :
  (∀ c rest, free (c :: rest) → free rest) →
  (∀ pre post, free post → exec_at r pre post = None) →
  ∀ post n pre, free post → remove_all_from n r pre post = post.
Proof.
  intros Htl Hno. induction post as [|c rest IH]; intros [|n] pre Hf; simpl;
    try done; rewrite (Hno _ _ Hf); [done|].
  f_equal. apply IH. by eapply Htl.
Qed.

(** The fuel given by [remove_all] is never used up: more fuel gives
    the same result. *)
Lemma remove_all_from_fuel r : ∀ n m pre post,
  (length post < n)%nat → (length post < m)%nat →
  remove_all_from n r pre post = remove_all_from m r pre post.
Proof.
  induction n as [|n IH]; intros [|m] pre post Hn Hm; try lia. simpl.
  destruct (exec_at r pre post) as [z|] eqn:He.
  - destruct (_ <? _)%nat eqn:Hlt.
    + apply Nat.ltb_lt in Hlt. apply IH; lia.
    + destruct post; [done|]. simpl in *. f_equal. apply IH; lia.
  - destruct post; [done|]. simpl in *. f_equal. apply IH; lia.
Qed.

End SearchFacts.

(** ** The date validator *)

(** Take a declarative match apart into the code units it read. *)
Ltac break_match_hyps :=
  repeat match goal with
         | H : ∃ _, _ |- _ => destruct H
         | H : _ ∧ _ |- _ => destruct H
         | H : _ ∨ _ |- _ => destruct H
         | H : ?x = _ |- _ => is_var x; subst x; simpl in *
         | H : _ :: _ = _ :: _ |- _ => injection H as ? ?
         | H : is_char _ _ = true |- _ => apply N.eqb_eq in H
         end.

Section DateFacts.
Import RegExp ResumeTypes.

Lemma month_digits m1 m2 :
  (is_char "0" m1 && in_range "1" "9" m2 || is_char "1" m1 && in_range "0" "2" m2) = true ↔
  is_digit m1 = true ∧ is_digit m2 = true ∧
  (1 <= 10 * Number.digit_value m1 + Number.digit_value m2 <= 12)%Z.
Proof.
  unfold is_char, is_digit, in_range, Number.digit_value. char_codes.
  rewrite orb_true_iff, !andb_true_iff, !N.leb_le, !N.eqb_eq. lia.
Qed.

Lemma test_dateRegex s : test dateRegex s = true ↔ year_month s.
Proof.
  unfold test. split.
  - destruct (search dateRegex [] s) as [z|] eqn:Hs; [|done]. intros _.
    apply search_anchored_Some in Hs. simpl in Hs.
    break_match_hyps.
    all: do 6 eexists; split; [reflexivity|]; repeat (split; [done|]).
    all: apply month_digits.
    all: match goal with H : in_range _ _ _ = true |- _ => by rewrite H end.
  - intros (y1 & y2 & y3 & y4 & m1 & m2 & -> & H1 & H2 & H3 & H4 & Hm).
    apply month_digits in Hm.
    unfold dateRegex, search, exec_at. simpl. rewrite H1, H2, H3, H4. simpl.
    destruct (is_char "0" m1), (in_range "1" "9" m2), (is_char "1" m1),
      (in_range "0" "2" m2); simpl in *; done.
Qed.

Lemma validateDate_spec s :
  validateDate s = true ↔ s = str "Present" ∨ year_month s.
Proof.
  unfold validateDate. destruct (decide (s = str "Present")) as [->|Hne].
  - by split; [left|].
  - rewrite test_dateRegex. by split; [right | intros [?|?]].
Qed.

End DateFacts.

(** C1 as stated, with the literal "present", fails on the code: the
    accepted literal is "Present". *)
Lemma validateDate_lowercase_present_rejected :
  ResumeTypes.validateDate (str "present") = false ∧
  ResumeTypes.validateDate (str "Present") = true ∧
  ¬ ResumeTypes.year_month (str "Present").
Proof.
  split; [vm_compute; reflexivity|]. split; [vm_compute; reflexivity|].
  intros (y1 & y2 & y3 & y4 & m1 & m2 & H & Hd & _).
  injection H as <-. vm_compute in Hd. done.
Qed.

(** C1 (amended): [validateDate] accepts exactly the literal "Present"
    (case-sensitive) and the strings YYYY-MM whose month lies in 01..12;
    every other string, including months 00 and 13, is rejected. *)
Theorem validateDate_accepts_exactly :
  (∀ s, ResumeTypes.validateDate s = true ↔
        s = str "Present" ∨ ResumeTypes.year_month s) ∧
  ResumeTypes.validateDate (str "2024-00") = false ∧
  ResumeTypes.validateDate (str "2024-13") = false ∧
  ResumeTypes.validateDate (str "2024-01") = true ∧
  ResumeTypes.validateDate (str "2024-12") = true.
Proof.
  split; [apply validateDate_spec|]. repeat split; vm_compute; reflexivity.
Qed.

(** ** The strict sanitizer *)

Section SanitizeFacts.
Import RegExp ResumeTypes.

Lemma not_char_true a c : not_char a c = true ↔ c ≠ chr a.
Proof.
  unfold not_char, is_char. rewrite negb_true_iff, N.eqb_neq. done.
Qed.

Lemma Forall_not_char a w :
  Forall (λ c, not_char a c = true) w ↔ Forall (λ c, c ≠ chr a) w.
Proof. apply Forall_iff. intros c. apply not_char_true. Qed.

(** What one match of the tag pattern looks like. *)
Lemma tag_match_Some pre post z :
  exec_at tagRegex pre post = Some z →
  ∃ body rest,
    post = chr "<" :: body ++ chr ">" :: rest ∧ body ≠ [] ∧
    Forall (λ c, c ≠ chr ">") body ∧ remaining z = rest.
Proof.
  intros H. apply exec_at_Some in H. simpl in H.
  destruct H as (m1 & (c & rest & Hpost & Hc & ->) & m2 &
                 (m3 & (c1 & rest1 & Hr1 & Hc1 & ->) & Hit) &
                 (c2 & rest2 & Hr2 & Hc2 & ->)).
  cbn [remaining consumed captures] in *. subst post.
  apply N.eqb_eq in Hc, Hc2. subst c c2.
  apply iterate_char_reads in Hit as (w & Hw & [Ha _] & _).
  cbn [remaining consumed captures] in Ha.
  exists (c1 :: w), rest2. rewrite Hr1, Ha, Hr2. repeat split; [done|].
  apply Forall_not_char. by constructor.
Qed.

Lemma tag_match_intro pre body rest :
  body ≠ [] → Forall (λ c, c ≠ chr ">") body →
  is_Some (exec_at tagRegex pre (chr "<" :: body ++ chr ">" :: rest)).
Proof.
  intros Hne Hb. destruct body as [|c1 w]; [done|].
  apply Forall_not_char in Hb. inversion Hb as [|? ? Hc1 Hw]; subst.
  eapply exec_at_is_Some. simpl.
  eexists. split; [eexists _, _; split; [reflexivity|]; split; [reflexivity|reflexivity]|].
  simpl. eexists. split.
  - eexists. split; [eexists _, _; split; [reflexivity|]; split; [exact Hc1|reflexivity]|].
    simpl. by apply iterate_char_intro.
  - simpl. eexists _, _. split; [reflexivity|]. split; reflexivity.
Qed.

Lemma has_tag_app a s b : has_tag s → has_tag (a ++ s ++ b).
Proof.
  intros (a' & body & b' & -> & ? & ?). exists (a ++ a'), body, (b' ++ b).
  split; [|done]. rewrite <- !app_assoc. simpl. by rewrite <- app_assoc.
Qed.

(** A ['<'] followed by some other code unit than ['>'] and, later, by
    a ['>'] starts a tag. *)
Lemma has_tag_start c u :
  c ≠ chr ">" → chr ">" ∈ u → has_tag (chr "<" :: c :: u).
Proof.
  intros Hc Hin. apply list_elem_of_split_l in Hin as (l1 & l2 & -> & Hl1).
  exists [], (c :: l1), l2. repeat split; [done|].
  constructor; [done|]. apply Forall_forall. by intros x Hx ->.
Qed.

Lemma has_tag_inv c s :
  has_tag (c :: s) →
  has_tag s ∨
  (c = chr "<" ∧ ∃ b0 body after,
      s = b0 :: body ++ chr ">" :: after ∧ b0 ≠ chr ">").
Proof.
  intros (a & body & b & Heq & Hne & Hb). destruct a as [|a0 a].
  - right. simpl in Heq. injection Heq as -> ->.
    destruct body as [|b0 body]; [done|]. inversion Hb; subst.
    split; [done|]. by exists b0, body, b.
  - left. simpl in Heq. injection Heq as -> ->. by exists a, body, b.
Qed.

Lemma remove_tags_at_gt n pre rest :
  remove_all_from (S n) tagRegex pre (chr ">" :: rest) =
  chr ">" :: remove_all_from n tagRegex (chr ">" :: pre) rest.
Proof. reflexivity. Qed.

(** After the tag pattern has been removed everywhere, no tag is left. *)
Lemma remove_tags_tag_free : ∀ n pre post,
  (length post < n)%nat → ¬ has_tag (remove_all_from n tagRegex pre post).
Proof.
  induction n as [|n IH]; intros pre post Hlen; [lia|]. simpl.
  destruct (exec_at tagRegex pre post) as [z|] eqn:He.
  - destruct (tag_match_Some _ _ _ He) as (body & rest & -> & Hne & Hb & Hz).
    assert (length (remaining z) < length (chr "<" :: body ++ chr ">" :: rest))%nat
      as Hlt by (rewrite Hz; simpl; rewrite length_app; simpl; lia).
    apply Nat.ltb_lt in Hlt as Hlt'. rewrite Hlt'. apply IH. lia.
  - destruct post as [|c rest]; [by intros ([|??] & ? & ? & ? & _)|].
    simpl in Hlen.
    intros Ht. apply has_tag_inv in Ht as [Ht|(-> & b0 & body & after & Ho & Hb0)].
    + revert Ht. apply IH. lia.
    + destruct (decide (chr ">" ∈ rest)) as [Hin|Hnin].
      * apply list_elem_of_split_l in Hin as (l1 & l2 & -> & Hl1).
        destruct l1 as [|c1 l1].
        -- destruct n as [|n]; [simpl in Hlen; lia|].
           rewrite app_nil_l, remove_tags_at_gt in Ho. injection Ho as Ho _.
           apply Hb0. by rewrite <- Ho.
        -- destruct (tag_match_intro pre (c1 :: l1) l2) as [z Hz]; [done| |].
           ++ apply Forall_forall. by intros x Hx ->.
           ++ congruence.
      * apply Hnin.
        pose proof (remove_all_from_sublist tagRegex n (chr "<" :: pre) rest) as Hs.
        rewrite Ho in Hs. apply (sublist_subseteq _ _ Hs).
        apply elem_of_cons. right. apply elem_of_app. right. by left.
Qed.

(** A match of either pattern needs a tag in the text ahead. *)
Lemma tag_match_has_tag pre post z :
  exec_at tagRegex pre post = Some z → has_tag post.
Proof.
  intros H. apply tag_match_Some in H as (body & rest & -> & ? & ? & _).
  by exists [], body, rest.
Qed.

Lemma canonicalize_gt c :
  (canonicalize c =? canonicalize (chr ">")) = true → c = chr ">".
Proof.
  unfold canonicalize, in_range. char_codes. simpl. intros H. apply N.eqb_eq in H.
  destruct (_ && _) eqn:Hr; [|done].
  apply andb_true_iff in Hr as [H1 H2]. apply N.leb_le in H1, H2. lia.
Qed.

Lemma canonicalize_lt c :
  (canonicalize c =? canonicalize (chr "<")) = true → c = chr "<".
Proof.
  unfold canonicalize, in_range. char_codes. simpl. intros H. apply N.eqb_eq in H.
  destruct (_ && _) eqn:Hr; [|done].
  apply andb_true_iff in Hr as [H1 H2]. apply N.leb_le in H1, H2. lia.
Qed.

Lemma canonicalize_s c :
  (canonicalize c =? canonicalize (chr "s")) = true → c ≠ chr ">".
Proof.
  unfold canonicalize, in_range. char_codes. simpl. intros H ->. done.
Qed.

Lemma script_match_has_tag pre post z :
  exec_at scriptRegex pre post = Some z → has_tag post.
Proof.
  intros H. apply exec_at_Some in H.
  unfold scriptRegex in H.
  destruct H as (m1 & Hopen & m2 & Hb & m3 & H3 & m4 & H4 & Hclose).
  apply matches_reads in Hb as (w2 & Hw2 & _), H3 as (w3 & Hw3 & _),
    H4 as (w4 & Hw4 & _).
  cbn [LitI matches] in Hopen, Hclose.
  destruct Hopen as (? & (c0 & ? & Hp0 & Hc0 & ->) & ? & (c1 & ? & Hp1 & Hc1 & ->)
    & ? & (? & ? & Hp2 & _ & ->) & ? & (? & ? & Hp3 & _ & ->)
    & ? & (? & ? & Hp4 & _ & ->) & ? & (? & ? & Hp5 & _ & ->)
    & ? & (? & ? & Hp6 & _ & ->) & ->).
  destruct Hclose as (? & (? & ? & Hq0 & _ & ->) & ? & (? & ? & Hq1 & _ & ->)
    & ? & (? & ? & Hq2 & _ & ->) & ? & (? & ? & Hq3 & _ & ->)
    & ? & (? & ? & Hq4 & _ & ->) & ? & (? & ? & Hq5 & _ & ->)
    & ? & (? & ? & Hq6 & _ & ->) & ? & (? & ? & Hq7 & _ & ->)
    & ? & (c9 & ? & Hq8 & Hc9 & ->) & ->).
  cbn [remaining consumed captures] in *.
  apply canonicalize_lt in Hc0. apply canonicalize_s in Hc1.
  apply canonicalize_gt in Hc9. subst c0 c9.
  rewrite Hp0, Hp1. apply has_tag_start; [done|].
  rewrite Hp2, Hp3, Hp4, Hp5, Hp6, Hw2, Hw3, Hw4, Hq0, Hq1, Hq2, Hq3, Hq4, Hq5,
    Hq6, Hq7, Hq8.
  set_solver.
Qed.

Lemma has_tag_tail c rest : ¬ has_tag (c :: rest) → ¬ has_tag rest.
Proof.
  intros Hn (a & body & b & -> & ? & ?). apply Hn. by exists (c :: a), body, b.
Qed.

Lemma remove_scripts_id s n pre :
  ¬ has_tag s → remove_all_from n scriptRegex pre s = s.
Proof.
  apply (remove_all_from_id scriptRegex (λ s, ¬ has_tag s)).
  - apply has_tag_tail.
  - intros pre' post Hf. destruct (exec_at _ _ _) eqn:He; [|done].
    by apply script_match_has_tag in He.
Qed.

Lemma remove_tags_id s n pre :
  ¬ has_tag s → remove_all_from n tagRegex pre s = s.
Proof.
  apply (remove_all_from_id tagRegex (λ s, ¬ has_tag s)).
  - apply has_tag_tail.
  - intros pre' post Hf. destruct (exec_at _ _ _) eqn:He; [|done].
    by apply tag_match_has_tag in He.
Qed.

Lemma sanitizeString_tag_free s : ¬ has_tag (sanitizeString s).
Proof.
  unfold sanitizeString. destruct (negb (truthy s)).
  - by intros ([|??] & ? & ? & ? & _).
  - intros Ht.
    destruct (trim_substring (remove_all tagRegex (remove_all scriptRegex s)))
      as (a & b & Hab).
    apply (has_tag_app a _ b) in Ht. rewrite <- Hab in Ht.
    revert Ht. apply remove_tags_tag_free. lia.
Qed.

Lemma sanitizeString_fixed s :
  ¬ has_tag s → trim s = s → sanitizeString s = s.
Proof.
  intros Hf Ht. unfold sanitizeString, remove_all.
  destruct s as [|c rest]; [done|]. cbn [truthy negb].
  rewrite remove_scripts_id by done. rewrite remove_tags_id by done. done.
Qed.

Lemma sanitizeString_idem s :
  sanitizeString (sanitizeString s) = sanitizeString s.
Proof.
  apply sanitizeString_fixed; [apply sanitizeString_tag_free|].
  unfold sanitizeString. destruct (negb (truthy s)); [done|]. apply trim_idem.
Qed.

Lemma sanitizeString_no_script s pre :
  search scriptRegex pre (sanitizeString s) = None.
Proof.
  destruct (search _ _ _) as [z|] eqn:Hs; [|done]. exfalso.
  apply search_Some in Hs as (w & post' & Hw & Hm).
  apply exec_at_is_Some in Hm as [z' Hz'].
  apply script_match_has_tag in Hz'.
  apply (sanitizeString_tag_free s). rewrite Hw.
  apply (has_tag_app w post' []) in Hz'. by rewrite app_nil_r in Hz'.
Qed.

End SanitizeFacts.

(** C6: the strict sanitizer is idempotent, and its output holds neither
    a script block (the script pattern matches nowhere in it) nor any
    complete tag: no ['<'], one or more code units other than ['>'],
    then ['>']. *)
Theorem sanitizeString_idempotent_and_tag_free :
  ∀ s : jsstring,
    ResumeTypes.sanitizeString (ResumeTypes.sanitizeString s)
      = ResumeTypes.sanitizeString s ∧
    RegExp.test ResumeTypes.scriptRegex (ResumeTypes.sanitizeString s) = false ∧
    RegExp.test ResumeTypes.tagRegex (ResumeTypes.sanitizeString s) = false ∧
    ¬ (∃ before body after,
         ResumeTypes.sanitizeString s
           = before ++ chr "<" :: body ++ chr ">" :: after ∧
         body ≠ [] ∧ Forall (λ c, c ≠ chr ">") body).
Proof.
  intros s. split; [apply sanitizeString_idem|]. split; [|split].
  - unfold RegExp.test. by rewrite sanitizeString_no_script.
  - unfold RegExp.test.
    destruct (RegExp.search _ _ _) as [z|] eqn:Hs; [|done]. exfalso.
    apply search_Some in Hs as (w & post' & Hw & Hm).
    apply exec_at_is_Some in Hm as [z' Hz'].
    apply tag_match_has_tag in Hz'.
    apply (sanitizeString_tag_free s). rewrite Hw.
    apply (has_tag_app w post' []) in Hz'. by rewrite app_nil_r in Hz'.
  - apply sanitizeString_tag_free.
Qed.

(** ** Number values: rounding is monotone *)

Section NumberFacts.
Import Number.
Local Open Scope Z_scope.

Lemma floor_div_mono a1 b1 a2 b2 :
  0 < b1 → 0 < b2 → a1 * b2 <= a2 * b1 → a1 / b1 <= a2 / b2.
Proof.
  intros H1 H2 H.
  pose proof (Z.div_mod a1 b1 ltac:(lia)) as E1.
  pose proof (Z.div_mod a2 b2 ltac:(lia)) as E2.
  pose proof (Z.mod_pos_bound a1 b1 H1) as B1.
  pose proof (Z.mod_pos_bound a2 b2 H2) as B2.
  destruct (Z.le_gt_cases (a1 / b1) (a2 / b2)) as [?|Hgt]; [done|]. exfalso.
  assert (a2 / b2 + 1 <= a1 / b1) as Hq by lia.
  assert (b1 * (a2 / b2 + 1) <= b1 * (a1 / b1)) as Hm
    by (apply Z.mul_le_mono_nonneg_l; lia).
  assert (a2 < b2 * (a2 / b2 + 1)) as Hlt by lia.
  assert (a2 * b1 < b2 * (a2 / b2 + 1) * b1) as Hlt'
    by (apply Z.mul_lt_mono_pos_r; lia).
  assert (b1 * (a2 / b2 + 1) * b2 <= a1 * b2) as Hle
    by (apply Z.mul_le_mono_nonneg_r; lia).
  lia.
Qed.

Lemma round_half_even_mono a1 b1 a2 b2 :
  0 < b1 → 0 < b2 → a1 * b2 <= a2 * b1 →
  round_half_even a1 b1 <= round_half_even a2 b2.
Proof.
  intros H1 H2 H.
  pose proof (floor_div_mono _ _ _ _ H1 H2 H) as Hq.
  pose proof (Z.div_mod a1 b1 ltac:(lia)) as E1.
  pose proof (Z.div_mod a2 b2 ltac:(lia)) as E2.
  pose proof (Z.mod_pos_bound a1 b1 H1) as B1.
  pose proof (Z.mod_pos_bound a2 b2 H2) as B2.
  unfold round_half_even.
  set (q1 := a1 / b1) in *. set (q2 := a2 / b2) in *.
  set (r1 := a1 mod b1) in *. set (r2 := a2 mod b2) in *.
  destruct (Z.eq_dec q1 q2) as [Heq|Hne].
  - assert (r1 * b2 <= r2 * b1) as Hr by nia.
    rewrite <- Heq.
    destruct (Z.ltb_spec (2 * r1) b1), (Z.ltb_spec b1 (2 * r1)),
      (Z.ltb_spec (2 * r2) b2), (Z.ltb_spec b2 (2 * r2)),
      (Z.even q1); try lia; exfalso; nia.
  - assert (q1 + 1 <= q2) by lia.
    destruct (Z.ltb_spec (2 * r1) b1), (Z.ltb_spec b1 (2 * r1)),
      (Z.ltb_spec (2 * r2) b2), (Z.ltb_spec b2 (2 * r2)),
      (Z.even q1), (Z.even q2); lia.
Qed.

Lemma round_half_even_int k : round_half_even k 1 = k.
Proof.
  unfold round_half_even. rewrite Z.div_1_r, Z.mod_1_r. done.
Qed.

Lemma round_half_even_lower a b k :
  0 < b → k * b <= a → k <= round_half_even a b.
Proof.
  intros Hb H. rewrite <- (round_half_even_int k).
  apply round_half_even_mono; lia.
Qed.

Lemma round_half_even_upper a b k :
  0 < b → a <= k * b → round_half_even a b <= k.
Proof.
  intros Hb H. rewrite <- (round_half_even_int k).
  apply round_half_even_mono; lia.
Qed.

Lemma spacing_nonneg a b : 0 <= spacing a b.
Proof. unfold spacing. lia. Qed.

Lemma spacing_mono a1 b1 a2 b2 :
  0 < b1 → 0 < b2 → a1 * b2 <= a2 * b1 → spacing a1 b1 <= spacing a2 b2.
Proof.
  intros H1 H2 H. unfold spacing.
  pose proof (Z.log2_le_mono _ _ (floor_div_mono _ _ _ _ H1 H2 H)). lia.
Qed.

(** Below its spacing exponent plus 53 bits. *)
Lemma spacing_upper a b :
  0 <= a → 0 < b → a <= b * 2 ^ spacing a b * 2 ^ 53.
Proof.
  intros Ha Hb. unfold spacing.
  pose proof (Z.div_mod a b ltac:(lia)) as E.
  pose proof (Z.mod_pos_bound a b Hb) as B.
  assert (0 <= a / b) as Hq by (apply Z.div_pos; lia).
  set (t := a / b) in *. set (e := Z.max (Z.log2 t - 52) 0).
  assert (t < 2 ^ (e + 53)) as Ht.
  { destruct (Z.eq_dec t 0) as [->|Hne]; [apply Z.pow_pos_nonneg; lia|].
    pose proof (Z.log2_spec t ltac:(lia)) as [_ Hs].
    eapply Z.lt_le_trans; [exact Hs|]. apply Z.pow_le_mono_r; lia. }
  rewrite <- Z.mul_assoc, <- Z.pow_add_r by lia.
  assert (t + 1 <= 2 ^ (e + 53)) by lia.
  assert (b * (t + 1) <= b * 2 ^ (e + 53)) by (apply Z.mul_le_mono_nonneg_l; lia).
  lia.
Qed.

(** At least 52 bits above a positive spacing exponent. *)
Lemma spacing_lower a b :
  0 <= a → 0 < b → 0 < spacing a b → b * 2 ^ spacing a b * 2 ^ 52 <= a.
Proof.
  intros Ha Hb. unfold spacing. intros He.
  pose proof (Z.div_mod a b ltac:(lia)) as E.
  pose proof (Z.mod_pos_bound a b Hb) as B.
  set (t := a / b) in *.
  assert (Z.max (Z.log2 t - 52) 0 = Z.log2 t - 52) as -> by lia.
  assert (0 < t) as Ht.
  { destruct (Z.le_gt_cases t 0) as [Hle|]; [|done].
    rewrite (Z.log2_nonpos t Hle) in He. lia. }
  pose proof (Z.log2_spec t Ht) as [Hs _].
  rewrite <- Z.mul_assoc, <- Z.pow_add_r by lia.
  replace (Z.log2 t - 52 + 52) with (Z.log2 t) by lia.
  assert (b * 2 ^ Z.log2 t <= b * t) by (apply Z.mul_le_mono_nonneg_l; lia).
  lia.
Qed.

Lemma rounded_mono a1 b1 a2 b2 :
  0 <= a1 → 0 < b1 → 0 < b2 → a1 * b2 <= a2 * b1 →
  rounded a1 b1 <= rounded a2 b2.
Proof.
  intros Ha1 H1 H2 H. unfold rounded.
  assert (0 <= a2) as Ha2 by nia.
  pose proof (spacing_nonneg a1 b1) as He1.
  pose proof (spacing_nonneg a2 b2) as He2.
  pose proof (spacing_mono _ _ _ _ H1 H2 H) as He.
  set (e1 := spacing a1 b1) in *. set (e2 := spacing a2 b2) in *.
  assert (0 < 2 ^ e1) as P1 by (apply Z.pow_pos_nonneg; lia).
  assert (0 < 2 ^ e2) as P2 by (apply Z.pow_pos_nonneg; lia).
  destruct (Z.eq_dec e1 e2) as [Heq|Hne].
  - rewrite <- Heq. apply Z.mul_le_mono_nonneg_r; [lia|].
    apply round_half_even_mono; [nia..|].
    replace (a1 * (b2 * 2 ^ e1)) with (a1 * b2 * 2 ^ e1) by ring.
    replace (a2 * (b1 * 2 ^ e1)) with (a2 * b1 * 2 ^ e1) by ring.
    apply Z.mul_le_mono_nonneg_r; lia.
  - assert (e1 + 1 <= e2) as Hlt by lia.
    pose proof (spacing_upper a1 b1 Ha1 H1) as Hu. fold e1 in Hu.
    pose proof (spacing_lower a2 b2 Ha2 H2 ltac:(fold e2; lia)) as Hl. fold e2 in Hl.
    assert (round_half_even a1 (b1 * 2 ^ e1) <= 2 ^ 53) as Hm1
      by (apply round_half_even_upper; [nia | lia]).
    assert (2 ^ 52 <= round_half_even a2 (b2 * 2 ^ e2)) as Hm2
      by (apply round_half_even_lower; [nia | lia]).
    transitivity (2 ^ 53 * 2 ^ e1); [apply Z.mul_le_mono_nonneg_r; lia|].
    transitivity (2 ^ 52 * 2 ^ e2); [|apply Z.mul_le_mono_nonneg_r; lia].
    rewrite <- !Z.pow_add_r by lia. apply Z.pow_le_mono_r; lia.
Qed.

(** Rounding to the nearest Number value never reverses an order. *)
Lemma to_number_mono n1 d1 n2 d2 :
  0 <= n1 → 0 < d1 → 0 < d2 → n1 * d2 <= n2 * d1 →
  gt (to_number n1 d1) (to_number n2 d2) = false.
Proof.
  intros Hn1 H1 H2 H.
  assert (rounded (n1 * 2 ^ 1074) d1 <= rounded (n2 * 2 ^ 1074) d2) as Hr.
  { apply rounded_mono; [lia..|].
    replace (n1 * 2 ^ 1074 * d2) with (n1 * d2 * 2 ^ 1074) by ring.
    replace (n2 * 2 ^ 1074 * d1) with (n2 * d1 * 2 ^ 1074) by ring.
    apply Z.mul_le_mono_nonneg_r; lia. }
  unfold to_number.
  destruct (Z.leb_spec (2 ^ 2098) (rounded (n1 * 2 ^ 1074) d1)),
    (Z.leb_spec (2 ^ 2098) (rounded (n2 * 2 ^ 1074) d2)); simpl; try done.
  - lia.
  - apply Z.ltb_ge. lia.
Qed.

End NumberFacts.

(** ** The GPA pattern *)

Section GpaFacts.
Import RegExp ResumeTypes EducationForm Number.

Lemma span_digits_app ds tl :
  Forall (λ c, is_digit c = true) ds →
  (∀ c t, tl = c :: t → is_digit c = false) →
  span_digits (ds ++ tl) = (ds, tl).
Proof.
  intros Hd Ht. induction Hd as [|c ds Hc _ IH]; simpl.
  - destruct tl as [|c t]; simpl; [done|]. by rewrite (Ht c t).
  - by rewrite Hc, IH.
Qed.

Lemma span_digits_spec s ds tl :
  span_digits s = (ds, tl) →
  s = ds ++ tl ∧ Forall (λ c, is_digit c = true) ds ∧
  (∀ c t, tl = c :: t → is_digit c = false).
Proof.
  revert ds tl. induction s as [|c s IH]; intros ds tl; simpl.
  - intros [= <- <-]. by repeat split.
  - destruct (is_digit c) eqn:Hc.
    + destruct (span_digits s) as [ds' tl'] eqn:Hs. intros [= <- <-].
      destruct (IH _ _ eq_refl) as (-> & Hd & Ht).
      repeat split; [by constructor | done].
    + intros [= <- <-]. repeat split; [done|]. by intros ? ? [= <- <-].
Qed.

(** The words [decimal_parts] accepts. *)
Lemma decimal_parts_Some w ip fp :
  decimal_parts w = Some (ip, fp) ↔
  ip ≠ [] ∧ Forall (λ c, is_digit c = true) ip ∧
  Forall (λ c, is_digit c = true) fp ∧
  (w = ip ∧ fp = [] ∨ w = ip ++ chr "." :: fp).
Proof.
  unfold decimal_parts. split.
  - destruct (span_digits w) as [ds tl] eqn:Hs.
    apply span_digits_spec in Hs as (-> & Hd & Ht).
    destruct ds as [|d ds]; [done|]. destruct tl as [|c tl].
    + intros [= <- <-]. rewrite app_nil_r. repeat split; [done..|by left].
    + destruct (is_char "." c) eqn:Hc; [|done]. apply N.eqb_eq in Hc as ->.
      destruct (span_digits tl) as [fs tl'] eqn:Hs'.
      apply span_digits_spec in Hs' as (-> & Hd' & _).
      destruct tl'; [|done]. intros [= <- <-]. rewrite app_nil_r.
      repeat split; [done..|by right].
  - intros (Hne & Hi & Hf & [[-> ->] | ->]).
    + assert (span_digits ip = (ip, [])) as ->
        by (rewrite <- (app_nil_r ip) at 1; by apply span_digits_app).
      by destruct ip.
    + rewrite span_digits_app; [|done|by intros ? ? [= <- <-]].
      destruct ip; [done|]. change (is_char "." (chr ".")) with true.
      cbn iota.
      assert (span_digits fp = (fp, [])) as ->
        by (rewrite <- (app_nil_r fp) at 1; by apply span_digits_app).
      done.
Qed.

Lemma decimal_fraction_is_Some w :
  is_Some (decimal_fraction w) ↔ is_Some (decimal_parts w).
Proof.
  unfold decimal_fraction. destruct (decimal_parts w) as [[ip fp]|]; [|done].
  split; eauto.
Qed.

Lemma space_not_numeric c : is_space c = true → numeric c = false.
Proof.
  unfold is_space, numeric, is_digit, is_char, in_range. char_codes.
  rewrite !orb_true_iff, !andb_true_iff, !N.eqb_eq, !N.leb_le.
  intros H. apply orb_false_iff. rewrite andb_false_iff, !N.leb_gt, N.eqb_neq.
  lia.
Qed.

Lemma decimal_numeric w :
  is_Some (decimal_parts w) → w ≠ [] ∧ Forall (λ c, numeric c = true) w.
Proof.
  intros [[ip fp] H]. apply decimal_parts_Some in H as (Hne & Hi & Hf & Hw).
  assert (∀ l, Forall (λ c, is_digit c = true) l → Forall (λ c, numeric c = true) l)
    as Hnum.
  { intros l Hl. eapply Forall_impl; [exact Hl|].
    intros c Hc. unfold numeric. by rewrite Hc. }
  destruct Hw as [[-> ->] | ->].
  - split; [done | by apply Hnum].
  - split; [by destruct ip|]. apply Forall_app. split; [by apply Hnum|].
    constructor; [done | by apply Hnum].
Qed.

(** One decimal number of the GPA pattern. *)
Lemma gpaNumber_reads x y :
  matches gpaNumber x y →
  ∃ w, reads x w y ∧ captures y = captures x ∧ is_Some (decimal_parts w).
Proof.
  intros (m1 & (m0 & (d & rest & Hr & Hd & ->) & Hit) & m2 & Hdot & Hit2).
  apply iterate_char_reads in Hit as (ds & Hds & [Ha Hb] & Hc).
  apply iterate_char_reads in Hit2 as (fs & Hfs & [Ha2 Hb2] & Hc2).
  cbn [remaining consumed captures] in *.
  destruct Hdot as [(c & rest' & Hr' & Hdot & ->)| ->];
    cbn [remaining consumed captures] in *.
  - apply N.eqb_eq in Hdot as ->.
    exists ((d :: ds) ++ chr "." :: fs). repeat split.
    + rewrite Hr, Ha, Hr', Ha2. simpl. by rewrite <- app_assoc.
    + rewrite Hb2, Hb. rewrite rev_app_distr. simpl.
      rewrite <- ?app_assoc. simpl. by rewrite <- ?app_assoc.
    + congruence.
    + exists (d :: ds, fs). apply decimal_parts_Some.
      repeat split; [done|by constructor|done|by right].
  - exists ((d :: ds) ++ fs). repeat split.
    + rewrite Hr, Ha, Ha2. simpl. by rewrite <- app_assoc.
    + rewrite Hb2, Hb. rewrite rev_app_distr. simpl.
      rewrite <- ?app_assoc. simpl. by rewrite <- ?app_assoc.
    + congruence.
    + exists ((d :: ds) ++ fs, []). apply decimal_parts_Some.
      repeat split; [done| |done|by left].
      apply Forall_app. split; [by constructor | done].
Qed.

Lemma gpaNumber_intro w pre rest caps :
  is_Some (decimal_parts w) →
  matches gpaNumber (MState pre (w ++ rest) caps) (MState (rev w ++ pre) rest caps).
Proof.
  intros [[ip fp] H]. apply decimal_parts_Some in H as (Hne & Hi & Hf & Hw).
  destruct ip as [|d ds]; [done|]. inversion Hi as [|? ? Hd Hds]; subst.
  assert (∀ tl, matches (Plus (Char is_digit))
                  (MState pre ((d :: ds) ++ tl) caps)
                  (MState (rev (d :: ds) ++ pre) tl caps)) as Hplus.
  { intros tl. exists (MState (d :: pre) (ds ++ tl) caps). split.
    - exists d, (ds ++ tl). by repeat split.
    - replace (rev (d :: ds) ++ pre) with (rev ds ++ d :: pre)
        by (simpl; by rewrite <- app_assoc).
      by apply iterate_char_intro. }
  destruct Hw as [[-> ->] | ->].
  - exists (MState (rev (d :: ds) ++ pre) rest caps). split; [apply Hplus|].
    exists (MState (rev (d :: ds) ++ pre) rest caps). split; [by right|].
    apply iterate_done.
  - replace (((d :: ds) ++ chr "." :: fp) ++ rest)
      with ((d :: ds) ++ chr "." :: fp ++ rest)
      by (by rewrite <- app_assoc).
    replace (rev ((d :: ds) ++ chr "." :: fp) ++ pre)
      with (rev fp ++ chr "." :: rev (d :: ds) ++ pre)
      by (rewrite rev_app_distr; simpl; by rewrite <- !app_assoc).
    exists (MState (rev (d :: ds) ++ pre) (chr "." :: fp ++ rest) caps).
    split; [apply Hplus|].
    exists (MState (chr "." :: rev (d :: ds) ++ pre) (fp ++ rest) caps). split.
    + left. exists (chr "."), (fp ++ rest). by repeat split.
    + by apply iterate_char_intro.
Qed.

End GpaFacts.

Section GpaMatch.
Import RegExp ResumeTypes EducationForm Number.

Lemma take_read (w r : jsstring) :
  take (length (w ++ r) - length r) (w ++ r) = w.
Proof. apply take_app_length'. rewrite length_app. lia. Qed.

(** A match of the whole GPA pattern and the two groups it captures. *)
Lemma gpa_match_shape value z :
  search gpaRegex [] value = Some z →
  ∃ earned total,
    gpa_shape value earned total ∧
    captures z !! 1%nat = Some earned ∧ captures z !! 2%nat = Some total.
Proof.
  intros H. apply search_anchored_Some in H.
  destruct H as (m1 & (n1 & Hnum1 & ->) & m2 & Hs1 & m3 & Hslash & m4 & Hs2
                 & m5 & (n2 & Hnum2 & ->) & (-> & Hend)).
  apply gpaNumber_reads in Hnum1 as (w1 & [Hr1 _] & Hc1 & Hd1).
  apply gpaNumber_reads in Hnum2 as (w2 & [Hr2 _] & Hc2 & Hd2).
  apply iterate_char_reads in Hs1 as (ws1 & Hws1 & [Hr3 _] & Hc3).
  apply iterate_char_reads in Hs2 as (ws2 & Hws2 & [Hr4 _] & Hc4).
  destruct Hslash as (c & rest & Hr5 & Hc & ->).
  apply N.eqb_eq in Hc as ->.
  cbn [remaining consumed captures capture] in *.
  exists w1, w2. split; [|split].
  - exists ws1, ws2. repeat split; try done; try by apply decimal_fraction_is_Some.
    rewrite Hr1, Hr3, Hr5, Hr4, Hr2, Hend. by rewrite app_nil_r.
  - rewrite lookup_insert_ne by done. rewrite Hc2, Hc4, Hc3.
    rewrite lookup_insert_eq. f_equal. rewrite Hr1. apply take_read.
  - rewrite lookup_insert_eq. f_equal. rewrite Hr2. apply take_read.
Qed.

Lemma gpa_shape_matches value earned total :
  gpa_shape value earned total → is_Some (search gpaRegex [] value).
Proof.
  intros (ws1 & ws2 & -> & Hws1 & Hws2 & Hd1 & Hd2).
  apply decimal_fraction_is_Some in Hd1, Hd2.
  apply search_anchored.
  eexists.
  eexists. split.
  { eexists. split; [apply (gpaNumber_intro earned [] _ ∅ Hd1) | reflexivity]. }
  eexists. split.
  { apply (iterate_char_intro is_space ws1); exact Hws1. }
  eexists. split.
  { eexists _, _. cbn [remaining]. split; [reflexivity|]. split; reflexivity. }
  eexists. split.
  { cbn [remaining consumed captures].
    apply (iterate_char_intro is_space ws2); exact Hws2. }
  eexists. split.
  { eexists. split; [|reflexivity].
    rewrite <- (app_nil_r total) at 1.
    apply (gpaNumber_intro total _ [] _ Hd2). }
  split; reflexivity.
Qed.

(** The first run of numeric code units of a string is determined by
    the string. *)
Lemma numeric_prefix_unique (a a' : jsstring) c r c' r' :
  Forall (λ x, numeric x = true) a → Forall (λ x, numeric x = true) a' →
  numeric c = false → numeric c' = false →
  a ++ c :: r = a' ++ c' :: r' → a = a'.
Proof.
  intros Ha. revert a'. induction Ha as [|x a Hx Ha IH]; intros a' Ha' Hc Hc' Heq.
  - destruct Ha' as [|x' a' Hx' _]; [done|]. simpl in Heq. congruence.
  - destruct Ha' as [|x' a' Hx' Ha']; simpl in Heq; [congruence|].
    injection Heq as -> Heq. f_equal. by eapply IH.
Qed.

Lemma slash_not_numeric : numeric (chr "/") = false.
Proof. reflexivity. Qed.

Lemma separator_head ws tl :
  Forall (λ c, is_space c = true) ws →
  ∃ c r, ws ++ chr "/" :: tl = c :: r ∧ numeric c = false.
Proof.
  intros Hws. destruct Hws as [|c ws' Hc _].
  - exists (chr "/"), tl. by split.
  - exists c, (ws' ++ chr "/" :: tl). split; [done | by apply space_not_numeric].
Qed.

Lemma gpa_shape_unique value e1 t1 e2 t2 :
  gpa_shape value e1 t1 → gpa_shape value e2 t2 → e1 = e2 ∧ t1 = t2.
Proof.
  intros (ws1 & ws2 & -> & Hws1 & Hws2 & Hd1 & Hd2)
         (ws1' & ws2' & Heq & Hws1' & Hws2' & Hd1' & Hd2').
  apply decimal_fraction_is_Some, decimal_numeric in Hd1 as [_ Hn1],
    Hd2 as [_ Hn2], Hd1' as [_ Hn1'], Hd2' as [_ Hn2'].
  split.
  - destruct (separator_head ws1 (ws2 ++ t1) Hws1) as (c & r & Hc & Hnc).
    destruct (separator_head ws1' (ws2' ++ t2) Hws1') as (c' & r' & Hc' & Hnc').
    rewrite Hc, Hc' in Heq.
    by eapply (numeric_prefix_unique e1 e2 c r c' r').
  - apply (f_equal (@rev _)) in Heq.
    rewrite !rev_app_distr in Heq. simpl in Heq.
    rewrite !rev_app_distr in Heq. rewrite <- !app_assoc in Heq.
    simpl in Heq.
    apply Forall_rev in Hn2, Hn2', Hws2, Hws2'.
    destruct (separator_head (rev ws2) (rev ws1 ++ rev e1) Hws2) as (c & r & Hc & Hnc).
    destruct (separator_head (rev ws2') (rev ws1' ++ rev e2) Hws2')
      as (c' & r' & Hc' & Hnc').
    rewrite Hc, Hc' in Heq.
    apply (numeric_prefix_unique _ _ c r c' r') in Heq; try done.
    apply (f_equal (@rev _)) in Heq. by rewrite !rev_involutive in Heq.
Qed.

End GpaMatch.

Section GpaValidation.
Import RegExp ResumeTypes EducationForm Number.
Local Open Scope Z_scope.

Lemma digit_value_nonneg c : is_digit c = true → 0 <= digit_value c.
Proof.
  unfold is_digit, in_range, digit_value. char_codes.
  rewrite andb_true_iff, !N.leb_le. lia.
Qed.

Lemma digits_value_nonneg s :
  Forall (λ c, is_digit c = true) s → 0 <= digits_value s.
Proof.
  unfold digits_value. intros Hs.
  assert (∀ acc, 0 <= acc →
            0 <= fold_left (λ acc c, 10 * acc + digit_value c) s acc) as H;
    [|by apply H].
  induction Hs as [|c s Hc _ IH]; intros acc Hacc; simpl; [done|].
  apply IH. pose proof (digit_value_nonneg c Hc). lia.
Qed.

Lemma decimal_fraction_sign w n d :
  decimal_fraction w = Some (n, d) → 0 <= n ∧ 0 < d.
Proof.
  unfold decimal_fraction.
  destruct (decimal_parts w) as [[ip fp]|] eqn:H; [|done]. intros [= <- <-].
  apply decimal_parts_Some in H as (_ & Hi & Hf & _). split.
  - apply digits_value_nonneg, Forall_app. by split.
  - apply Z.pow_pos_nonneg; lia.
Qed.

(** Rounding both sides keeps [earned <= total]. *)
Lemma parseFloat_mono e t qe qt :
  decimal_fraction e = Some qe → decimal_fraction t = Some qt →
  frac_le qe qt → gt (parseFloat e) (parseFloat t) = false.
Proof.
  intros He Ht Hle. unfold parseFloat. rewrite He, Ht.
  destruct qe as [ne de], qt as [nt dt].
  apply decimal_fraction_sign in He as [? ?], Ht as [? ?].
  by apply to_number_mono.
Qed.

Lemma gpa_passes_spec errs id v :
  gpa_passes errs id v = true ↔
  v = [] ∨ ∃ earned total,
    gpa_shape v earned total ∧
    gt (parseFloat earned) (parseFloat total) = false.
Proof.
  unfold gpa_passes, validateField.
  rewrite bool_decide_eq_true. cbn [fst orb bool_decide decide_rel].
  change (bool_decide (Gpa = StartDate)) with false.
  change (bool_decide (Gpa = EndDate)) with false.
  change (bool_decide (Gpa = Gpa)) with true. cbn [orb].
  destruct v as [|c v]; cbn [truthy].
  { rewrite lookup_delete_eq. split; [by left | done]. }
  unfold match_groups.
  destruct (search gpaRegex [] (c :: v)) as [z|] eqn:Hs; cbn [fmap option_fmap option_map].
  - destruct (gpa_match_shape _ _ Hs) as (e & t & Hshape & H1 & H2).
    rewrite H1, H2. cbn [from_option Datatypes.id].
    destruct (gt (parseFloat e) (parseFloat t)) eqn:Hgt; cbv iota.
    + rewrite lookup_insert_eq. split; [done|].
      intros [?|(e' & t' & Hshape' & Hgt')]; [done|].
      destruct (gpa_shape_unique _ _ _ _ _ Hshape Hshape') as [<- <-].
      congruence.
    + rewrite lookup_delete_eq. split; [|done]. intros _. right. eauto.
  - rewrite lookup_insert_eq. split; [done|].
    intros [?|(e' & t' & Hshape' & _)]; [done|].
    apply gpa_shape_matches in Hshape' as [z Hz]. congruence.
Qed.

End GpaValidation.

(** C8 as stated fails on the code: the comparison is made on the two
    numbers rounded to binary64, so an excess below the rounding step is
    not seen.  Here earned = 1.00000000000000001 > 1 = total, and the
    value passes. *)
Lemma gpa_excess_lost_in_rounding :
  EducationForm.gpa_passes ∅ (str "edu1") (str "1.00000000000000001/1") = true ∧
  Number.decimal_fraction (str "1.00000000000000001")
    = Some (100000000000000001, 100000000000000000)%Z ∧
  Number.decimal_fraction (str "1") = Some (1, 1)%Z ∧
  Number.frac_lt (1, 1)%Z (100000000000000001, 100000000000000000)%Z.
Proof. repeat split; vm_compute; reflexivity. Qed.

(** C8 (amended): GPA validation leaves no error exactly for the empty
    value and for the strings made of a decimal number (digits, then
    optionally a point and further digits), optional white space, a slash,
    optional white space and a decimal number, whose first number rounded
    to binary64 does not exceed the second rounded to binary64.  Hence it
    passes whenever earned <= total holds exactly, and it fails for
    4.2/4.0 and for the malformed 3.8 and x/y. *)
Theorem gpa_validation_passes_exactly :
  (∀ errs id v,
     EducationForm.gpa_passes errs id v = true ↔
     v = [] ∨ ∃ earned total,
       EducationForm.gpa_shape v earned total ∧
       Number.gt (Number.parseFloat earned) (Number.parseFloat total) = false) ∧
  (∀ errs id v earned total qe qt,
     EducationForm.gpa_shape v earned total →
     Number.decimal_fraction earned = Some qe →
     Number.decimal_fraction total = Some qt →
     Number.frac_le qe qt →
     EducationForm.gpa_passes errs id v = true) ∧
  EducationForm.gpa_passes ∅ (str "edu1") (str "3.8/4.0") = true ∧
  EducationForm.gpa_passes ∅ (str "edu1") (str "4.2/4.0") = false ∧
  EducationForm.gpa_passes ∅ (str "edu1") (str "3.8") = false ∧
  EducationForm.gpa_passes ∅ (str "edu1") (str "x/y") = false.
Proof.
  split; [apply gpa_passes_spec|]. split.
  - intros errs id v e t qe qt Hshape He Ht Hle. apply gpa_passes_spec.
    right. exists e, t. split; [done|]. by eapply parseFloat_mono.
  - repeat split; vm_compute; reflexivity.
Qed.

(** The amended C8 at a concrete value: 3.5/4 has the required shape and
    3.5 <= 4. *)
Lemma gpa_validation_passes_exactly_witness :
  EducationForm.gpa_passes ∅ (str "edu1") (str "3.5 / 4") = true.
Proof.
  refine (proj1 (proj2 gpa_validation_passes_exactly) ∅ (str "edu1")
            (str "3.5 / 4") (str "3.5") (str "4") (35, 10)%Z (4, 1)%Z _ _ _ _).
  - exists (str " "), (str " "). repeat split.
    + repeat constructor.
    + repeat constructor.
    + vm_compute. eauto.
    + vm_compute. eauto.
  - vm_compute. reflexivity.
  - vm_compute. reflexivity.
  - unfold Number.frac_le. simpl. lia.
Defined.

(** ** Section navigation *)

Section NavigationFacts.
Import ResumeForm.

Lemma press_keeps_cursor_in_sections c st :
  currentSection st ∈ section_ids →
  ∃ st', press c st = Some st' ∧ currentSection st' ∈ section_ids.
Proof.
  destruct st as [cur data errs sub]. cbn [currentSection].
  unfold section_ids. cbn [SECTIONS fmap list_fmap id].
  intros Hin. repeat (apply elem_of_cons in Hin as [->|Hin]);
    [| | |by apply elem_of_nil in Hin].
  all: destruct c as [| |[|[|[|tab]]]];
    (eexists; split; [vm_compute; reflexivity|]);
    cbn [currentSection]; set_solver.
Qed.

Lemma press_all_keeps_cursor_in_sections cs : ∀ st,
  currentSection st ∈ section_ids →
  ∃ st', press_all cs st = Some st' ∧ currentSection st' ∈ section_ids.
Proof.
  induction cs as [|c cs IH]; intros st Hin; simpl; [eauto|].
  destruct (press_keeps_cursor_in_sections c st Hin) as (st1 & -> & Hin1).
  by apply IH.
Qed.

End NavigationFacts.

(** C9: the cursor starts at the first of the three sections; [next] and
    [previous] move one section and stay put at the last and the first
    section; a tab of the strip selects its section; so the cursor is one
    of the three section identifiers after any sequence of controls. *)
Theorem section_cursor_stays_in_sections :
  ResumeForm.section_ids = [str "personal"; str "education"; str "experience"] ∧
  (∀ saved, ResumeForm.currentSection (ResumeForm.initial saved) = str "personal") ∧
  (∀ d e s,
     ResumeForm.goToNextSection (ResumeForm.mkState (str "personal") d e s)
       = Some (ResumeForm.mkState (str "education") d e s) ∧
     ResumeForm.goToNextSection (ResumeForm.mkState (str "education") d e s)
       = Some (ResumeForm.mkState (str "experience") d e s) ∧
     ResumeForm.goToNextSection (ResumeForm.mkState (str "experience") d e s)
       = Some (ResumeForm.mkState (str "experience") d e s) ∧
     ResumeForm.goToPrevSection (ResumeForm.mkState (str "experience") d e s)
       = Some (ResumeForm.mkState (str "education") d e s) ∧
     ResumeForm.goToPrevSection (ResumeForm.mkState (str "education") d e s)
       = Some (ResumeForm.mkState (str "personal") d e s) ∧
     ResumeForm.goToPrevSection (ResumeForm.mkState (str "personal") d e s)
       = Some (ResumeForm.mkState (str "personal") d e s)) ∧
  (∀ tab c c0 d e s,
     ResumeForm.section_ids !! tab = Some c →
     ResumeForm.press (ResumeForm.jump tab) (ResumeForm.mkState c0 d e s)
       = Some (ResumeForm.mkState c d e s)) ∧
  (∀ cs saved, ∃ st,
     ResumeForm.press_all cs (ResumeForm.initial saved) = Some st ∧
     ResumeForm.currentSection st ∈ ResumeForm.section_ids).
Proof.
  split; [reflexivity|]. split; [reflexivity|]. split; [|split].
  - intros d e s. repeat split; vm_compute; reflexivity.
  - intros [|[|[|tab]]] c c0 d e s Hc; [injection Hc as <-..|done];
      reflexivity.
  - intros cs saved. apply press_all_keeps_cursor_in_sections.
    unfold ResumeForm.section_ids. cbn. set_solver.
Qed.

(** C9 at a concrete state: from the first section, the second tab of the
    strip selects the education section. *)
Lemma section_cursor_stays_in_sections_witness :
  ResumeForm.press (ResumeForm.jump 1)
    (ResumeForm.mkState (str "personal")
       (ResumeForm.mkResumeData
          (ResumeForm.mkPersonalInfo [] [] [] [] [] [] [] [] false) [] [] [])
       ∅ [])
  = Some (ResumeForm.mkState (str "education")
       (ResumeForm.mkResumeData
          (ResumeForm.mkPersonalInfo [] [] [] [] [] [] [] [] false) [] [] [])
       ∅ []).
Proof.
  apply (proj1 (proj2 (proj2 (proj2 section_cursor_stays_in_sections)))).
  reflexivity.
Defined.

(** ** Whole-record validation and submit *)

(** Lookups in a map built by inserts under literal keys. *)
Ltac map_lookups :=
  repeat first
    [ rewrite lookup_insert_eq
    | rewrite lookup_insert_ne by (let Hk := fresh in intros Hk; vm_compute in Hk; discriminate)
    | rewrite lookup_empty ].

Section SubmitFacts.
Import ExperienceForm ResumeForm.

Lemma filter_unlinked_nil (l : list Experience) :
  base.filter (λ exp, unlinked exp = true) l = [] ↔
  Forall (λ exp, unlinked exp = false) l.
Proof.
  induction l as [|e l IH]; [done|].
  rewrite filter_cons. destruct (decide (unlinked e = true)) as [He|He].
  - split; [done|]. inversion 1; congruence.
  - rewrite IH. apply not_true_is_false in He.
    split; [by constructor | by inversion 1].
Qed.

Lemma content_condition d :
  ((length (selectedRepoIds d) =? 0)%nat
   && (length (base.filter (λ exp, unlinked exp = true) (experiences d)) =? 0)%nat)
    = true ↔
  selectedRepoIds d = [] ∧ Forall (λ exp, unlinked exp = false) (experiences d).
Proof.
  rewrite andb_true_iff, !Nat.eqb_eq, !length_zero_iff_nil.
  by rewrite filter_unlinked_nil.
Qed.

Lemma validateFormData_content d :
  is_Some (validateFormData d !! str "content") ↔
  selectedRepoIds d = [] ∧ Forall (λ exp, unlinked exp = false) (experiences d).
Proof.
  rewrite <- content_condition. unfold validateFormData.
  generalize ((length (selectedRepoIds d) =? 0)%nat
    && (length (base.filter (λ exp, unlinked exp = true) (experiences d)) =? 0)%nat).
  intros cc.
  repeat match goal with |- context [if ?b then _ else _] => destruct b end;
    map_lookups; split; first [done | eauto | by intros [? ?]].
Qed.

Lemma blank_spaces s : Forall (λ c, is_space c = true) s → blank s = true.
Proof.
  intros H. apply trim_empty in H. unfold blank. rewrite H.
  cbn. apply orb_true_r.
Qed.

Lemma not_blank s : trim s ≠ [] → blank s = false.
Proof.
  intros H. unfold blank. destruct s as [|c s]; [done|].
  by destruct (trim (c :: s)).
Qed.

Lemma truthy_true s : s ≠ [] → truthy s = true.
Proof. by destruct s. Qed.

Lemma no_incomplete_education (l : list EducationForm.Education) :
  Forall (λ edu, EducationForm.institution edu ≠ [] ∧ EducationForm.degree edu ≠ []
                 ∧ EducationForm.field edu ≠ [] ∧ EducationForm.startDate edu ≠ []
                 ∧ EducationForm.endDate edu ≠ []) l →
  existsb incomplete_education l = false.
Proof.
  induction 1 as [|e l (? & ? & ? & ? & ?) _ IH]; [done|]. cbn [existsb].
  unfold incomplete_education. rewrite !truthy_true by done. exact IH.
Qed.

Lemma no_incomplete_experience (l : list Experience) :
  Forall (λ exp, unlinked exp = true →
                 title exp ≠ [] ∧ organization exp ≠ []
                 ∧ startDate exp ≠ [] ∧ endDate exp ≠ []) l →
  existsb incomplete_experience (base.filter (λ exp, unlinked exp = true) l) = false.
Proof.
  induction 1 as [|e l He _ IH]; [done|]. rewrite filter_cons.
  destruct (decide (unlinked e = true)) as [Hu|Hu]; [|done]. cbn [existsb].
  destruct (He Hu) as (? & ? & ? & ?).
  unfold incomplete_experience. rewrite !truthy_true by done. exact IH.
Qed.

End SubmitFacts.

(** C3: with a blank full name, a non-blank email, complete education
    entries, complete unlinked experience entries and some content, the
    validation errors are exactly the key fullName; submit stores that
    error set and does not call the submission callback. *)
Theorem submit_blank_name_reports_fullName_only (st : ResumeForm.state) :
  Forall (λ c, is_space c = true)
    (ResumeForm.fullName (ResumeForm.personalInfo (ResumeForm.formData st))) →
  trim (ResumeForm.email (ResumeForm.personalInfo (ResumeForm.formData st))) ≠ [] →
  Forall (λ edu, EducationForm.institution edu ≠ [] ∧ EducationForm.degree edu ≠ []
                 ∧ EducationForm.field edu ≠ [] ∧ EducationForm.startDate edu ≠ []
                 ∧ EducationForm.endDate edu ≠ [])
    (ResumeForm.education (ResumeForm.formData st)) →
  Forall (λ exp, ExperienceForm.unlinked exp = true →
                 ExperienceForm.title exp ≠ [] ∧ ExperienceForm.organization exp ≠ []
                 ∧ ExperienceForm.startDate exp ≠ [] ∧ ExperienceForm.endDate exp ≠ [])
    (ResumeForm.experiences (ResumeForm.formData st)) →
  (ResumeForm.selectedRepoIds (ResumeForm.formData st) ≠ [] ∨
   Exists (λ exp, ExperienceForm.unlinked exp = true)
     (ResumeForm.experiences (ResumeForm.formData st))) →
  ResumeForm.validateFormData (ResumeForm.formData st)
    = {[ str "fullName" := str "Full name is required" ]} ∧
  dom (ResumeForm.validateFormData (ResumeForm.formData st)) = {[ str "fullName" ]} ∧
  ResumeForm.handleSubmit st
    = ResumeForm.mkState (ResumeForm.currentSection st) (ResumeForm.formData st)
        {[ str "fullName" := str "Full name is required" ]}
        (ResumeForm.submitted st).
Proof.
  intros Hname Hemail Hedu Hexp Hcontent.
  assert (ResumeForm.validateFormData (ResumeForm.formData st)
          = {[ str "fullName" := str "Full name is required" ]}) as Hv.
  { unfold ResumeForm.validateFormData.
    rewrite (blank_spaces _ Hname), (not_blank _ Hemail).
    rewrite (no_incomplete_education _ Hedu), andb_false_r.
    rewrite (no_incomplete_experience _ Hexp).
    destruct (_ && _) eqn:Hc; [|done]. exfalso.
    apply content_condition in Hc as [Hrepos Hlinked].
    destruct Hcontent as [?|Hex]; [done|].
    apply Exists_exists in Hex as (e & He & Hu).
    rewrite Forall_forall in Hlinked. specialize (Hlinked e He). congruence. }
  split; [done|]. split.
  - rewrite Hv. apply dom_singleton_L.
  - unfold ResumeForm.handleSubmit. rewrite Hv. by rewrite map_size_singleton.
Qed.

(** C3 on a record whose full name is two spaces. *)
Lemma submit_blank_name_reports_fullName_only_witness :
  ResumeForm.validateFormData (ResumeForm.formData Samples.unnamed)
    = {[ str "fullName" := str "Full name is required" ]} ∧
  dom (ResumeForm.validateFormData (ResumeForm.formData Samples.unnamed))
    = {[ str "fullName" ]} ∧
  ResumeForm.handleSubmit Samples.unnamed
    = ResumeForm.mkState (str "experience") (ResumeForm.formData Samples.unnamed)
        {[ str "fullName" := str "Full name is required" ]} [].
Proof.
  apply (submit_blank_name_reports_fullName_only Samples.unnamed).
  - repeat constructor.
  - vm_compute. discriminate.
  - repeat constructor; vm_compute; discriminate.
  - repeat constructor; vm_compute; discriminate.
  - right. repeat constructor.
Defined.

Section ContentFacts.
Import ExperienceForm ResumeForm.

Lemma lookup_size_pos (m : gmap (list N) (list N)) k :
  is_Some (m !! k) → (0 <? size m)%nat = true.
Proof.
  intros [v Hv]. apply Nat.ltb_lt.
  destruct (decide (size m = 0%nat)) as [H0|]; [|lia].
  apply map_size_empty_iff in H0. subst m. by rewrite lookup_empty in Hv.
Qed.

End ContentFacts.

(** C4: the content-completeness error is recorded exactly when no
    repository is selected and no experience entry is without a
    repository link; with no repository and no experience entry submit is
    blocked with that error; after one unlinked experience entry has been
    added the error is absent from the next validation. *)
Theorem content_error_exactly_when_nothing_to_show :
  (∀ d, is_Some (ResumeForm.validateFormData d !! str "content") ↔
        ResumeForm.selectedRepoIds d = [] ∧
        Forall (λ exp, ExperienceForm.unlinked exp = false) (ResumeForm.experiences d)) ∧
  (∀ cur p edu errs sub,
     let st := ResumeForm.mkState cur (ResumeForm.mkResumeData p edu [] []) errs sub in
     is_Some (ResumeForm.errors (ResumeForm.handleSubmit st) !! str "content") ∧
     ResumeForm.submitted (ResumeForm.handleSubmit st) = sub) ∧
  (∀ st ty now,
     ResumeForm.validateFormData
       (ResumeForm.formData
          (ResumeForm.updateExperiences
             (ExperienceForm.addExperience ty now
                (ResumeForm.experiences (ResumeForm.formData st))) st))
       !! str "content" = None).
Proof.
  split; [apply validateFormData_content|]. split.
  - intros cur p edu errs sub st.
    assert (is_Some (ResumeForm.validateFormData (ResumeForm.formData st)
                       !! str "content")) as Hc
      by (apply validateFormData_content; by split).
    unfold ResumeForm.handleSubmit. rewrite (lookup_size_pos _ _ Hc). by split.
  - intros st ty now. apply eq_None_not_Some. intros Hc.
    apply validateFormData_content in Hc as [_ Hl].
    cbn [ResumeForm.formData ResumeForm.updateExperiences ResumeForm.experiences] in Hl.
    unfold ExperienceForm.addExperience in Hl.
    apply Forall_app in Hl as [_ Hl]. by inversion Hl.
Qed.

(** ** Repository tags *)

Section TagFacts.
Import GithubService.
Variable toLowerCase : list N → list N.

Local Abbreviation normalized := (normalized toLowerCase).
Local Abbreviation addTag := (addTag toLowerCase).
Local Abbreviation add_candidate := (add_candidate toLowerCase).
Local Abbreviation first_occurrences := (first_occurrences toLowerCase).

Lemma forEach_labelled ty xs a :
  forEach xs (addTag ty) a = fold_left add_candidate (labelled ty xs) a.
Proof.
  destruct xs as [l|]; [|done]. simpl. revert a.
  induction l as [|x l IH]; intros a; [done|]. simpl. apply IH.
Qed.

Lemma getRepositoryTags_fold r :
  getRepositoryTags toLowerCase r =
  tags (fold_left add_candidate (candidates r) (Acc [] ∅)).
Proof.
  unfold getRepositoryTags, candidates.
  by rewrite !fold_left_app, !forEach_labelled.
Qed.

Lemma fold_add_candidate l : ∀ a earlier,
  (∀ x, x ∈ seen a ↔ x ∈ earlier) →
  tags (fold_left add_candidate l a) = tags a ++ first_occurrences earlier l.
Proof.
  induction l as [|t l IH]; intros a earlier Hseen; simpl.
  - by rewrite app_nil_r.
  - unfold add_candidate at 2. unfold GithubService.addTag.
    fold (normalized (name t)).
    destruct (decide (normalized (name t) ∈ seen a)) as [Hin|Hnin].
    + rewrite bool_decide_eq_true_2 by done. cbn [negb andb].
      rewrite (bool_decide_eq_false_2 (normalized (name t) ∉ earlier))
        by (rewrite <- Hseen; tauto).
      rewrite andb_false_r. by apply IH.
    + rewrite bool_decide_eq_false_2 by done. cbn [negb andb].
      rewrite (bool_decide_eq_true_2 (normalized (name t) ∉ earlier))
        by (by rewrite <- Hseen).
      rewrite andb_true_r. destruct (name t) as [|c nm] eqn:Hname.
      * cbn [truthy]. rewrite bool_decide_eq_false_2 by tauto. by apply IH.
      * cbn [truthy]. rewrite bool_decide_eq_true_2 by done.
        rewrite (IH _ (normalized (c :: nm) :: earlier)).
        -- cbn [tags]. rewrite <- app_assoc. simpl. rewrite <- Hname.
           by destruct t.
        -- intros x. cbn [seen]. rewrite elem_of_union, elem_of_singleton,
             elem_of_cons, Hseen. done.
Qed.

Lemma first_occurrences_spec l : ∀ earlier,
  NoDup ((normalized ∘ name) <$> first_occurrences earlier l) ∧
  Forall (λ t, (normalized (name t) ∉ earlier) ∧ name t ≠ [])
    (first_occurrences earlier l) ∧
  (first_occurrences earlier l) `sublist_of` l ∧
  (∀ t, t ∈ l → name t ≠ [] →
     normalized (name t) ∈ earlier ∨
     normalized (name t) ∈ (normalized ∘ name) <$> first_occurrences earlier l).
Proof.
  induction l as [|t l IH]; intros earlier; simpl.
  - repeat split; [constructor | constructor | done | by intros ? ?%elem_of_nil].
  - destruct (decide (name t ≠ [])) as [Hne|He];
      [destruct (decide (normalized (name t) ∉ earlier)) as [Hn|Hn]|].
    + rewrite !bool_decide_eq_true_2 by done. cbn [andb].
      destruct (IH (normalized (name t) :: earlier)) as (Hnd & Hall & Hsub & Hcov).
      repeat split.
      * simpl. constructor; [|done]. intros Hin.
        apply list_elem_of_fmap in Hin as (t' & Ht' & Hin).
        rewrite Forall_forall in Hall. destruct (Hall _ Hin) as [Hnot _].
        apply Hnot. simpl in Ht'. rewrite <- Ht'. by left.
      * constructor; [done|]. eapply Forall_impl; [exact Hall|].
        intros t' [Hnot ?]. split; [|done]. intros ?. apply Hnot. by right.
      * by apply sublist_skip.
      * intros t' Hin Hne'. apply elem_of_cons in Hin as [->|Hin].
        -- right. simpl. by left.
        -- destruct (Hcov _ Hin Hne') as [Hc|Hc].
           ++ apply elem_of_cons in Hc as [Hc|Hc]; [|by left].
              right. simpl. rewrite Hc. by left.
           ++ right. simpl. by right.
    + rewrite (bool_decide_eq_false_2 (normalized (name t) ∉ earlier)) by done.
      rewrite andb_false_r.
      destruct (IH earlier) as (Hnd & Hall & Hsub & Hcov).
      repeat split; [done | done | by apply sublist_cons |].
      intros t' Hin Hne'. apply elem_of_cons in Hin as [->|Hin]; [|by apply Hcov].
      left. by apply dec_stable.
    + rewrite (bool_decide_eq_false_2 (name t ≠ [])) by done. cbn [andb].
      destruct (IH earlier) as (Hnd & Hall & Hsub & Hcov).
      repeat split; [done | done | by apply sublist_cons |].
      intros t' Hin Hne'. apply elem_of_cons in Hin as [->|Hin]; [done|].
      by apply Hcov.
Qed.

End TagFacts.

(** C10: the tags returned for a repository have pairwise different
    names after lowercasing and trimming; they are the first occurrences,
    in the order topics, languages, generated tags and each with the label
    of its origin, of the names that are not empty. *)
Theorem getRepositoryTags_first_occurrences
    (toLowerCase : list N → list N) (r : GithubService.repo) :
  NoDup ((GithubService.normalized toLowerCase ∘ GithubService.name)
           <$> GithubService.getRepositoryTags toLowerCase r) ∧
  GithubService.getRepositoryTags toLowerCase r
    = GithubService.first_occurrences toLowerCase [] (GithubService.candidates r) ∧
  (GithubService.getRepositoryTags toLowerCase r)
    `sublist_of` (GithubService.candidates r) ∧
  Forall (λ t, GithubService.name t ≠ [])
    (GithubService.getRepositoryTags toLowerCase r) ∧
  (∀ t, t ∈ GithubService.candidates r → GithubService.name t ≠ [] →
        GithubService.normalized toLowerCase (GithubService.name t)
          ∈ (GithubService.normalized toLowerCase ∘ GithubService.name)
              <$> GithubService.getRepositoryTags toLowerCase r).
Proof.
  assert (GithubService.getRepositoryTags toLowerCase r
          = GithubService.first_occurrences toLowerCase [] (GithubService.candidates r))
    as ->.
  { rewrite getRepositoryTags_fold.
    rewrite (fold_add_candidate toLowerCase _ _ []); [done|].
    intros x. cbn. set_solver. }
  destruct (first_occurrences_spec toLowerCase (GithubService.candidates r) [])
    as (Hnd & Hall & Hsub & Hcov).
  repeat split; try done.
  - eapply Forall_impl; [exact Hall|]. by intros t [_ ?].
  - intros t Hin Hne. destruct (Hcov t Hin Hne) as [Hc|Hc]; [|done].
    by apply elem_of_nil in Hc.
Qed.

(** ** Loading the saved record *)

Section LoadFacts.
Import ResumeForm.
Context {V : Type} (JSON_parse : list N → option V) (mockResumeData : V).

Local Abbreviation load := (loadSavedFormData JSON_parse mockResumeData).

Lemma read_tier_nothing tier :
  tier !! STORAGE_KEY = None ∨ tier !! STORAGE_KEY = Some [] →
  read_tier JSON_parse tier = Normal.
Proof. unfold read_tier. by intros [->| ->]. Qed.

Lemma read_tier_value tier s :
  tier !! STORAGE_KEY = Some s → s ≠ [] →
  read_tier JSON_parse tier =
  match JSON_parse s with Some v => Returned v | None => Thrown end.
Proof. unfold read_tier. intros -> Hs. by destruct s. Qed.

End LoadFacts.

(** C2 as stated fails on the code: a session value that does not parse
    sends [load] to the template although the durable tier holds a value
    that parses; with the session tier empty the same durable value is
    returned. *)
Lemma corrupt_session_value_skips_durable_tier :
  let parse := ResumeForm.parse_only (str "{}") (ResumeForm.JObject []) in
  let corrupt :=
    ResumeForm.mkStorage {[ ResumeForm.STORAGE_KEY := str "{" ]}
                         {[ ResumeForm.STORAGE_KEY := str "{}" ]} in
  let absent :=
    ResumeForm.mkStorage ∅ {[ ResumeForm.STORAGE_KEY := str "{}" ]} in
  parse (str "{") = None ∧
  ResumeForm.loadSavedFormData parse ResumeForm.sample_template corrupt
    = ResumeForm.sample_template ∧
  ResumeForm.load_by_tiers parse ResumeForm.sample_template corrupt
    = ResumeForm.JObject [] ∧
  ResumeForm.loadSavedFormData parse ResumeForm.sample_template absent
    = ResumeForm.JObject [].
Proof. repeat split; vm_compute; reflexivity. Qed.

(** C2 (amended): [load] reads the session tier first and returns its
    value when it parses; when the session tier holds nothing (no value or
    the empty string) it reads the durable tier and returns its value when
    that parses; when both tiers hold nothing it returns the template.  A
    value that does not parse, in either tier, sends [load] straight to
    the template: a corrupt session value does not fall through to the
    durable tier. *)
Theorem load_tiers_and_parse_failure {V : Type}
    (JSON_parse : list N → option V) (mockResumeData : V) (st : ResumeForm.storage) :
  (∀ s v,
     ResumeForm.sessionStorage st !! ResumeForm.STORAGE_KEY = Some s → s ≠ [] →
     JSON_parse s = Some v →
     ResumeForm.loadSavedFormData JSON_parse mockResumeData st = v) ∧
  (∀ s,
     ResumeForm.sessionStorage st !! ResumeForm.STORAGE_KEY = Some s → s ≠ [] →
     JSON_parse s = None →
     ResumeForm.loadSavedFormData JSON_parse mockResumeData st = mockResumeData) ∧
  (ResumeForm.sessionStorage st !! ResumeForm.STORAGE_KEY = None ∨
   ResumeForm.sessionStorage st !! ResumeForm.STORAGE_KEY = Some [] →
   (∀ l v,
      ResumeForm.localStorage st !! ResumeForm.STORAGE_KEY = Some l → l ≠ [] →
      JSON_parse l = Some v →
      ResumeForm.loadSavedFormData JSON_parse mockResumeData st = v) ∧
   (∀ l,
      ResumeForm.localStorage st !! ResumeForm.STORAGE_KEY = Some l → l ≠ [] →
      JSON_parse l = None →
      ResumeForm.loadSavedFormData JSON_parse mockResumeData st = mockResumeData) ∧
   (ResumeForm.localStorage st !! ResumeForm.STORAGE_KEY = None ∨
    ResumeForm.localStorage st !! ResumeForm.STORAGE_KEY = Some [] →
    ResumeForm.loadSavedFormData JSON_parse mockResumeData st = mockResumeData)).
Proof.
  unfold ResumeForm.loadSavedFormData, ResumeForm.load_try.
  split; [|split].
  - intros s v Hs Hne Hp. by rewrite (read_tier_value _ _ _ Hs Hne), Hp.
  - intros s Hs Hne Hp. by rewrite (read_tier_value _ _ _ Hs Hne), Hp.
  - intros Hnone. rewrite (read_tier_nothing _ _ Hnone). split; [|split].
    + intros l v Hl Hne Hp. by rewrite (read_tier_value _ _ _ Hl Hne), Hp.
    + intros l Hl Hne Hp. by rewrite (read_tier_value _ _ _ Hl Hne), Hp.
    + intros Hl. by rewrite (read_tier_nothing _ _ Hl).
Qed.

(** The amended C2 at a concrete store: the session value does not parse,
    and the template is returned. *)
Lemma load_tiers_and_parse_failure_witness :
  ResumeForm.loadSavedFormData
    (ResumeForm.parse_only (str "{}") (ResumeForm.JObject []))
    ResumeForm.sample_template
    (ResumeForm.mkStorage {[ ResumeForm.STORAGE_KEY := str "{" ]}
                          {[ ResumeForm.STORAGE_KEY := str "{}" ]})
  = ResumeForm.sample_template.
Proof.
  apply (proj1 (proj2 (load_tiers_and_parse_failure
           (ResumeForm.parse_only (str "{}") (ResumeForm.JObject []))
           ResumeForm.sample_template
           (ResumeForm.mkStorage {[ ResumeForm.STORAGE_KEY := str "{" ]}
                                 {[ ResumeForm.STORAGE_KEY := str "{}" ]})))
         (str "{")).
  - vm_compute. reflexivity.
  - discriminate.
  - vm_compute. reflexivity.
Defined.

(** ** Education entries: identifiers *)

Section EducationIds.
Import EducationForm.

Lemma deleteEducation_absent id0 (data : list Education) :
  id0 ∉ id <$> data → deleteEducation id0 data = data.
Proof.
  unfold deleteEducation. induction data as [|e data IH]; [done|].
  rewrite fmap_cons, not_elem_of_cons. intros [Hne Hnin].
  rewrite filter_cons_True by done. by rewrite IH.
Qed.

(** When the identifier built from the clock reading is not in the list
    yet, adding and then removing by it restores the list. *)
Lemma add_then_delete_fresh now (data : list Education) st :
  id (newEdu now) ∉ id <$> data →
  deleteEducation (id (newEdu now)) (addEducation now data st).1 = data.
Proof.
  intros Hfresh. unfold addEducation, deleteEducation. cbn [fst].
  rewrite filter_app, filter_cons_False, filter_nil, app_nil_r by (by intros []).
  by apply deleteEducation_absent.
Qed.

End EducationIds.

Section ClockReadings.
Import EducationForm.

Lemma str_inj a b : str a = str b → a = b.
Proof.
  revert b. induction a as [|c a IH]; intros [|d b]; simpl; try done.
  intros [= Hc Hs]. f_equal; [|by apply IH].
  rewrite <- (ascii_N_embedding c), <- (ascii_N_embedding d). by rewrite Hc.
Qed.

Lemma number_to_string_inj m n :
  number_to_string m = number_to_string n → m = n.
Proof.
  unfold number_to_string. intros H. apply str_inj in H.
  apply (f_equal NilEmpty.uint_of_string) in H.
  rewrite !NilEmpty.usu in H. injection H as H.
  apply (f_equal N.of_uint) in H. by rewrite !DecimalN.Unsigned.of_to in H.
Qed.

Lemma newEdu_id_inj m n : id (newEdu m) = id (newEdu n) → m = n.
Proof.
  unfold newEdu. cbn [id]. intros H. apply app_inv_head in H.
  by apply number_to_string_inj.
Qed.

Lemma addEducations_appends readings : ∀ data st,
  (addEducations readings data st).1 = data ++ (newEdu <$> readings).
Proof.
  induction readings as [|now later IH]; intros data st; simpl.
  - by rewrite app_nil_r.
  - rewrite IH. by rewrite <- app_assoc.
Qed.

(** Identifiers are pairwise distinct as long as no clock reading
    repeats. *)
Lemma distinct_readings_distinct_ids readings st :
  NoDup readings → NoDup (id <$> (addEducations readings [] st).1).
Proof.
  intros Hnd. rewrite addEducations_appends, app_nil_l, <- list_fmap_compose.
  apply NoDup_fmap_2; [|done]. intros m n. apply newEdu_id_inj.
Qed.

End ClockReadings.

(** C7 on the code: two [addEducation] calls that read the same clock
    value give two entries with the same identifier, and removing by that
    identifier removes both, so the list before the second call is not
    restored. *)
Lemma addEducation_same_clock_reading_repeats_id :
  let st0 := EducationForm.mkState None ∅ in
  let first := EducationForm.addEducation 1700000000000 [] st0 in
  let second := EducationForm.addEducation 1700000000000 first.1 first.2 in
  EducationForm.id <$> second.1 = [str "edu1700000000000"; str "edu1700000000000"] ∧
  EducationForm.editingId second.2 = Some (str "edu1700000000000") ∧
  EducationForm.deleteEducation (str "edu1700000000000") second.1 = [] ∧
  first.1 = [EducationForm.newEdu 1700000000000].
Proof. repeat split; vm_compute; reflexivity. Qed.

(** ** Updating a field of an entry *)

Section UpdateFacts.
Import ResumeTypes.

Lemma education_get_set f v e :
  EducationForm.get_field f (EducationForm.set_field f v e) = v.
Proof. by destruct f. Qed.

Lemma education_get_set_other f g v e :
  g ≠ f → EducationForm.get_field g (EducationForm.set_field f v e)
          = EducationForm.get_field g e.
Proof. by destruct f, g. Qed.

Lemma education_set_keeps f v e :
  EducationForm.id (EducationForm.set_field f v e) = EducationForm.id e ∧
  EducationForm.achievements (EducationForm.set_field f v e)
    = EducationForm.achievements e.
Proof. by destruct f. Qed.

Lemma experience_get_set f v e :
  ExperienceForm.get_field f (ExperienceForm.set_field f v e) = v.
Proof. by destruct f. Qed.

Lemma experience_get_set_other f g v e :
  g ≠ f → ExperienceForm.get_field g (ExperienceForm.set_field f v e)
          = ExperienceForm.get_field g e.
Proof. by destruct f, g. Qed.

Lemma experience_set_keeps f v e :
  ExperienceForm.id (ExperienceForm.set_field f v e) = ExperienceForm.id e ∧
  ExperienceForm.type (ExperienceForm.set_field f v e) = ExperienceForm.type e ∧
  ExperienceForm.technologies (ExperienceForm.set_field f v e)
    = ExperienceForm.technologies e ∧
  ExperienceForm.repoId (ExperienceForm.set_field f v e) = ExperienceForm.repoId e ∧
  ExperienceForm.repoData (ExperienceForm.set_field f v e)
    = ExperienceForm.repoData e.
Proof. by destruct f. Qed.

Lemma validateField_other_keys errs id0 f v k :
  k ≠ EducationForm.error_key id0 f →
  (EducationForm.validateField errs id0 f v).1 !! k = errs !! k.
Proof.
  intros Hk. assert (EducationForm.error_key id0 f ≠ k) as Hk' by congruence.
  unfold EducationForm.validateField. cbn [fst].
  repeat match goal with
         | |- context [if ?b then _ else _] => destruct b
         | |- context [match ?o with Some _ => _ | None => _ end] => destruct o
         end;
    repeat first [ rewrite lookup_insert_ne by exact Hk'
                 | rewrite lookup_delete_ne by exact Hk' ];
    reflexivity.
Qed.

Lemma validateField_date errs id0 f v :
  f = EducationForm.StartDate ∨ f = EducationForm.EndDate →
  is_Some ((EducationForm.validateField errs id0 f v).1
             !! EducationForm.error_key id0 f) ↔
  v ≠ [] ∧ validateDate v = false.
Proof.
  intros [-> | ->]; unfold EducationForm.validateField;
    repeat first [ rewrite bool_decide_eq_true_2 by done
                 | rewrite bool_decide_eq_false_2 by done ];
    cbn [fst orb];
    (destruct v as [|c v]; cbn [truthy andb];
     [rewrite lookup_delete_eq; split; [by intros [? ?] | by intros [? _]]|]);
    (destruct (validateDate (c :: v)); cbn [negb];
     [rewrite lookup_delete_eq; split; [by intros [? ?] | by intros [_ ?]]
     |rewrite lookup_insert_eq; split; [done | eauto]]).
Qed.

Lemma validateField_gpa errs id0 v :
  is_Some ((EducationForm.validateField errs id0 EducationForm.Gpa v).1
             !! EducationForm.error_key id0 EducationForm.Gpa) ↔
  EducationForm.gpa_passes errs id0 v = false.
Proof.
  unfold EducationForm.gpa_passes. rewrite bool_decide_eq_false.
  rewrite <- not_eq_None_Some. done.
Qed.

Lemma validateField_plain errs id0 f v :
  f ∈ [EducationForm.Institution; EducationForm.Degree; EducationForm.Field] →
  (EducationForm.validateField errs id0 f v).1 = errs.
Proof.
  intros Hf. unfold EducationForm.validateField.
  repeat (apply elem_of_cons in Hf as [->|Hf]);
    [by repeat rewrite bool_decide_eq_false_2 by done..|].
  by apply elem_of_nil in Hf.
Qed.

End UpdateFacts.

(** C5 as stated fails on the code for the experience section: an update
    with a date outside the date grammar leaves no trace of a validation
    failure there, while the same update of an education entry records
    one. *)
Lemma experience_update_records_no_validation_failure :
  ResumeTypes.validateDate (str "2020-13") = false ∧
  SectionModel.field_errors
    (SectionModel.update (str "exp1") ExperienceForm.StartDate (str "2020-13")
       [Samples.experience] (ExperienceForm.mkState [] false false)).2
    !! (str "exp1" ++ str "-" ++ SectionModel.field_key ExperienceForm.StartDate)
    = None ∧
  SectionModel.field_errors
    (SectionModel.update (str "edu1") EducationForm.StartDate (str "2020-13")
       [Samples.education] (EducationForm.mkState None ∅)).2
    !! (str "edu1" ++ str "-" ++ SectionModel.field_key EducationForm.StartDate)
    = Some (str "Invalid date format (use YYYY-MM or Present)").
Proof. repeat split; vm_compute; reflexivity. Qed.

(** C5 (amended): an update writes the sanitized value into every entry
    whose id matches and leaves the other entries, and the other fields,
    as they were; nothing makes the write depend on a validation.  The
    education section validates the raw value: a date field is recorded
    under the key id-field exactly when the value is non-empty and outside
    the date grammar, the GPA field exactly when the GPA check fails, the
    other fields never, and no other key changes.  The experience section
    sanitizes (the description with the rich sanitizer) and validates
    nothing: it keeps no error map and its state is unchanged; besides
    the field written, the type, the technologies and the repository
    link of an entry stay as they were. *)
Theorem update_writes_whatever_the_validation :
  (∀ id0 f value data st,
     let out := EducationForm.updateEducation id0 f value data st in
     length out.1 = length data ∧
     (∀ i edu, data !! i = Some edu →
        ∃ edu', out.1 !! i = Some edu' ∧
          EducationForm.id edu' = EducationForm.id edu ∧
          EducationForm.achievements edu' = EducationForm.achievements edu ∧
          (EducationForm.id edu = id0 →
             EducationForm.get_field f edu' = ResumeTypes.sanitizeString value ∧
             ∀ g, g ≠ f → EducationForm.get_field g edu' = EducationForm.get_field g edu) ∧
          (EducationForm.id edu ≠ id0 → edu' = edu)) ∧
     (∀ k, k ≠ EducationForm.error_key id0 f →
        EducationForm.validationErrors out.2 !! k
          = EducationForm.validationErrors st !! k) ∧
     (f = EducationForm.StartDate ∨ f = EducationForm.EndDate →
        (is_Some (EducationForm.validationErrors out.2 !! EducationForm.error_key id0 f)
         ↔ value ≠ [] ∧ ResumeTypes.validateDate value = false)) ∧
     (f = EducationForm.Gpa →
        (is_Some (EducationForm.validationErrors out.2 !! EducationForm.error_key id0 f)
         ↔ EducationForm.gpa_passes (EducationForm.validationErrors st) id0 value = false)) ∧
     (f ∈ [EducationForm.Institution; EducationForm.Degree; EducationForm.Field] →
        EducationForm.validationErrors out.2 = EducationForm.validationErrors st)) ∧
  (∀ id0 f value data st,
     let out := SectionModel.update (model := SectionModel.experience_model)
                  id0 f value data st in
     out.1 = ExperienceForm.updateExperience id0 f value data ∧
     out.2 = st ∧
     SectionModel.field_errors out.2 = ∅ ∧
     length out.1 = length data ∧
     (∀ i exp, data !! i = Some exp →
        ∃ exp', out.1 !! i = Some exp' ∧
          ExperienceForm.id exp' = ExperienceForm.id exp ∧
          ExperienceForm.type exp' = ExperienceForm.type exp ∧
          ExperienceForm.technologies exp' = ExperienceForm.technologies exp ∧
          ExperienceForm.repoId exp' = ExperienceForm.repoId exp ∧
          ExperienceForm.repoData exp' = ExperienceForm.repoData exp ∧
          (ExperienceForm.id exp = id0 →
             ExperienceForm.get_field f exp'
               = (if decide (f = ExperienceForm.Description)
                  then ResumeTypes.sanitizeDescription value
                  else ResumeTypes.sanitizeString value) ∧
             ∀ g, g ≠ f → ExperienceForm.get_field g exp' = ExperienceForm.get_field g exp) ∧
          (ExperienceForm.id exp ≠ id0 → exp' = exp))).
Proof.
  split.
  - intros id0 f value data st out. subst out.
    unfold EducationForm.updateEducation. cbn [fst snd EducationForm.validationErrors].
    split; [apply length_fmap|]. split; [|split; [|split; [|split]]].
    + intros i edu Hi. rewrite list_lookup_fmap, Hi. cbn [fmap option_fmap option_map].
      eexists. split; [reflexivity|].
      destruct (decide (EducationForm.id edu = id0)) as [He|He].
      * destruct (education_set_keeps f (ResumeTypes.sanitizeString value) edu) as [-> ->].
        repeat split; [| |done].
        -- apply education_get_set.
        -- intros g Hg. by apply education_get_set_other.
      * repeat split; done.
    + intros k Hk. by apply validateField_other_keys.
    + apply validateField_date.
    + intros ->. apply validateField_gpa.
    + apply validateField_plain.
  - intros id0 f value data st out. subst out. cbn [SectionModel.update
      SectionModel.experience_model SectionModel.field_errors fst snd].
    repeat split; [apply length_fmap|].
    intros i exp Hi. unfold ExperienceForm.updateExperience.
    rewrite list_lookup_fmap, Hi. cbn [fmap option_fmap option_map].
    eexists. split; [reflexivity|].
    destruct (decide (ExperienceForm.id exp = id0)) as [He|He].
    + destruct (experience_set_keeps f
                  (if decide (f = ExperienceForm.Description)
                   then ResumeTypes.sanitizeDescription value
                   else ResumeTypes.sanitizeString value) exp)
        as (Hid & Hty & Htech & Hrepo & Hdata).
      split; [exact Hid|]. split; [exact Hty|]. split; [exact Htech|].
      split; [exact Hrepo|]. split; [exact Hdata|]. split; [|done]. intros _. split.
      * apply experience_get_set.
      * intros g Hg. by apply experience_get_set_other.
    + repeat split; done.
Qed.

(** The amended C5 at a concrete update: an out-of-range month is written
    into the entry and recorded. *)
Lemma update_writes_whatever_the_validation_witness :
  is_Some (EducationForm.validationErrors
             (EducationForm.updateEducation (str "edu1") EducationForm.StartDate
                (str "2020-13") [Samples.education] (EducationForm.mkState None ∅)).2
             !! EducationForm.error_key (str "edu1") EducationForm.StartDate).
Proof.
  apply (proj1 (proj2 (proj2 (proj2 (proj1 update_writes_whatever_the_validation
           (str "edu1") EducationForm.StartDate (str "2020-13")
           [Samples.education] (EducationForm.mkState None ∅)))))).
  - by left.
  - split; [discriminate | vm_compute; reflexivity].
Defined.

(** * Part III: the rest of the forms *)

(** ** Contact details *)

Section ContactFacts.
Import RegExp ResumeTypes.

Lemma plus_char_reads p x y :
  matches (Plus (Char p)) x y →
  ∃ w, w ≠ [] ∧ Forall (λ c, p c = true) w ∧
       remaining x = w ++ remaining y ∧ consumed y = rev w ++ consumed x ∧
       captures y = captures x.
Proof.
  intros (m & (c & rest & Hr & Hp & ->) & Hit).
  apply iterate_char_reads in Hit as (w & Hw & [Ha Hb] & Hc).
  cbn [remaining consumed captures] in *.
  exists (c :: w). repeat split; [done|by constructor|by rewrite Hr, Ha| |done].
  rewrite Hb. simpl. by rewrite <- app_assoc.
Qed.

Lemma plus_char_intro p w pre rest caps :
  w ≠ [] → Forall (λ c, p c = true) w →
  matches (Plus (Char p)) (MState pre (w ++ rest) caps)
    (MState (rev w ++ pre) rest caps).
Proof.
  intros Hne Hw. destruct w as [|c w]; [done|].
  inversion Hw as [|? ? Hc Hw']; subst.
  exists (MState (c :: pre) (w ++ rest) caps). split.
  - exists c, (w ++ rest). by repeat split.
  - simpl. rewrite <- app_assoc. simpl. by apply iterate_char_intro.
Qed.

Lemma test_anchored r s :
  test (Seq InputStart r) s = true ↔ ∃ z, matches r (MState [] s ∅) z.
Proof.
  rewrite <- search_anchored. unfold test.
  destruct (search _ _ _) as [z|].
  - split; [by eauto|done].
  - split; [done|]. by intros [? ?].
Qed.

Lemma test_emailRegex s : test emailRegex s = true ↔ email_shape s.
Proof.
  unfold emailRegex. rewrite test_anchored. split.
  - intros (z & m1 & H1 & m2 & (c2 & r2 & Hr2 & Hc2 & ->) & m3 & H3 & m4
            & (c4 & r4 & Hr4 & Hc4 & ->) & m5 & H5 & -> & Hend).
    apply plus_char_reads in H1 as (name & ? & ? & Hn & _).
    apply plus_char_reads in H3 as (domain & ? & ? & Hd & _).
    apply plus_char_reads in H5 as (tld & ? & ? & Ht & _).
    cbn [remaining consumed captures] in *.
    apply N.eqb_eq in Hc2, Hc4. subst c2 c4.
    exists name, domain, tld. repeat split; try done.
    rewrite Hn, Hr2, Hd, Hr4, Ht, Hend. by rewrite app_nil_r.
  - intros (name & domain & tld & -> & ? & ? & ? & ? & ? & ?).
    eexists. eexists. split; [by apply plus_char_intro|].
    eexists. split; [eexists _, _; split; [reflexivity|]; split; [apply N.eqb_refl|reflexivity]|].
    cbn [remaining consumed captures].
    eexists. split; [by apply plus_char_intro|].
    eexists. split; [eexists _, _; split; [reflexivity|]; split; [apply N.eqb_refl|reflexivity]|].
    cbn [remaining consumed captures].
    eexists. split.
    + rewrite <- (app_nil_r tld) at 1. by apply plus_char_intro.
    + by split.
Qed.

Lemma test_phoneRegex s :
  test phoneRegex s = true ↔ s ≠ [] ∧ Forall (λ c, phone_char c = true) s.
Proof.
  unfold phoneRegex. rewrite test_anchored. split.
  - intros (z & m1 & H1 & -> & Hend).
    apply plus_char_reads in H1 as (w & ? & ? & Hw & _).
    cbn [remaining] in Hw. rewrite Hend, app_nil_r in Hw. by subst.
  - intros [Hne Hs]. eexists. eexists. split.
    + rewrite <- (app_nil_r s) at 1. by apply plus_char_intro.
    + by split.
Qed.

Lemma email_char_spec c :
  email_char c = true ↔ is_space c = false ∧ c ≠ chr "@".
Proof.
  unfold email_char, is_char.
  rewrite negb_true_iff, orb_false_iff, N.eqb_neq. done.
Qed.

End ContactFacts.

(** X1: an e-mail address is accepted exactly when it reads
    name, ['@'], domain, ['.'], ending, where the three parts are
    non-empty and hold neither white space nor ['@'].  An accepted
    address therefore holds exactly one ['@'] and no white space, and
    nothing else is asked of it. *)
Theorem validateEmail_accepts_exactly (s : jsstring) :
  (ResumeTypes.validateEmail s = true ↔ ResumeTypes.email_shape s) ∧
  (ResumeTypes.validateEmail s = true →
     Forall (λ c, is_space c = false) s ∧
     length (filter (λ c, c = chr "@") s) = 1%nat).
Proof.
  unfold ResumeTypes.validateEmail. split; [apply test_emailRegex|].
  rewrite test_emailRegex.
  intros (name & domain & tld & -> & _ & _ & _ & Hn & Hd & Ht).
  assert (∀ w, Forall (λ c, ResumeTypes.email_char c = true) w →
               Forall (λ c, is_space c = false) w ∧
               filter (λ c, c = chr "@") w = []) as Hpart.
  { induction 1 as [|c w Hc _ [IH1 IH2]]; [done|].
    apply email_char_spec in Hc as [Hsp Hat]. split; [by constructor|].
    by rewrite filter_cons_False. }
  destruct (Hpart _ Hn) as [Hn1 Hn2], (Hpart _ Hd) as [Hd1 Hd2],
    (Hpart _ Ht) as [Ht1 Ht2].
  split.
  - apply Forall_app. split; [done|]. constructor; [done|].
    apply Forall_app. split; [done|]. by constructor.
  - rewrite filter_app, Hn2, filter_cons_True by done.
    rewrite filter_app, Hd2, filter_cons_False by done.
    by rewrite Ht2.
Qed.

(** X2: a phone number is accepted exactly when it is at least ten
    code units long and made only of digits, white space and the signs
    [-], [+], [(] and [)].  No digit is asked for. *)
Theorem validatePhone_accepts_exactly (s : jsstring) :
  ResumeTypes.validatePhone s = true ↔
  (10 ≤ length s)%nat ∧ Forall (λ c, ResumeTypes.phone_char c = true) s.
Proof.
  unfold ResumeTypes.validatePhone.
  rewrite andb_true_iff, Nat.leb_le, test_phoneRegex. split.
  - by intros (? & _ & ?).
  - intros [Hlen Hs]. repeat split; try done. intros ->. simpl in Hlen. lia.
Qed.

(** ** What the sanitizers keep *)

Section SanitizeMore.
Import RegExp ResumeTypes.

Lemma trim_sublist s : sublist (trim s) s.
Proof.
  destruct (trim_substring s) as (a & b & Hab). rewrite Hab at 2.
  apply sublist_inserts_l, sublist_inserts_r. done.
Qed.

Lemma trimStart_app_spaces ws s :
  Forall (λ c, is_space c = true) ws → trimStart (ws ++ s) = trimStart s.
Proof. induction 1 as [|c ws Hc _ IH]; simpl; [done|]. by rewrite Hc. Qed.

Lemma trimStart_app s t :
  trimStart s ≠ [] → trimStart (s ++ t) = trimStart s ++ t.
Proof.
  induction s as [|c s IH]; simpl; [done|].
  destruct (is_space c); [apply IH | done].
Qed.

Lemma trimEnd_app_spaces s ws :
  Forall (λ c, is_space c = true) ws → trimEnd (s ++ ws) = trimEnd s.
Proof.
  intros Hws. unfold trimEnd. rewrite rev_app_distr.
  rewrite trimStart_app_spaces; [done|]. by apply Forall_rev.
Qed.

(** White space around a text does not change what [trim] leaves. *)
Lemma trim_spaces_around ws1 s ws2 :
  Forall (λ c, is_space c = true) ws1 → Forall (λ c, is_space c = true) ws2 →
  trim (ws1 ++ s ++ ws2) = trim s.
Proof.
  intros H1 H2. unfold trim. rewrite trimStart_app_spaces by done.
  destruct (decide (trimStart s = [])) as [He|Hne].
  - rewrite He. apply trimStart_spaces in He.
    assert (trimStart (s ++ ws2) = []) as ->; [|done].
    apply trimStart_spaces, Forall_app. done.
  - rewrite trimStart_app by done. by apply trimEnd_app_spaces.
Qed.

Lemma space_not_lt c : is_space c = true → c ≠ chr "<".
Proof. intros H ->. by vm_compute in H. Qed.

Lemma space_not_gt c : is_space c = true → c ≠ chr ">".
Proof. intros H ->. by vm_compute in H. Qed.

Lemma has_tag_drop_head c s : c ≠ chr "<" → has_tag (c :: s) → has_tag s.
Proof. intros Hc Ht. by apply has_tag_inv in Ht as [?|[? _]]. Qed.

Lemma has_tag_drop_last s c : c ≠ chr ">" → has_tag (s ++ [c]) → has_tag s.
Proof.
  intros Hc (a & body & b & Heq & Hne & Hb).
  destruct b as [|d b _] using rev_ind.
  - exfalso. apply Hc.
    change (a ++ chr "<" :: body ++ [chr ">"])
      with (a ++ (chr "<" :: body) ++ [chr ">"]) in Heq.
    rewrite !app_assoc in Heq. by apply app_inj_tail in Heq as [_ ->].
  - exists a, body, b. split; [|done].
    change (a ++ chr "<" :: body ++ chr ">" :: b ++ [d])
      with (a ++ (chr "<" :: body) ++ (chr ">" :: b) ++ [d]) in Heq.
    rewrite !app_assoc in Heq. apply app_inj_tail in Heq as [-> _].
    by rewrite <- !app_assoc.
Qed.

(** A tag never starts or ends in white space, so white space around a
    text adds no tag. *)
Lemma has_tag_spaces_around ws1 s ws2 :
  Forall (λ c, is_space c = true) ws1 → Forall (λ c, is_space c = true) ws2 →
  has_tag (ws1 ++ s ++ ws2) → has_tag s.
Proof.
  intros H1 H2. induction H1 as [|c ws1 Hc _ IH]; simpl.
  - induction ws2 as [|c ws2 IH] using rev_ind.
    + by rewrite app_nil_r.
    + apply Forall_app in H2 as [H2 Hc]. inversion Hc; subst.
      rewrite app_assoc. intros Ht. apply IH; [done|].
      eapply has_tag_drop_last; [|done]. by apply space_not_gt.
  - intros Ht. apply IH. eapply has_tag_drop_head; [|done]. by apply space_not_lt.
Qed.

(** A text without a complete tag is only trimmed. *)
Lemma tag_free_sanitizeString s : ¬ has_tag s → sanitizeString s = trim s.
Proof.
  intros Hf. unfold sanitizeString, remove_all.
  destruct s as [|c rest]; [done|]. cbn [truthy negb].
  rewrite remove_scripts_id by done. by rewrite remove_tags_id.
Qed.

Lemma tag_free_sanitizeDescription s : ¬ has_tag s → sanitizeDescription s = trim s.
Proof.
  intros Hf. unfold sanitizeDescription, remove_all.
  destruct s as [|c rest]; [done|]. cbn [truthy negb].
  by rewrite remove_scripts_id.
Qed.

Lemma trim_sanitizeString s : trim (sanitizeString s) = sanitizeString s.
Proof.
  unfold sanitizeString. destruct (negb (truthy s)); [done|]. apply trim_idem.
Qed.

Lemma clean_spec s : clean s ↔ ¬ has_tag s ∧ trim s = s.
Proof.
  unfold clean. split.
  - intros H. split; rewrite <- H;
      [apply sanitizeString_tag_free | apply trim_sanitizeString].
  - intros [? ?]. by apply sanitizeString_fixed.
Qed.

Lemma clean_sanitizeString s : clean (sanitizeString s).
Proof. apply sanitizeString_idem. Qed.

Lemma clean_nil : clean [].
Proof. done. Qed.

Lemma sanitizeString_spaces_around ws1 s ws2 :
  Forall (λ c, is_space c = true) ws1 → Forall (λ c, is_space c = true) ws2 →
  clean s → sanitizeString (ws1 ++ s ++ ws2) = s.
Proof.
  intros H1 H2 [Hf Ht]%clean_spec. rewrite tag_free_sanitizeString.
  - by rewrite trim_spaces_around.
  - intros Ht'. by apply has_tag_spaces_around in Ht'.
Qed.

End SanitizeMore.

(** X3: both sanitizers only delete: the output is the input with some
    code units left out, the others in their order.  Nothing is
    inserted, escaped or replaced. *)
Theorem sanitizers_only_delete (s : jsstring) :
  sublist (ResumeTypes.sanitizeString s) s ∧
  sublist (ResumeTypes.sanitizeDescription s) s.
Proof.
  unfold ResumeTypes.sanitizeString, ResumeTypes.sanitizeDescription,
    RegExp.remove_all.
  destruct (negb (truthy s)); [split; apply sublist_nil_l|]. split.
  - etrans; [apply trim_sublist|]. etrans; apply remove_all_from_sublist.
  - etrans; [apply trim_sublist|]. apply remove_all_from_sublist.
Qed.

(** X4: a text that holds no complete tag (no ['<'], one or more code
    units other than ['>'], then ['>']) is only trimmed, by the strict
    and by the rich sanitizer alike: a lone ['<'] or ['>'], as in a
    comparison, stays. *)
Theorem tag_free_text_is_only_trimmed (s : jsstring) :
  ¬ ResumeTypes.has_tag s →
  ResumeTypes.sanitizeString s = trim s ∧
  ResumeTypes.sanitizeDescription s = trim s.
Proof.
  intros Hf. split;
    [by apply tag_free_sanitizeString | by apply tag_free_sanitizeDescription].
Qed.

Lemma tag_free_text_is_only_trimmed_witness :
  ¬ ResumeTypes.has_tag (str " a < b ") ∧
  ResumeTypes.sanitizeString (str " a < b ") = trim (str " a < b ") ∧
  ResumeTypes.sanitizeDescription (str " a < b ") = trim (str " a < b ").
Proof.
  assert (¬ ResumeTypes.has_tag (str " a < b ")) as Hf.
  { intros (a & body & b & Heq & _).
    assert (chr ">" ∉ str " a < b ") as Hnin
      by (apply (bool_decide_unpack _); by vm_compute).
    apply Hnin. rewrite Heq. apply elem_of_app. right. apply elem_of_cons. right.
    apply elem_of_app. right. by left. }
  split; [exact Hf|]. exact (tag_free_text_is_only_trimmed _ Hf).
Defined.

(** ** A script block the rich sanitizer leaves *)

Section ScriptNesting.
Import RegExp ResumeTypes.

Lemma remove_skip r n pre c rest :
  exec_at r pre (c :: rest) = None →
  remove_all_from (S n) r pre (c :: rest) = c :: remove_all_from n r (c :: pre) rest.
Proof. intros H. simpl. by rewrite H. Qed.

Lemma remove_match r n pre post z :
  exec_at r pre post = Some z → (length (remaining z) < length post)%nat →
  remove_all_from (S n) r pre post = remove_all_from n r (consumed z) (remaining z).
Proof. intros H Hlt. simpl. rewrite H. apply Nat.ltb_lt in Hlt. by rewrite Hlt. Qed.

Lemma canonicalize_s_cases d :
  (canonicalize d =? canonicalize (chr "s")) = true →
  is_char "s" d || is_char "S" d = true.
Proof.
  unfold canonicalize, in_range, is_char. char_codes. simpl. intros H.
  apply N.eqb_eq in H. apply orb_true_iff. rewrite !N.eqb_eq.
  destruct (_ && _) eqn:Hr; [left|right]; lia.
Qed.

Lemma script_needs_opening pre post :
  no_script_opening post = true → exec_at scriptRegex pre post = None.
Proof.
  intros Hno. destruct (exec_at _ _ _) as [z|] eqn:He; [|done]. exfalso.
  apply exec_at_Some in He. unfold scriptRegex in He.
  destruct He as (m1 & Hopen & _). cbn [LitI matches] in Hopen.
  destruct Hopen as (? & (c0 & ? & Hp0 & Hc0 & ->) & ? & (c1 & ? & Hp1 & Hc1 & ->) & _).
  cbn [remaining consumed captures] in *. rewrite Hp0, Hp1 in Hno.
  apply canonicalize_lt in Hc0. apply canonicalize_s_cases in Hc1. subst c0.
  simpl in Hno. rewrite Hc1 in Hno. by vm_compute in Hno.
Qed.

Lemma no_script_opening_tail c rest :
  no_script_opening (c :: rest) = true → no_script_opening rest = true.
Proof. simpl. by intros [_ ?]%andb_true_iff. Qed.

Lemma remove_scripts_no_opening s n pre :
  no_script_opening s = true → remove_all_from n scriptRegex pre s = s.
Proof.
  apply (remove_all_from_id scriptRegex (λ s, no_script_opening s = true)).
  - apply no_script_opening_tail.
  - intros. by apply script_needs_opening.
Qed.

Lemma no_script_opening_app p t :
  Forall (λ c, c ≠ chr "<") p → no_script_opening t = true →
  no_script_opening (p ++ t) = true.
Proof.
  intros Hp Ht. induction Hp as [|c p Hc _ IH]; [done|].
  cbn [app no_script_opening]. rewrite IH.
  assert (is_char "<" c = false) as -> by by apply N.eqb_neq.
  done.
Qed.

Lemma trimEnd_fixed s c : is_space c = false → trimEnd (s ++ [c]) = s ++ [c].
Proof.
  intros H. unfold trimEnd. rewrite rev_app_distr. simpl. rewrite H.
  simpl. by rewrite rev_involutive.
Qed.

Lemma closing_matches pre rest caps :
  matches (LitI "</script>") (MState pre (str "</script>" ++ rest) caps)
    (MState (rev (str "</script>") ++ pre) rest caps).
Proof.
  cbn [str app LitI matches rev].
  repeat (eexists; split;
    [eexists _, _; split; [reflexivity|]; split; [by vm_compute|reflexivity]|];
    cbn [remaining consumed captures]).
  reflexivity.
Qed.

Lemma script_block_matches pre p rest :
  Forall (λ c, c ≠ chr "<") p →
  is_Some (exec_at scriptRegex pre (str "<script>" ++ p ++ str "</script>" ++ rest)).
Proof.
  intros Hp. eapply exec_at_is_Some. unfold scriptRegex.
  eexists. split.
  { cbn [str app LitI matches].
    repeat (eexists; split;
      [eexists _, _; split; [reflexivity|]; split; [by vm_compute|reflexivity]|];
      cbn [remaining consumed captures]).
    reflexivity. }
  eexists. split; [split; [reflexivity|by vm_compute]|].
  eexists. split.
  { apply (iterate_char_intro _ (chr ">" :: p)).
    constructor; [by vm_compute|]. by apply Forall_not_char. }
  eexists. split; [apply iterate_done|].
  apply closing_matches.
Qed.

Lemma script_match_first pre rest z :
  exec_at scriptRegex pre (str "<script></script>" ++ rest) = Some z →
  remaining z = rest.
Proof.
  intros H. apply exec_at_Some in H. unfold scriptRegex in H.
  destruct H as (m1 & Hopen & m2 & [-> _] & m3 & H3 & m4 & H4 & Hclose).
  cbn [str app LitI matches] in Hopen.
  repeat match type of Hopen with
  | ∃ _, _ => 
      let Hr := fresh "Hr" in
      destruct Hopen as (? & (? & ? & Hr & _ & ->) & Hopen);
      cbn [remaining consumed captures] in Hr; injection Hr as <- <-;
      cbn [remaining consumed captures] in Hopen
  end.
  subst m1.
  apply iterate_char_reads in H3 as (w & Hw & [Ha _] & _).
  cbn [remaining consumed captures] in Ha.
  assert (remaining m3 = str "</script>" ++ rest
          ∨ remaining m3 = chr ">" :: str "</script>" ++ rest) as Hr3.
  { destruct w as [|a [|b w]]; simpl in Ha.
    - right. by rewrite <- Ha.
    - left. by injection Ha as _ <-.
    - exfalso. injection Ha as _ Hb _.
      apply Forall_cons in Hw as [_ [Hb' _]%Forall_cons].
      rewrite <- Hb in Hb'. by vm_compute in Hb'. }
  assert (m4 = m3) as ->.
  { inversion H4 as [|? y ? Hstep _ _]; [done|]. subst. exfalso.
    destruct Hstep as (? & [-> Hno] & ? & (c & r & Hr & Hc & ->) & _).
    destruct m3 as [c3 r3 caps3]. cbn [remaining consumed captures] in *.
    destruct Hr3 as [->| ->].
    - eapply Hno, closing_matches.
    - injection Hr as <- _. by vm_compute in Hc. }
  destruct m3 as [c3 r3 caps3]. cbn [remaining consumed captures] in *.
  destruct Hr3 as [->| ->].
  - cbn [str app LitI matches] in Hclose.
    repeat match type of Hclose with
    | ∃ _, _ =>
      let Hr := fresh "Hr" in
      destruct Hclose as (? & (? & ? & Hr & _ & ->) & Hclose);
      cbn [remaining consumed captures] in Hr; injection Hr as <- <-;
      cbn [remaining consumed captures] in Hclose
    end.
    by subst z.
  - cbn [LitI matches] in Hclose.
    destruct Hclose as (? & (c & r & Hr & Hc & ->) & _).
    cbn [remaining] in Hr. injection Hr as <- _. by vm_compute in Hc.
Qed.
Lemma remove_scripts_nested p n :
  Forall (λ c, c ≠ chr "<") p →
  (length (str "<scr<script></script>ipt>" ++ p ++ str "</script>") < n)%nat →
  remove_all_from n scriptRegex []
    (str "<scr<script></script>ipt>" ++ p ++ str "</script>")
  = str "<script>" ++ p ++ str "</script>".
Proof.
  intros Hp Hn. do 5 (destruct n as [|n]; [simpl in Hn; lia|]). clear Hn.
  cbn [str app].
  do 4 (rewrite remove_skip by (vm_compute; reflexivity)).
  destruct (script_block_matches [chr "r"; chr "c"; chr "s"; chr "<"] []
              (str "ipt>" ++ p ++ str "</script>")) as [z Hz]; [done|].
  pose proof (script_match_first _ _ _ Hz) as Hrem.
  rewrite (remove_match _ _ _ _ z) by (exact Hz || (rewrite Hrem; simpl; lia)).
  rewrite Hrem.
  rewrite remove_scripts_no_opening; [done|].
  apply (no_script_opening_app (_ :: _ :: _ :: _ :: p)); [|by vm_compute].
  repeat (constructor; [by vm_compute|]). done.
Qed.

End ScriptNesting.

(** X5: the rich sanitizer makes one pass, and what it deletes can
    bring the halves of a script block together.  From a block opened
    by [<scr<script></script>ipt>], with any payload that holds no
    ['<'], it returns [<script>], the payload and [</script>]: a
    complete script block, which the sanitizer's own pattern still
    finds. *)
Theorem sanitizeDescription_leaves_nested_script (payload : jsstring) :
  Forall (λ c, c ≠ chr "<") payload →
  ResumeTypes.sanitizeDescription
    (str "<scr<script></script>ipt>" ++ payload ++ str "</script>")
  = str "<script>" ++ payload ++ str "</script>" ∧
  RegExp.test ResumeTypes.scriptRegex
    (str "<script>" ++ payload ++ str "</script>") = true.
Proof.
  intros Hp. split.
  - unfold ResumeTypes.sanitizeDescription, RegExp.remove_all.
    change (negb (truthy (str "<scr<script></script>ipt>" ++ payload
                            ++ str "</script>"))) with false.
    cbv iota.
    rewrite remove_scripts_nested by (done || lia).
    assert (str "<script>" ++ payload ++ str "</script>"
            = chr "<" :: (str "script>" ++ payload ++ str "</script") ++ [chr ">"])
      as Heq by (by rewrite <- !app_assoc).
    rewrite Heq. unfold trim. rewrite trimStart_fixed by (by vm_compute).
    rewrite app_comm_cons. by rewrite trimEnd_fixed by (by vm_compute).
  - destruct (script_block_matches [] payload [] Hp) as [z Hz].
    rewrite app_nil_r in Hz. unfold RegExp.test.
    destruct (str "<script>" ++ payload ++ str "</script>") eqn:Hs; [done|].
    simpl. by rewrite Hz.
Qed.

Lemma sanitizeDescription_leaves_nested_script_witness :
  Forall (λ c, c ≠ chr "<") (str "alert(1)") ∧
  ResumeTypes.sanitizeDescription
    (str "<scr<script></script>ipt>" ++ str "alert(1)" ++ str "</script>")
  = str "<script>" ++ str "alert(1)" ++ str "</script>" ∧
  RegExp.test ResumeTypes.scriptRegex
    (str "<script>" ++ str "alert(1)" ++ str "</script>") = true.
Proof.
  assert (Forall (λ c, c ≠ chr "<") (str "alert(1)")) as Hp
    by (repeat constructor; by vm_compute).
  split; [exact Hp|]. exact (sanitizeDescription_leaves_nested_script _ Hp).
Defined.

(** ** The personal section *)

Section PersonalFacts.
Import ResumeTypes ResumeForm.

Lemma set_personal_same f p : set_personal (SetText f (get_text f p)) p = p.
Proof. by destruct f, p. Qed.

Lemma updatePersonalInfo_same f st :
  updatePersonalInfo (SetText f (get_text f (personalInfo (formData st)))) st = st.
Proof.
  unfold updatePersonalInfo. rewrite set_personal_same.
  by destruct st as [? [] ? ?].
Qed.

Lemma map_fixed {A : Type} (g : A → A) (l : list A) :
  (∀ x, x ∈ l → g x = x) → g <$> l = l.
Proof.
  intros H. induction l as [|x l IH]; [done|]. simpl.
  rewrite H by by left. f_equal. apply IH. intros y Hy. apply H. by right.
Qed.

Lemma education_set_same f e :
  EducationForm.set_field f (EducationForm.get_field f e) e = e.
Proof. by destruct f, e. Qed.

End PersonalFacts.

(** X6: white space typed at either end of a field of the personal
    section is lost at once.  When the stored text is a sanitized
    value, the change handler called with that text and white space
    before or after it leaves the whole form state as it was. *)
Theorem typed_space_is_dropped (f : ResumeForm.text_field) (ws1 ws2 : jsstring)
    (st : ResumeForm.state) :
  let stored := ResumeForm.get_text f (ResumeForm.personalInfo (ResumeForm.formData st)) in
  ResumeTypes.clean stored →
  Forall (λ c, is_space c = true) ws1 →
  Forall (λ c, is_space c = true) ws2 →
  ResumeForm.updatePersonalInfo
    (PersonalInfoForm.handleChange f (ws1 ++ stored ++ ws2)) st = st.
Proof.
  intros stored Hc H1 H2. unfold PersonalInfoForm.handleChange.
  rewrite sanitizeString_spaces_around by done. apply updatePersonalInfo_same.
Qed.

Lemma typed_space_is_dropped_witness :
  ResumeTypes.clean (str "Ada Lovelace") ∧
  Forall (λ c, is_space c = true) (str "") ∧
  Forall (λ c, is_space c = true) (str " ") ∧
  ResumeForm.updatePersonalInfo
    (PersonalInfoForm.handleChange ResumeForm.FullName
       (str "" ++ str "Ada Lovelace" ++ str " "))
    (ResumeForm.initial
       (ResumeForm.mkResumeData
          (ResumeForm.mkPersonalInfo (str "Ada Lovelace") [] [] [] [] [] [] [] true)
          [] [] []))
  = ResumeForm.initial
       (ResumeForm.mkResumeData
          (ResumeForm.mkPersonalInfo (str "Ada Lovelace") [] [] [] [] [] [] [] true)
          [] [] []).
Proof.
  assert (ResumeTypes.clean (str "Ada Lovelace")) as Hc by (by vm_compute).
  assert (Forall (λ c, is_space c = true) (str "")) as H1 by constructor.
  assert (Forall (λ c, is_space c = true) (str " ")) as H2
    by (repeat constructor).
  split; [exact Hc|]. split; [exact H1|]. split; [exact H2|].
  exact (typed_space_is_dropped ResumeForm.FullName (str "") (str " ")
           (ResumeForm.initial
              (ResumeForm.mkResumeData
                 (ResumeForm.mkPersonalInfo (str "Ada Lovelace") [] [] [] [] [] [] [] true)
                 [] [] []))
           Hc H1 H2).
Defined.

(** X7: the same in the education form: when every entry that carries
    the identifier holds the sanitized value [stored] in the field,
    updating the field with [stored] and white space around it hands
    the unchanged list to [onChange]. *)
Theorem education_typed_space_is_dropped (id0 : jsstring)
    (f : EducationForm.field_name) (stored ws1 ws2 : jsstring)
    (data : list EducationForm.Education) (st : EducationForm.state) :
  ResumeTypes.clean stored →
  Forall (λ c, is_space c = true) ws1 →
  Forall (λ c, is_space c = true) ws2 →
  (∀ e, e ∈ data → EducationForm.id e = id0 → EducationForm.get_field f e = stored) →
  (EducationForm.updateEducation id0 f (ws1 ++ stored ++ ws2) data st).1 = data.
Proof.
  intros Hc H1 H2 Hdata. unfold EducationForm.updateEducation. cbn [fst].
  rewrite sanitizeString_spaces_around by done.
  apply map_fixed. intros e He. destruct (decide _) as [Hid|]; [|done].
  rewrite <- (Hdata e He Hid). apply education_set_same.
Qed.

Lemma education_typed_space_is_dropped_witness :
  ResumeTypes.clean (str "Stanford") ∧
  (EducationForm.updateEducation (str "edu1") EducationForm.Institution
     (str "" ++ str "Stanford" ++ str " ")
     [EducationForm.mkEducation (str "edu1") (str "Stanford") [] [] [] [] [] []]
     (EducationForm.mkState None ∅)).1
  = [EducationForm.mkEducation (str "edu1") (str "Stanford") [] [] [] [] [] []].
Proof.
  assert (ResumeTypes.clean (str "Stanford")) as Hc by (by vm_compute).
  split; [exact Hc|].
  apply (education_typed_space_is_dropped (str "edu1") EducationForm.Institution
           (str "Stanford") (str "") (str " ")); [exact Hc|constructor|repeat constructor|].
  intros e He _. apply list_elem_of_singleton in He. by subst e.
Defined.

(** X8: an upload changes the picture only when it fully succeeds.
    When the file is present, of an allowed type, at most 5242880 bytes
    large (the bound itself is accepted) and its conversion succeeds,
    the handler stores the converted text as the profile image, shows
    it as the preview and clears the error.  In every other case it
    makes no call to [onChange] and keeps the preview; without a file it
    changes nothing at all, and a rejected file or a failed conversion
    leaves a message. *)
Theorem picture_changes_only_on_full_success (file : option ResumeTypes.File)
    (converted : option jsstring) (st : PersonalInfoForm.state) :
  let accepted (f : ResumeTypes.File) :=
    ResumeTypes.file_type f ∈ ResumeTypes.allowedTypes
    ∧ (ResumeTypes.file_size f ≤ 5242880)%N in
  let result := PersonalInfoForm.handleImageUpload file converted st in
  (∀ f base64, file = Some f → accepted f → converted = Some base64 →
     result = (PersonalInfoForm.mkState (Some base64) [],
               [ResumeForm.SetText ResumeForm.ProfileImage base64])) ∧
  ((¬ ∃ f base64, file = Some f ∧ accepted f ∧ converted = Some base64) →
     result.2 = []
     ∧ PersonalInfoForm.imagePreview result.1 = PersonalInfoForm.imagePreview st) ∧
  (file = None → result = (st, [])) ∧
  (∀ f, file = Some f → ¬ (accepted f ∧ is_Some converted) →
     PersonalInfoForm.imageError result.1 ≠ []).
Proof.
  intros accepted result. subst accepted result.
  unfold PersonalInfoForm.handleImageUpload, ResumeTypes.validateImageFile,
    ResumeTypes.maxSize.
  destruct file as [f|]; [|by repeat split].
  destruct (bool_decide_reflect (ResumeTypes.file_type f ∈ ResumeTypes.allowedTypes))
    as [Hty|Hty]; cbn [negb ResumeTypes.valid ResumeTypes.error];
    [destruct (N.ltb_spec (5 * 1024 * 1024) (ResumeTypes.file_size f)) as [Hsz|Hsz];
     cbn [negb ResumeTypes.valid ResumeTypes.error];
     [|destruct converted as [b|]]|];
    cbn [fst snd PersonalInfoForm.imagePreview PersonalInfoForm.imageError
         default from_option Datatypes.id];
    (split; [|split; [|split]]).
  all: try done.
  - intros f' b [= <-] [_ Hs] _. lia.
  - by intros f' b' [= <-] _ [= <-].
  - intros Hno. exfalso. apply Hno. exists f, b. repeat split; [done|lia].
  - intros f' [= <-] Hno. exfalso. apply Hno. repeat split; [done|lia|by eexists].
  - intros f' b [= <-] [Hy _] _. done.
Qed.

(** ** Achievements and the education entries *)

Section AchievementFacts.
Import ResumeTypes EducationForm.

Lemma imap_insert {A : Type} (v : A) (l : list A) : ∀ index,
  imap (λ i a, if decide (i = index) then v else a) l = <[index := v]> l.
Proof.
  induction l as [|x l IH]; intros index; [done|].
  destruct index as [|n]; simpl; f_equal.
  - etrans; [apply (imap_ext _ (const Datatypes.id)); by intros|].
    by rewrite imap_const, list_fmap_id.
  - rewrite <- IH. apply imap_ext. intros i y _. simpl.
    destruct (decide (S i = S n)), (decide (i = n)); done || lia.
Qed.

Lemma filter_index_all {A : Type} (keep : nat → bool) (l : list A) : ∀ k,
  (∀ i, (k ≤ i)%nat → keep i = true) → filter_index keep k l = l.
Proof.
  induction l as [|x l IH]; intros k Hk; [done|]. simpl.
  rewrite Hk by lia. f_equal. apply IH. intros i Hi. apply Hk. lia.
Qed.

Lemma filter_index_delete {A : Type} (l : list A) : ∀ k index,
  filter_index (λ i, negb (i =? k + index)%nat) k l = delete index l.
Proof.
  induction l as [|x l IH]; intros k index; [done|].
  destruct index as [|n]; simpl.
  - rewrite Nat.add_0_r, Nat.eqb_refl. simpl. apply filter_index_all.
    intros i Hi. apply negb_true_iff, Nat.eqb_neq. lia.
  - assert ((k =? k + S n)%nat = false) as -> by (apply Nat.eqb_neq; lia).
    simpl. f_equal. rewrite <- (IH (S k) n).
    by replace (S k + n)%nat with (k + S n)%nat by lia.
Qed.

Lemma delete_last {A : Type} (l : list A) (x : A) : delete (length l) (l ++ [x]) = l.
Proof. induction l as [|y l IH]; simpl; [done | by rewrite IH]. Qed.

Lemma delete_past_end {A : Type} (l : list A) : ∀ i,
  (length l ≤ i)%nat → delete i l = l.
Proof.
  induction l as [|x l IH]; intros [|i] Hi; simpl in *; [done|done|lia|].
  f_equal. apply IH. lia.
Qed.

Lemma set_achievements_same e : set_achievements (achievements e) e = e.
Proof. by destruct e. Qed.

Lemma updateAchievement_insert eduId index value data :
  updateAchievement eduId index value data
  = (λ edu, if decide (id edu = eduId)
            then set_achievements
                   (<[index := sanitizeString value]> (achievements edu)) edu
            else edu) <$> data.
Proof.
  unfold updateAchievement. apply list_fmap_ext. intros _ e _.
  by rewrite imap_insert.
Qed.

Lemma deleteAchievement_delete eduId index data :
  deleteAchievement eduId index data
  = (λ edu, if decide (id edu = eduId)
            then set_achievements (delete index (achievements edu)) edu
            else edu) <$> data.
Proof.
  unfold deleteAchievement. apply list_fmap_ext. intros _ e _.
  by rewrite <- (filter_index_delete (achievements e) 0 index).
Qed.

Lemma clean_set_field f v e :
  clean v → clean_education e → clean_education (set_field f v e).
Proof.
  intros Hv [Hf Ha]. split; [|by destruct f].
  repeat match goal with
  | H : Forall _ (_ :: _) |- _ => apply Forall_cons in H as [? H]
  end.
  destruct f; simpl; repeat constructor; done.
Qed.

Lemma clean_set_achievements l e :
  Forall clean l → clean_education e → clean_education (set_achievements l e).
Proof. by intros Hl [Hf _]. Qed.

Lemma clean_newEdu now : clean_education (newEdu now).
Proof. split; simpl; repeat constructor. Qed.

Lemma Forall_fmap_same {A : Type} (P : A → Prop) (g : A → A) (l : list A) :
  (∀ x, P x → P (g x)) → Forall P l → Forall P (g <$> l).
Proof. intros Hg. induction 1; simpl; constructor; auto. Qed.

Lemma perform_keeps_clean op data st :
  Forall clean_education data → Forall clean_education (perform op data st).1.
Proof.
  intros Hd. destruct op as [now|id0 f v|id0|id0|id0 i v|id0 i]; cbn [perform fst].
  - unfold addEducation. cbn [fst]. apply Forall_app. split; [done|].
    constructor; [apply clean_newEdu | done].
  - unfold updateEducation. cbn [fst]. apply Forall_fmap_same; [|done].
    intros e He. destruct (decide _); [|done].
    apply clean_set_field; [apply sanitizeString_idem | done].
  - unfold deleteEducation. apply Forall_forall. intros e He.
    apply list_elem_of_filter in He as [_ He].
    by eapply Forall_forall in Hd.
  - unfold addAchievement. apply Forall_fmap_same; [|done].
    intros e He. destruct (decide _); [|done].
    apply clean_set_achievements; [|done]. apply Forall_app.
    split; [apply He | by repeat constructor].
  - rewrite updateAchievement_insert. apply Forall_fmap_same; [|done].
    intros e He. destruct (decide _); [|done].
    apply clean_set_achievements; [|done].
    apply Forall_insert; [apply He | apply sanitizeString_idem].
  - rewrite deleteAchievement_delete. apply Forall_fmap_same; [|done].
    intros e He. destruct (decide _); [|done].
    apply clean_set_achievements; [|done].
    apply Forall_delete, He.
Qed.

End AchievementFacts.

(** X9: the achievement edits touch one position of the list of the
    entries that carry the identifier, and nothing else.
    [updateAchievement] replaces the achievement at [index] by the
    sanitized text and [deleteAchievement] removes it; with an index
    past the end of the list both hand the unchanged data to
    [onChange] (no achievement is appended). *)
Theorem achievement_edits_touch_one_position (eduId : jsstring) (index : nat)
    (value : jsstring) (data : list EducationForm.Education) :
  EducationForm.updateAchievement eduId index value data
  = (λ edu, if decide (EducationForm.id edu = eduId)
            then EducationForm.set_achievements
                   (<[index := ResumeTypes.sanitizeString value]>
                      (EducationForm.achievements edu)) edu
            else edu) <$> data ∧
  EducationForm.deleteAchievement eduId index data
  = (λ edu, if decide (EducationForm.id edu = eduId)
            then EducationForm.set_achievements
                   (delete index (EducationForm.achievements edu)) edu
            else edu) <$> data ∧
  ((∀ e, e ∈ data → EducationForm.id e = eduId →
         (length (EducationForm.achievements e) ≤ index)%nat) →
   EducationForm.updateAchievement eduId index value data = data ∧
   EducationForm.deleteAchievement eduId index data = data).
Proof.
  split; [apply updateAchievement_insert|].
  split; [apply deleteAchievement_delete|].
  intros Hlen. rewrite updateAchievement_insert, deleteAchievement_delete.
  split; apply map_fixed; intros e He; destruct (decide _) as [Hid|]; try done.
  - rewrite list_insert_ge by by apply Hlen. apply set_achievements_same.
  - rewrite delete_past_end by by apply Hlen. apply set_achievements_same.
Qed.

(** X10: adding an achievement and deleting the one at the end gives
    back the data, when the entries that carry the identifier hold [n]
    achievements each. *)
Theorem add_then_delete_achievement_restores (id0 : jsstring) (n : nat)
    (data : list EducationForm.Education) :
  (∀ e, e ∈ data → EducationForm.id e = id0 →
        length (EducationForm.achievements e) = n) →
  EducationForm.deleteAchievement id0 n (EducationForm.addAchievement id0 data)
  = data.
Proof.
  intros Hlen. rewrite deleteAchievement_delete. unfold EducationForm.addAchievement.
  rewrite <- list_fmap_compose. apply map_fixed. intros e He. simpl.
  destruct (decide (EducationForm.id e = id0)) as [Hid|Hid].
  - cbn [EducationForm.set_achievements EducationForm.id EducationForm.achievements].
    rewrite decide_True by done.
    cbn [EducationForm.set_achievements EducationForm.id EducationForm.achievements
         EducationForm.institution EducationForm.degree EducationForm.field
         EducationForm.startDate EducationForm.endDate EducationForm.gpa].
    rewrite <- (Hlen e He Hid), delete_last. by destruct e.
  - by rewrite decide_False.
Qed.

Lemma add_then_delete_achievement_restores_witness :
  EducationForm.deleteAchievement (str "edu1") 1
    (EducationForm.addAchievement (str "edu1")
       [EducationForm.mkEducation (str "edu1") [] [] [] [] [] [] [str "Dean's List"]])
  = [EducationForm.mkEducation (str "edu1") [] [] [] [] [] [] [str "Dean's List"]].
Proof.
  apply (add_then_delete_achievement_restores (str "edu1") 1).
  intros e He _. apply list_elem_of_singleton in He. by subst e.
Defined.

(** X11: whatever is done in the education form, in any order, every
    text it stores is a sanitized value: if the institution, degree,
    field, dates, GPA and achievements of all entries are fixed points
    of the strict sanitizer before a run of operations (adding,
    updating and deleting entries and achievements), they are so after
    it.  The identifiers are not covered. *)
Theorem education_form_keeps_texts_sanitized (ops : list EducationForm.operation)
    (data : list EducationForm.Education) (st : EducationForm.state) :
  Forall EducationForm.clean_education data →
  Forall EducationForm.clean_education (EducationForm.perform_all ops data st).1.
Proof.
  revert data st. induction ops as [|op ops IH]; intros data st Hd; [done|].
  cbn [EducationForm.perform_all].
  pose proof (perform_keeps_clean op data st Hd) as Hstep.
  destruct (EducationForm.perform op data st) as [data' st']. by apply IH.
Qed.

Lemma education_form_keeps_texts_sanitized_witness :
  Forall EducationForm.clean_education
    (EducationForm.perform_all
       [EducationForm.AddEducation 1700000000000;
        EducationForm.UpdateEducation (str "edu1700000000000")
          EducationForm.Institution (str " <b>MIT</b> ");
        EducationForm.AddAchievement (str "edu1700000000000");
        EducationForm.UpdateAchievement (str "edu1700000000000") 0
          (str "<i>Dean's List</i>")]
       [] (EducationForm.mkState None ∅)).1.
Proof.
  apply education_form_keeps_texts_sanitized. constructor.
Defined.

(** ** Repository selection, links and groups *)

Section SelectionFacts.
Import ExperienceForm.

Lemma toggle_elem_of (x : jsstring) l y :
  y ∈ toggleRepoSelection x l ↔ (if decide (y = x) then x ∉ l else y ∈ l).
Proof.
  unfold toggleRepoSelection.
  destruct (bool_decide_reflect (x ∈ l)) as [Hin|Hnin].
  - rewrite list_elem_of_filter. destruct (decide (y = x)) as [->|Hne]; intuition congruence.
  - rewrite elem_of_app, list_elem_of_singleton.
    destruct (decide (y = x)) as [->|Hne]; intuition congruence.
Qed.

Lemma toggle_NoDup (x : jsstring) l : NoDup l → NoDup (toggleRepoSelection x l).
Proof.
  intros Hl. unfold toggleRepoSelection.
  destruct (bool_decide_reflect (x ∈ l)) as [Hin|Hnin].
  - by apply NoDup_filter.
  - apply NoDup_app. split; [done|]. split; [|apply NoDup_singleton].
    intros y Hy ->%list_elem_of_singleton. done.
Qed.

Lemma filter_ne_absent (x : jsstring) (l : list jsstring) : x ∉ l → filter (λ y, y ≠ x) l = l.
Proof.
  induction l as [|y l IH]; [done|]. intros Hx.
  apply not_elem_of_cons in Hx as [Hne Hx].
  rewrite filter_cons_True by done. f_equal. by apply IH.
Qed.

Lemma filter_ne_present (x : jsstring) (l : list jsstring) :
  x ∈ l → NoDup l → filter (λ y, y ≠ x) l ++ [x] ≡ₚ l.
Proof.
  induction l as [|y l IH]; intros Hx Hl; [by apply elem_of_nil in Hx|].
  apply NoDup_cons in Hl as [Hy Hl].
  destruct (decide (y = x)) as [->|Hne].
  - rewrite filter_cons_False by (by intros ?).
    rewrite filter_ne_absent by done. by rewrite Permutation_app_comm.
  - rewrite filter_cons_True by done. simpl. f_equal.
    apply elem_of_cons in Hx as [->|Hx]; [done|]. by rewrite IH.
Qed.

Lemma toggle_twice_absent (x : jsstring) l :
  x ∉ l → toggleRepoSelection x (toggleRepoSelection x l) = l.
Proof.
  intros Hx. unfold toggleRepoSelection at 2. rewrite bool_decide_eq_false_2 by done.
  unfold toggleRepoSelection. rewrite bool_decide_eq_true_2 by set_solver.
  rewrite filter_app, filter_ne_absent by done.
  rewrite filter_cons_False by (by intros ?). by rewrite app_nil_r.
Qed.

Lemma toggle_twice_present (x : jsstring) l :
  x ∈ l →
  toggleRepoSelection x (toggleRepoSelection x l) = filter (λ y, y ≠ x) l ++ [x].
Proof.
  intros Hx. unfold toggleRepoSelection at 2. rewrite bool_decide_eq_true_2 by done.
  unfold toggleRepoSelection.
  assert (x ∉ filter (λ y, y ≠ x) l) as Hgone
    by (by intros [? _]%list_elem_of_filter).
  by rewrite bool_decide_eq_false_2.
Qed.

Lemma toggle_spec (x : jsstring) (l : list jsstring) :
  (∀ y, y ∈ toggleRepoSelection x l ↔ (if decide (y = x) then x ∉ l else y ∈ l)) ∧
  (NoDup l → NoDup (toggleRepoSelection x l)) ∧
  (x ∉ l → toggleRepoSelection x (toggleRepoSelection x l) = l) ∧
  (x ∈ l →
     toggleRepoSelection x (toggleRepoSelection x l) = filter (λ y, y ≠ x) l ++ [x]
     ∧ (NoDup l → filter (λ y, y ≠ x) l ++ [x] ≡ₚ l)).
Proof.
  split; [apply toggle_elem_of|]. split; [apply toggle_NoDup|].
  split; [apply toggle_twice_absent|].
  intros Hx. split; [by apply toggle_twice_present | by apply filter_ne_present].
Qed.

Lemma set_repo_same e : set_repo (repoId e) (repoData e) e = e.
Proof. by destruct e. Qed.

Lemma type_values_distinct :
  NoDup (type_value <$> EXPERIENCE_TYPES).
Proof. apply (bool_decide_unpack _). by vm_compute. Qed.

End SelectionFacts.

(** X12: the three selection toggles (repositories in the experience
    form and in the repository selector, skills in the skill selector)
    flip the membership of the one item and of no other, keep a
    selection free of repetitions so, and toggling twice gives back the
    selection: the same list when the item was absent; when it was
    present, the list of the other items in their order followed by the
    toggled item, which, in a selection free of repetitions, is the
    selection with that item moved to the end. *)
Theorem toggles_flip_one_membership :
  Forall (λ toggle : jsstring → list jsstring → list jsstring,
    ∀ x l,
      (∀ y, y ∈ toggle x l ↔ (if decide (y = x) then x ∉ l else y ∈ l)) ∧
      (NoDup l → NoDup (toggle x l)) ∧
      (x ∉ l → toggle x (toggle x l) = l) ∧
      (x ∈ l →
         toggle x (toggle x l) = filter (λ y, y ≠ x) l ++ [x]
         ∧ (NoDup l → filter (λ y, y ≠ x) l ++ [x] ≡ₚ l)))
    [ExperienceForm.toggleRepoSelection; RepoSelector.handleToggleRepo;
     SkillSelector.handleToggle].
Proof.
  apply Forall_cons_2; [exact toggle_spec|].
  apply Forall_cons_2; [exact toggle_spec|].
  apply Forall_cons_2; [exact toggle_spec|].
  apply Forall_nil_2.
Qed.

(** X13: unlinking after linking gives back the experiences, when the
    entries that carry the identifier had no repository before; and
    once linked under a non-empty repository identifier, no entry with
    the identifier counts as a manual entry, whether or not the
    repository is among those fetched. *)
Theorem unlink_after_link_restores (repos : list GithubService.repo)
    (expId repoId : jsstring) (experiences : list ExperienceForm.Experience) :
  (∀ e, e ∈ experiences → ExperienceForm.id e = expId →
        ExperienceForm.repoId e = None ∧ ExperienceForm.repoData e = None) →
  ExperienceForm.unlinkRepo expId
    (ExperienceForm.linkRepoToExperience repos expId repoId experiences)
  = experiences ∧
  (repoId ≠ [] →
   ∀ e, e ∈ ExperienceForm.linkRepoToExperience repos expId repoId experiences →
        ExperienceForm.id e = expId → ExperienceForm.unlinked e = false).
Proof.
  intros Hfree. unfold ExperienceForm.unlinkRepo, ExperienceForm.linkRepoToExperience.
  cbv zeta. split.
  - rewrite <- list_fmap_compose. apply map_fixed. intros e He. simpl.
    destruct (decide (ExperienceForm.id e = expId)) as [Hid|Hid].
    + cbn [ExperienceForm.set_repo ExperienceForm.id]. rewrite decide_True by done.
      destruct (Hfree e He Hid) as [H1 H2]. destruct e. simpl in *. by subst.
    + by rewrite decide_False.
  - intros Hne e He Hid. apply list_elem_of_fmap in He as (e0 & -> & He0).
    destruct (decide (ExperienceForm.id e0 = expId)) as [Hid0|Hid0]; [|done].
    unfold ExperienceForm.unlinked. cbn [ExperienceForm.set_repo ExperienceForm.repoId].
    by destruct repoId.
Qed.

Lemma unlink_after_link_restores_witness :
  ExperienceForm.unlinkRepo (str "exp1")
    (ExperienceForm.linkRepoToExperience [] (str "exp1") (str "42")
       [ExperienceForm.newExp (str "work") 1])
  = [ExperienceForm.newExp (str "work") 1] ∧
  (str "42" ≠ [] →
   ∀ e, e ∈ ExperienceForm.linkRepoToExperience [] (str "exp1") (str "42")
              [ExperienceForm.newExp (str "work") 1] →
        ExperienceForm.id e = str "exp1" → ExperienceForm.unlinked e = false).
Proof.
  apply (unlink_after_link_restores [] (str "exp1") (str "42")).
  intros e He _. apply list_elem_of_singleton in He. by subst e.
Defined.

(** X14: the groups shown in the experience form split the entries by
    type.  Taken together, the groups hold exactly the entries whose
    type is one of the four listed values, each once; an entry of any
    other type (['award'], which the type definition allows, is one) is
    in no group. *)
Theorem groups_partition_listed_types (experiences : list ExperienceForm.Experience) :
  concat (ExperienceForm.group_items <$> ExperienceForm.groupedExperiences experiences)
  ≡ₚ filter (λ exp, ExperienceForm.type exp
                      ∈ ExperienceForm.type_value <$> ExperienceForm.EXPERIENCE_TYPES)
       experiences ∧
  (∀ exp g, g ∈ ExperienceForm.groupedExperiences experiences →
            exp ∈ ExperienceForm.group_items g →
            exp ∈ experiences
            ∧ ExperienceForm.type exp = ExperienceForm.type_value (ExperienceForm.group_type g)) ∧
  (∀ exp, ExperienceForm.type exp = str "award" →
          ∀ g, g ∈ ExperienceForm.groupedExperiences experiences →
               exp ∉ ExperienceForm.group_items g).
Proof.
  assert (∀ exp g, g ∈ ExperienceForm.groupedExperiences experiences →
            exp ∈ ExperienceForm.group_items g →
            exp ∈ experiences
            ∧ ExperienceForm.type exp
              = ExperienceForm.type_value (ExperienceForm.group_type g)) as Hin.
  { intros exp g Hg He. unfold ExperienceForm.groupedExperiences in Hg.
    apply list_elem_of_fmap in Hg as (ty & -> & _). simpl in He.
    apply list_elem_of_filter in He as [? ?]. done. }
  split; [|split; [exact Hin|]].
  - unfold ExperienceForm.groupedExperiences, ExperienceForm.EXPERIENCE_TYPES.
    cbn [fmap list_fmap concat ExperienceForm.group_items ExperienceForm.type_value].
    rewrite app_nil_r. clear Hin.
    induction experiences as [|e l IH]; [done|].
    destruct (decide (ExperienceForm.type e = str "work")) as [Hw|Hw];
      [|destruct (decide (ExperienceForm.type e = str "project")) as [Hp|Hp];
        [|destruct (decide (ExperienceForm.type e = str "volunteer")) as [Hv|Hv];
          [|destruct (decide (ExperienceForm.type e = str "honor")) as [Hh|Hh]]]].
    + rewrite (filter_cons_True (λ exp, ExperienceForm.type exp = str "work")) by done.
      rewrite !(filter_cons_False _ e l) by (rewrite Hw; by vm_compute).
      rewrite filter_cons_True
        by (rewrite Hw; apply (bool_decide_unpack _); by vm_compute).
      apply perm_skip, IH.
    + rewrite (filter_cons_True (λ exp, ExperienceForm.type exp = str "project")) by done.
      rewrite !(filter_cons_False _ e l) by (rewrite Hp; by vm_compute).
      rewrite filter_cons_True
        by (rewrite Hp; apply (bool_decide_unpack _); by vm_compute).
      rewrite <- app_comm_cons, <- Permutation_middle. apply perm_skip, IH.
    + rewrite (filter_cons_True (λ exp, ExperienceForm.type exp = str "volunteer")) by done.
      rewrite !(filter_cons_False _ e l) by (rewrite Hv; by vm_compute).
      rewrite filter_cons_True
        by (rewrite Hv; apply (bool_decide_unpack _); by vm_compute).
      rewrite <- app_comm_cons, (app_assoc _ _ (e :: _)), <- Permutation_middle,
        <- app_assoc.
      apply perm_skip, IH.
    + rewrite (filter_cons_True (λ exp, ExperienceForm.type exp = str "honor")) by done.
      rewrite !(filter_cons_False _ e l) by (rewrite Hh; by vm_compute).
      rewrite filter_cons_True
        by (rewrite Hh; apply (bool_decide_unpack _); by vm_compute).
      rewrite !app_assoc, <- Permutation_middle,
        <- !app_assoc.
      apply perm_skip, IH.
    + rewrite !(filter_cons_False _ e l) by done.
      rewrite filter_cons_False; [exact IH|].
      intros Hin. repeat (apply elem_of_cons in Hin as [Hin|Hin]; [done|]).
      by apply elem_of_nil in Hin.
  - intros exp Hty g Hg He. destruct (Hin exp g Hg He) as [_ Heq].
    unfold ExperienceForm.groupedExperiences in Hg.
    apply list_elem_of_fmap in Hg as (ty & -> & Hty').
    simpl in Heq. rewrite Hty in Heq.
    unfold ExperienceForm.EXPERIENCE_TYPES in Hty'.
    repeat (apply elem_of_cons in Hty' as [->|Hty']; [by vm_compute in Heq|]).
    by apply elem_of_nil in Hty'.
Qed.

(** ** Submission and saving *)

Section SubmitMore.
Import ExperienceForm ResumeForm.

Lemma blank_false s : blank s = false → trim s ≠ [].
Proof.
  unfold blank. intros [_ H]%orb_false_iff. apply negb_false_iff in H.
  by destruct (trim s).
Qed.

Lemma truthy_ne s : truthy s = true → s ≠ [].
Proof. by destruct s. Qed.

Lemma complete_education (l : list EducationForm.Education) :
  existsb incomplete_education l = false →
  Forall (λ edu, EducationForm.institution edu ≠ [] ∧ EducationForm.degree edu ≠ []
                 ∧ EducationForm.field edu ≠ [] ∧ EducationForm.startDate edu ≠ []
                 ∧ EducationForm.endDate edu ≠ []) l.
Proof.
  induction l as [|e l IH]; [done|]. cbn [existsb].
  intros [He Hl]%orb_false_iff. constructor; [|by apply IH].
  unfold incomplete_education in He.
  repeat match type of He with
  | _ || _ = false => apply orb_false_iff in He as [He ?]
  end.
  repeat match goal with
  | H : negb _ = false |- _ => apply negb_false_iff, truthy_ne in H
  end.
  done.
Qed.

Lemma complete_experience (l : list Experience) :
  existsb incomplete_experience (base.filter (λ exp, unlinked exp = true) l) = false →
  Forall (λ exp, unlinked exp = true →
                 title exp ≠ [] ∧ organization exp ≠ []
                 ∧ startDate exp ≠ [] ∧ endDate exp ≠ []) l.
Proof.
  induction l as [|e l IH]; [done|]. rewrite filter_cons.
  destruct (decide (unlinked e = true)) as [Hu|Hu].
  - cbn [existsb]. intros [He Hl]%orb_false_iff. constructor; [|by apply IH].
    intros _. unfold incomplete_experience in He.
    repeat match type of He with
    | _ || _ = false => apply orb_false_iff in He as [He ?]
    end.
    repeat match goal with
    | H : negb _ = false |- _ => apply negb_false_iff, truthy_ne in H
    end.
    done.
  - intros Hl. constructor; [done | by apply IH].
Qed.

Lemma some_content d :
  ((length (selectedRepoIds d) =? 0)%nat
   && (length (base.filter (λ exp, unlinked exp = true) (experiences d)) =? 0)%nat)
    = false ↔
  selectedRepoIds d ≠ [] ∨ Exists (λ exp, unlinked exp = true) (experiences d).
Proof.
  rewrite <- not_true_iff_false, content_condition. split.
  - intros Hn. destruct (decide (selectedRepoIds d = [])) as [He|]; [|by left].
    right. assert (¬ Forall (λ exp, unlinked exp = false) (experiences d)) as Hf
      by (intros ?; by apply Hn).
    apply not_Forall_Exists in Hf; [|apply _].
    eapply Exists_impl; [exact Hf|]. intros e He'. simpl in He'.
    by apply not_false_iff_true.
  - intros [Hs|Hex] [He Hf]; [done|].
    apply Exists_exists in Hex as (e & He' & Hu).
    rewrite Forall_forall in Hf. specialize (Hf e He'). congruence.
Qed.

Lemma validateFormData_empty d : validateFormData d = ∅ ↔ submittable d.
Proof.
  unfold submittable. split.
  - unfold validateFormData. cbv zeta.
    destruct (blank (fullName (personalInfo d))) eqn:H1;
      destruct (blank (email (personalInfo d))) eqn:H2;
      destruct ((0 <? length (education d))%nat
                && existsb incomplete_education (education d)) eqn:H3;
      destruct (existsb incomplete_experience _) eqn:H4;
      destruct ((length (selectedRepoIds d) =? 0)%nat && _) eqn:H5;
      intros Hv; try (by apply insert_non_empty in Hv).
    split; [by apply blank_false|]. split; [by apply blank_false|].
    split; [|split; [by apply complete_experience | by apply some_content]].
    apply andb_false_iff in H3 as [H3|H3]; [|by apply complete_education].
    apply Nat.ltb_ge in H3. destruct (education d); [done | simpl in H3; lia].
  - intros (Hn & He & Hedu & Hexp & Hc). unfold validateFormData.
    rewrite (not_blank _ Hn), (not_blank _ He).
    rewrite (no_incomplete_education _ Hedu), andb_false_r.
    rewrite (no_incomplete_experience _ Hexp).
    apply some_content in Hc. by rewrite Hc.
Qed.

Lemma validateFormData_keys d k :
  is_Some (validateFormData d !! k) →
  k ∈ [str "fullName"; str "email"; str "education"; str "experiences";
       str "content"].
Proof.
  unfold validateFormData. cbv zeta.
  repeat match goal with |- context [if ?b then _ else _] => destruct b end;
    rewrite ?lookup_insert_is_Some, lookup_empty; intros Hk;
    repeat match type of Hk with
    | _ ∨ _ => destruct Hk as [<-|[_ Hk]]
    end;
    first [by apply is_Some_None in Hk | by repeat constructor].
Qed.

End SubmitMore.

(** X15: submit goes through exactly when the record passes five
    checks: the full name and the e-mail are not blank, every education
    entry has its institution, degree, field and both dates, every
    experience entry without a repository has its title, organization
    and both dates, and a repository is selected or some experience
    entry has no repository.  Then the record is handed to [onSubmit]
    once, as it is, and the errors are cleared; otherwise [onSubmit] is
    not called and the errors stored are not empty.  Nothing else is
    checked: the shape of the e-mail, of the dates and of the GPA plays
    no part, and the error keys are among five. *)
Theorem submit_succeeds_exactly_when_submittable (st : ResumeForm.state) :
  (ResumeForm.validateFormData (ResumeForm.formData st) = ∅
     ↔ ResumeForm.submittable (ResumeForm.formData st)) ∧
  (ResumeForm.submittable (ResumeForm.formData st) →
     ResumeForm.handleSubmit st
     = ResumeForm.mkState (ResumeForm.currentSection st) (ResumeForm.formData st) ∅
         (ResumeForm.submitted st ++ [ResumeForm.formData st])) ∧
  (¬ ResumeForm.submittable (ResumeForm.formData st) →
     ResumeForm.handleSubmit st
     = ResumeForm.mkState (ResumeForm.currentSection st) (ResumeForm.formData st)
         (ResumeForm.validateFormData (ResumeForm.formData st))
         (ResumeForm.submitted st)
     ∧ ResumeForm.validateFormData (ResumeForm.formData st) ≠ ∅) ∧
  (∀ k, is_Some (ResumeForm.validateFormData (ResumeForm.formData st) !! k) →
        k ∈ [str "fullName"; str "email"; str "education"; str "experiences";
             str "content"]).
Proof.
  split; [apply validateFormData_empty|]. split; [|split].
  - intros Hs%validateFormData_empty. unfold ResumeForm.handleSubmit.
    by rewrite Hs, map_size_empty.
  - intros Hs. rewrite <- validateFormData_empty in Hs. split; [|done].
    unfold ResumeForm.handleSubmit.
    apply map_size_non_empty_iff in Hs.
    destruct (size _) eqn:Hsz; [done|]. done.
  - apply validateFormData_keys.
Qed.

(** X16: what the auto-save writes is what the next load returns.
    After a save that the session store accepts, loading gives back the
    saved record, whatever either store held before, provided the text
    written parses back to the record and is not empty.  The save never
    writes to the durable store, and a refused write changes nothing. *)
Theorem saved_form_is_loaded_back {V : Type} (JSON_parse : jsstring → option V)
    (JSON_stringify : V → jsstring) (mockResumeData formData : V)
    (st : ResumeForm.storage) :
  JSON_parse (JSON_stringify formData) = Some formData →
  JSON_stringify formData ≠ [] →
  ResumeForm.loadSavedFormData JSON_parse mockResumeData
    (ResumeForm.save JSON_stringify true formData st) = formData ∧
  (∀ accepted,
     ResumeForm.localStorage (ResumeForm.save JSON_stringify accepted formData st)
     = ResumeForm.localStorage st) ∧
  ResumeForm.save JSON_stringify false formData st = st.
Proof.
  intros Hparse Hne. split; [|split; [by intros []|done]].
  unfold ResumeForm.loadSavedFormData, ResumeForm.load_try, ResumeForm.save,
    ResumeForm.read_tier.
  cbn [ResumeForm.sessionStorage]. rewrite lookup_insert_eq.
  by rewrite truthy_true, Hparse.
Qed.

Lemma saved_form_is_loaded_back_witness :
  ResumeForm.loadSavedFormData (ResumeForm.parse_only (str "null") ResumeForm.JNull)
    ResumeForm.sample_template
    (ResumeForm.save (λ _, str "null") true ResumeForm.JNull
       (ResumeForm.mkStorage ∅ ∅)) = ResumeForm.JNull ∧
  (∀ accepted,
     ResumeForm.localStorage
       (ResumeForm.save (λ _, str "null") accepted ResumeForm.JNull
          (ResumeForm.mkStorage ∅ ∅))
     = ResumeForm.localStorage (ResumeForm.mkStorage ∅ ∅)) ∧
  ResumeForm.save (λ _, str "null") false ResumeForm.JNull (ResumeForm.mkStorage ∅ ∅)
  = ResumeForm.mkStorage ∅ ∅.
Proof.
  apply (saved_form_is_loaded_back
           (ResumeForm.parse_only (str "null") ResumeForm.JNull)
           (λ _, str "null") ResumeForm.sample_template ResumeForm.JNull
           (ResumeForm.mkStorage ∅ ∅)).
  - reflexivity.
  - discriminate.
Defined.

(** ** Identifiers *)

Section IdentifierFacts.
Import EducationForm.

Lemma filter_fmap {A B : Type} (f : A → B) (P : B → Prop)
    `{!∀ y, Decision (P y)} (l : list A) :
  filter P (f <$> l) = f <$> filter (λ x, P (f x)) l.
Proof.
  induction l as [|x l IH]; [done|]. rewrite fmap_cons, !filter_cons.
  destruct (decide (P (f x))); by rewrite IH.
Qed.

Lemma deleteExperience_absent id0 (l : list ExperienceForm.Experience) :
  id0 ∉ ExperienceForm.id <$> l → ExperienceForm.deleteExperience id0 l = l.
Proof.
  unfold ExperienceForm.deleteExperience. induction l as [|e l IH]; [done|].
  rewrite fmap_cons, not_elem_of_cons. intros [Hne Hnin].
  rewrite filter_cons_True by done. by rewrite IH.
Qed.

Lemma deleteEducation_at (data : list Education) : ∀ i e,
  NoDup (id <$> data) → data !! i = Some e →
  deleteEducation (id e) data = delete i data.
Proof.
  induction data as [|x data IH]; intros i e Hnd Hi; [done|].
  rewrite fmap_cons in Hnd. apply NoDup_cons in Hnd as [Hx Hnd].
  unfold deleteEducation. destruct i as [|i]; simpl in Hi.
  - injection Hi as ->. rewrite filter_cons_False by (by intros ?).
    by apply deleteEducation_absent.
  - assert (id x ≠ id e) as Hne.
    { intros Heq. apply Hx. rewrite Heq. apply list_elem_of_fmap.
      exists e. split; [done|]. by eapply list_elem_of_lookup_2. }
    rewrite filter_cons_True by done. simpl. f_equal. by apply IH.
Qed.

End IdentifierFacts.

(** X17: education entries get pairwise distinct identifiers as long
    as no clock reading repeats and none of the new identifiers is in
    the list already: the identifiers stay free of repetitions through
    any run of additions. *)
Theorem distinct_clock_readings_give_distinct_ids (readings : list N)
    (data : list EducationForm.Education) (st : EducationForm.state) :
  NoDup (EducationForm.id <$> data) →
  NoDup readings →
  (∀ now, now ∈ readings →
          EducationForm.id (EducationForm.newEdu now) ∉ EducationForm.id <$> data) →
  NoDup (EducationForm.id <$> (EducationForm.addEducations readings data st).1).
Proof.
  intros Hdata Hreadings Hfresh. rewrite addEducations_appends, fmap_app.
  apply NoDup_app. split; [done|]. split.
  - intros x Hx Hin. rewrite <- list_fmap_compose in Hin.
    apply list_elem_of_fmap in Hin as (now & -> & Hnow). by apply (Hfresh now).
  - rewrite <- list_fmap_compose. apply NoDup_fmap_2; [|done].
    intros m n. apply newEdu_id_inj.
Qed.

Lemma distinct_clock_readings_give_distinct_ids_witness :
  NoDup (EducationForm.id <$>
           (EducationForm.addEducations [1700000000000; 1700000000001]
              [] (EducationForm.mkState None ∅)).1).
Proof.
  apply distinct_clock_readings_give_distinct_ids.
  - constructor.
  - apply (bool_decide_unpack _). by vm_compute.
  - intros now _ Hin. by apply elem_of_nil in Hin.
Defined.

(** X18: while the identifiers are free of repetitions, deleting by
    identifier removes the one entry at its position and keeps the
    others in order; and in both forms, deleting an entry just added
    under an identifier that was not in use gives back the list. *)
Theorem delete_removes_one_entry (data : list EducationForm.Education)
    (i : nat) (e : EducationForm.Education) :
  NoDup (EducationForm.id <$> data) →
  data !! i = Some e →
  EducationForm.deleteEducation (EducationForm.id e) data = delete i data ∧
  (∀ now st,
     EducationForm.id (EducationForm.newEdu now) ∉ EducationForm.id <$> data →
     EducationForm.deleteEducation (EducationForm.id (EducationForm.newEdu now))
       (EducationForm.addEducation now data st).1 = data) ∧
  (∀ ty now (experiences : list ExperienceForm.Experience),
     ExperienceForm.id (ExperienceForm.newExp ty now)
       ∉ ExperienceForm.id <$> experiences →
     ExperienceForm.deleteExperience
       (ExperienceForm.id (ExperienceForm.newExp ty now))
       (ExperienceForm.addExperience ty now experiences) = experiences).
Proof.
  intros Hnd Hi. split; [by apply deleteEducation_at|]. split.
  - intros now st. apply add_then_delete_fresh.
  - intros ty now experiences Hfresh.
    unfold ExperienceForm.addExperience, ExperienceForm.deleteExperience.
    rewrite filter_app, filter_cons_False, filter_nil, app_nil_r by (by intros []).
    by apply deleteExperience_absent.
Qed.

Lemma delete_removes_one_entry_witness :
  EducationForm.deleteEducation (EducationForm.id (EducationForm.newEdu 2))
    [EducationForm.newEdu 1; EducationForm.newEdu 2; EducationForm.newEdu 3]
  = delete 1%nat
      [EducationForm.newEdu 1; EducationForm.newEdu 2; EducationForm.newEdu 3] ∧
  (∀ now st,
     EducationForm.id (EducationForm.newEdu now)
       ∉ EducationForm.id <$>
           [EducationForm.newEdu 1; EducationForm.newEdu 2; EducationForm.newEdu 3] →
     EducationForm.deleteEducation (EducationForm.id (EducationForm.newEdu now))
       (EducationForm.addEducation now
          [EducationForm.newEdu 1; EducationForm.newEdu 2; EducationForm.newEdu 3]
          st).1
     = [EducationForm.newEdu 1; EducationForm.newEdu 2; EducationForm.newEdu 3]) ∧
  (∀ ty now (experiences : list ExperienceForm.Experience),
     ExperienceForm.id (ExperienceForm.newExp ty now)
       ∉ ExperienceForm.id <$> experiences →
     ExperienceForm.deleteExperience
       (ExperienceForm.id (ExperienceForm.newExp ty now))
       (ExperienceForm.addExperience ty now experiences) = experiences).
Proof.
  apply (delete_removes_one_entry
           [EducationForm.newEdu 1; EducationForm.newEdu 2; EducationForm.newEdu 3]
           1 (EducationForm.newEdu 2)).
  - apply (bool_decide_unpack _). by vm_compute.
  - reflexivity.
Defined.

(** ** Preparing the submission *)

(** X19: what [prepareResumeData] forwards, field by field.  The
    repositories are the loaded ones whose identifier is selected, in
    the order loaded and as often as loaded: the order of the selection
    plays no part and a selected identifier that is not loaded
    contributes nothing.  Of each of them the identifier, name,
    description, visibility, address, stars and forks are forwarded as
    they are, and a missing list of topics, languages or generated tags
    and a missing or empty README text as the empty value.  The personal
    section is forwarded as it is.  Every education entry is forwarded
    in order with its six texts, and of its achievements those that are
    blank are dropped and the others kept in order.  Every experience
    entry is forwarded in order with its type, its six texts, its
    technologies and its repository identifier.  The metadata hold the
    time given and version 1.0. *)
Theorem prepared_data_follows_the_form (now : jsstring)
    (formData : ResumeForm.ResumeData) (allRepos : list ResumeService.repository) :
  let prepared := ResumeService.prepareResumeData now formData allRepos in
  let selected :=
    filter (λ repo, GithubService.repo_id (ResumeService.enhanced repo)
                      ∈ ResumeForm.selectedRepoIds formData) allRepos in
  let loaded_ids :=
    (λ repo, GithubService.repo_id (ResumeService.enhanced repo)) <$> allRepos in
  let edus := ResumeForm.education formData in
  let exps := ResumeForm.experiences formData in
  (ResumeService.id <$> ResumeService.githubRepos prepared
   = filter (λ i, i ∈ ResumeForm.selectedRepoIds formData) loaded_ids ∧
   (∀ i, i ∉ loaded_ids →
         i ∉ ResumeService.id <$> ResumeService.githubRepos prepared)) ∧
  (ResumeService.id <$> ResumeService.githubRepos prepared
   = (λ repo, GithubService.repo_id (ResumeService.enhanced repo)) <$> selected ∧
   ResumeService.name <$> ResumeService.githubRepos prepared
   = (λ repo, GithubService.repo_name (ResumeService.enhanced repo)) <$> selected ∧
   ResumeService.repo_description <$> ResumeService.githubRepos prepared
   = ResumeService.description <$> selected ∧
   ResumeService.repo_private <$> ResumeService.githubRepos prepared
   = ResumeService.private <$> selected ∧
   ResumeService.topics <$> ResumeService.githubRepos prepared
   = (λ repo, default [] (GithubService.topics (ResumeService.enhanced repo)))
     <$> selected ∧
   ResumeService.languages <$> ResumeService.githubRepos prepared
   = (λ repo, default [] (GithubService.languages (ResumeService.enhanced repo)))
     <$> selected ∧
   ResumeService.repo_readmeContent <$> ResumeService.githubRepos prepared
   = (λ repo, default [] (ResumeService.readmeContent repo)) <$> selected ∧
   ResumeService.generatedTags <$> ResumeService.githubRepos prepared
   = (λ repo, default [] (GithubService.generatedTags (ResumeService.enhanced repo)))
     <$> selected ∧
   ResumeService.url <$> ResumeService.githubRepos prepared
   = ResumeService.html_url <$> selected ∧
   ResumeService.stars <$> ResumeService.githubRepos prepared
   = ResumeService.stargazers_count <$> selected ∧
   ResumeService.forks <$> ResumeService.githubRepos prepared
   = ResumeService.forks_count <$> selected) ∧
  ResumeService.personalInfo prepared = ResumeForm.personalInfo formData ∧
  (ResumeService.institution <$> ResumeService.education prepared
   = EducationForm.institution <$> edus ∧
   ResumeService.degree <$> ResumeService.education prepared
   = EducationForm.degree <$> edus ∧
   ResumeService.field <$> ResumeService.education prepared
   = EducationForm.field <$> edus ∧
   ResumeService.startDate <$> ResumeService.education prepared
   = EducationForm.startDate <$> edus ∧
   ResumeService.endDate <$> ResumeService.education prepared
   = EducationForm.endDate <$> edus ∧
   ResumeService.gpa <$> ResumeService.education prepared
   = EducationForm.gpa <$> edus ∧
   ResumeService.achievements <$> ResumeService.education prepared
   = (λ edu, filter (λ a, ¬ Forall (λ c, is_space c = true) a)
               (EducationForm.achievements edu)) <$> edus) ∧
  (ResumeService.type <$> ResumeService.experiences prepared
   = ExperienceForm.type <$> exps ∧
   ResumeService.title <$> ResumeService.experiences prepared
   = ExperienceForm.title <$> exps ∧
   ResumeService.organization <$> ResumeService.experiences prepared
   = ExperienceForm.organization <$> exps ∧
   ResumeService.location <$> ResumeService.experiences prepared
   = ExperienceForm.location <$> exps ∧
   ResumeService.exp_startDate <$> ResumeService.experiences prepared
   = ExperienceForm.startDate <$> exps ∧
   ResumeService.exp_endDate <$> ResumeService.experiences prepared
   = ExperienceForm.endDate <$> exps ∧
   ResumeService.exp_description <$> ResumeService.experiences prepared
   = ExperienceForm.description <$> exps ∧
   ResumeService.technologies <$> ResumeService.experiences prepared
   = ExperienceForm.technologies <$> exps ∧
   ResumeService.repoId <$> ResumeService.experiences prepared
   = ExperienceForm.repoId <$> exps) ∧
  ResumeService.metadata prepared = ResumeService.mkMetadata now (str "1.0").
Proof.
  intros prepared selected loaded_ids edus exps.
  subst prepared selected loaded_ids edus exps.
  unfold ResumeService.prepareResumeData. cbv zeta.
  cbn [ResumeService.githubRepos ResumeService.personalInfo
       ResumeService.education ResumeService.experiences ResumeService.metadata].
  assert (ResumeService.id <$>
            (ResumeService.prepare_repo <$>
               filter (λ repo, GithubService.repo_id (ResumeService.enhanced repo)
                                 ∈ ResumeForm.selectedRepoIds formData) allRepos)
          = filter (λ i, i ∈ ResumeForm.selectedRepoIds formData)
              ((λ repo, GithubService.repo_id (ResumeService.enhanced repo))
                 <$> allRepos)) as Hids.
  { rewrite <- list_fmap_compose, filter_fmap. done. }
  split; [|split; [|split; [|split; [|split]]]].
  - split; [exact Hids|].
    intros i Hi. rewrite Hids. intros [_ ?]%list_elem_of_filter. done.
  - repeat split; by rewrite <- list_fmap_compose.
  - by destruct (ResumeForm.personalInfo formData).
  - repeat split; try by rewrite <- list_fmap_compose.
    rewrite <- list_fmap_compose. apply list_fmap_ext. intros _ edu _. simpl.
    apply list_filter_iff. intros a. by rewrite trim_empty.
  - repeat split; by rewrite <- list_fmap_compose.
  - reflexivity.
Qed.

(** ** The theme *)

(** X20: the theme chosen survives a reload: the value read back from
    the store after the effect has written it is the value written.
    Without a stored value, or with an empty one, the theme is dark; it
    is light exactly when a non-empty value other than [dark] is
    stored. *)
Theorem theme_survives_reload (isDark : bool)
    (localStorage : gmap jsstring jsstring) :
  ThemeContext.initial_isDark (ThemeContext.store_theme isDark localStorage) = isDark ∧
  (ThemeContext.initial_isDark localStorage = false ↔
   ∃ saved, localStorage !! str "theme" = Some saved
            ∧ saved ≠ [] ∧ saved ≠ str "dark") ∧
  ThemeContext.initial_isDark
    (ThemeContext.store_theme (ThemeContext.toggleTheme isDark)
       (ThemeContext.store_theme isDark localStorage))
  = negb isDark.
Proof.
  assert (∀ b ls, ThemeContext.initial_isDark (ThemeContext.store_theme b ls) = b)
    as Hround.
  { intros b ls. unfold ThemeContext.initial_isDark, ThemeContext.store_theme.
    rewrite lookup_insert_eq. by destruct b. }
  split; [apply Hround|]. split; [|apply Hround].
  unfold ThemeContext.initial_isDark.
  destruct (localStorage !! str "theme") as [saved|]; [|by split; [|intros (? & ? & _)]].
  destruct saved as [|c saved]; cbn [truthy].
  - split; [done|]. by intros (? & [= <-] & ? & _).
  - rewrite bool_decide_eq_false. split.
    + intros Hne. by exists (c :: saved).
    + by intros (? & [= <-] & _ & ?).
Qed.

(** ** Values that pass the field checks *)

Section AcceptedValues.
Import RegExp ResumeTypes EducationForm Number.

Lemma no_lt_no_tag s : Forall (λ c, c ≠ chr "<") s → ¬ has_tag s.
Proof.
  intros Hs (before & body & after & -> & _).
  apply Forall_app in Hs as [_ Hs]. by inversion Hs.
Qed.

Lemma trim_fixed_ends s c rest front d :
  s = c :: rest → s = front ++ [d] →
  is_space c = false → is_space d = false → trim s = s.
Proof.
  intros Hc Hd Hsc Hsd. unfold trim. rewrite Hc, trimStart_fixed by done.
  rewrite <- Hc, Hd. by apply trimEnd_fixed.
Qed.

Lemma numeric_not_space c : numeric c = true → is_space c = false.
Proof.
  intros H. destruct (is_space c) eqn:Hs; [|done].
  apply space_not_numeric in Hs. congruence.
Qed.

Lemma numeric_not_lt c : numeric c = true → c ≠ chr "<".
Proof. intros H ->. by vm_compute in H. Qed.

Lemma digit_numeric c : is_digit c = true → numeric c = true.
Proof. intros H. unfold numeric. by rewrite H. Qed.

Lemma valid_date_clean s : validateDate s = true → sanitizeString s = s.
Proof.
  intros [->|Hym]%validateDate_spec; [by vm_compute|].
  destruct Hym as (y1 & y2 & y3 & y4 & m1 & m2 & -> & H1 & H2 & H3 & H4 & H5 & H6 & _).
  apply digit_numeric in H1, H2, H3, H4, H5, H6.
  apply sanitizeString_fixed.
  - apply no_lt_no_tag.
    repeat (constructor; [first [by apply numeric_not_lt | by vm_compute]|]).
    constructor.
  - apply (trim_fixed_ends _ y1 [y2; y3; y4; chr "-"; m1; m2]
             [y1; y2; y3; y4; chr "-"; m1] m2); try done;
      by apply numeric_not_space.
Qed.

Lemma gpa_shape_clean value earned total :
  gpa_shape value earned total → sanitizeString value = value.
Proof.
  intros (ws1 & ws2 & -> & Hws1 & Hws2 & He & Ht).
  apply decimal_fraction_is_Some, decimal_numeric in He as [Hne He].
  apply decimal_fraction_is_Some, decimal_numeric in Ht as [Hnt Ht].
  apply sanitizeString_fixed.
  - apply no_lt_no_tag.
    apply Forall_app; split;
      [|apply Forall_app; split;
        [|apply Forall_cons; split; [|apply Forall_app; split]]].
    + eapply Forall_impl; [exact He|]. apply numeric_not_lt.
    + eapply Forall_impl; [exact Hws1|]. apply space_not_lt.
    + by vm_compute.
    + eapply Forall_impl; [exact Hws2|]. apply space_not_lt.
    + eapply Forall_impl; [exact Ht|]. apply numeric_not_lt.
  - destruct earned as [|e0 earned]; [done|].
    destruct total as [|tl total _] using rev_ind; [done|].
    apply Forall_cons in He as [He0 _]. apply Forall_app in Ht as [_ Htl].
    apply Forall_cons in Htl as [Htl _].
    apply (trim_fixed_ends _ e0 (earned ++ ws1 ++ chr "/" :: ws2 ++ total ++ [tl])
             ((e0 :: earned) ++ ws1 ++ chr "/" :: ws2 ++ total) tl);
      [done | | by apply numeric_not_space | by apply numeric_not_space].
    rewrite <- !app_assoc. simpl. by rewrite <- !app_assoc.
Qed.

End AcceptedValues.

(** X21: a value that passes the date check, or that the GPA pattern
    matches, is stored as typed: the strict sanitizer leaves it as it
    is, so after the update every entry that carries the identifier
    holds exactly that value in the field. *)
Theorem accepted_values_are_stored_as_typed (value : jsstring) :
  ResumeTypes.validateDate value = true
  ∨ is_Some (RegExp.match_groups EducationForm.gpaRegex value) →
  ResumeTypes.sanitizeString value = value ∧
  (∀ id0 f data st e,
     e ∈ (EducationForm.updateEducation id0 f value data st).1 →
     EducationForm.id e = id0 → EducationForm.get_field f e = value).
Proof.
  intros Hv.
  assert (ResumeTypes.sanitizeString value = value) as Hclean.
  { destruct Hv as [Hd|[g Hg]]; [by apply valid_date_clean|].
    unfold RegExp.match_groups in Hg.
    destruct (RegExp.search EducationForm.gpaRegex [] value) as [z|] eqn:Hz; [|done].
    apply gpa_match_shape in Hz as (earned & total & Hshape & _).
    by eapply gpa_shape_clean. }
  split; [exact Hclean|].
  intros id0 f data st e He Hid. unfold EducationForm.updateEducation in He.
  cbn [fst] in He. apply list_elem_of_fmap in He as (e0 & -> & _).
  destruct (decide (EducationForm.id e0 = id0)) as [Hid0|Hid0].
  - by rewrite education_get_set.
  - exfalso. apply Hid0. exact Hid.
Qed.

Lemma accepted_values_are_stored_as_typed_witness :
  ResumeTypes.sanitizeString (str "3.8 / 4.0") = str "3.8 / 4.0" ∧
  (∀ id0 f data st e,
     e ∈ (EducationForm.updateEducation id0 f (str "3.8 / 4.0") data st).1 →
     EducationForm.id e = id0 → EducationForm.get_field f e = str "3.8 / 4.0").
Proof.
  apply (accepted_values_are_stored_as_typed (str "3.8 / 4.0")).
  right. vm_compute. by eexists.
Defined.

(** ** Drafts *)

(** X22: a draft is kept apart from the data of the form.  A saved
    draft is what [loadDraft] returns next, provided the text written
    parses back to the record and is not empty; saving a draft changes
    nothing of what the form loads at start, and the auto-save of the
    form changes nothing of what [loadDraft] returns: the two use
    different keys, and the auto-save another store. *)
Theorem draft_is_kept_apart_from_form_data {V : Type}
    (JSON_parse : jsstring → option V) (JSON_stringify : V → jsstring)
    (mockResumeData record : V) (st : ResumeForm.storage) :
  JSON_parse (JSON_stringify record) = Some record →
  JSON_stringify record ≠ [] →
  (∃ st', ResumeService.saveDraft JSON_stringify true record st = Some st'
          ∧ ResumeService.loadDraft JSON_parse st' = Some (Some record)
          ∧ ResumeForm.loadSavedFormData JSON_parse mockResumeData st'
            = ResumeForm.loadSavedFormData JSON_parse mockResumeData st) ∧
  (∀ accepted other,
     ResumeService.loadDraft JSON_parse
       (ResumeForm.save JSON_stringify accepted other st)
     = ResumeService.loadDraft JSON_parse st).
Proof.
  intros Hparse Hne. split.
  - eexists. split; [reflexivity|]. split.
    + unfold ResumeService.loadDraft. cbn [ResumeForm.localStorage].
      rewrite lookup_insert_eq. by rewrite truthy_true, Hparse.
    + unfold ResumeForm.loadSavedFormData, ResumeForm.load_try, ResumeForm.read_tier.
      cbn [ResumeForm.sessionStorage ResumeForm.localStorage].
      rewrite lookup_insert_ne; [done|]. intros Hk. by vm_compute in Hk.
  - by intros [] other.
Qed.

Lemma draft_is_kept_apart_from_form_data_witness :
  (∃ st', ResumeService.saveDraft (λ _, str "null") true ResumeForm.JNull
            (ResumeForm.mkStorage ∅ ∅) = Some st'
          ∧ ResumeService.loadDraft
              (ResumeForm.parse_only (str "null") ResumeForm.JNull) st'
            = Some (Some ResumeForm.JNull)
          ∧ ResumeForm.loadSavedFormData
              (ResumeForm.parse_only (str "null") ResumeForm.JNull)
              ResumeForm.sample_template st'
            = ResumeForm.loadSavedFormData
                (ResumeForm.parse_only (str "null") ResumeForm.JNull)
                ResumeForm.sample_template (ResumeForm.mkStorage ∅ ∅)) ∧
  (∀ accepted (other : ResumeForm.json),
     ResumeService.loadDraft (ResumeForm.parse_only (str "null") ResumeForm.JNull)
       (ResumeForm.save (λ _, str "null") accepted other (ResumeForm.mkStorage ∅ ∅))
     = ResumeService.loadDraft (ResumeForm.parse_only (str "null") ResumeForm.JNull)
         (ResumeForm.mkStorage ∅ ∅)).
Proof.
  apply (draft_is_kept_apart_from_form_data
           (ResumeForm.parse_only (str "null") ResumeForm.JNull)
           (λ _, str "null") ResumeForm.sample_template ResumeForm.JNull
           (ResumeForm.mkStorage ∅ ∅)).
  - reflexivity.
  - discriminate.
Defined.

(** ** Markup the rich sanitizer keeps *)

(** X23: the rich sanitizer keeps formatting markup: a text in which no
    ['<'] is followed by the letter s, in either case, is only trimmed,
    so tags such as [<b>], [<i>], [<p>] or [<a href=...>] and their
    closing tags pass through as typed. *)
Theorem sanitizeDescription_keeps_formatting (s : jsstring) :
  ResumeTypes.no_script_opening s = true →
  ResumeTypes.sanitizeDescription s = trim s.
Proof.
  intros Hs. unfold ResumeTypes.sanitizeDescription, RegExp.remove_all.
  destruct s as [|c rest]; [done|]. cbn [truthy negb].
  by rewrite remove_scripts_no_opening.
Qed.

Lemma sanitizeDescription_keeps_formatting_witness :
  ResumeTypes.sanitizeDescription (str " <b>Led</b> a team of <i>4</i> ")
  = trim (str " <b>Led</b> a team of <i>4</i> ").
Proof.
  apply sanitizeDescription_keeps_formatting. by vm_compute.
Defined.
